(** * Finance tracker: transaction routes, ownership gate and statistics

    A shallow embedding of the two transaction routers of the repository,
    of the ownership middleware and of the transaction schema, followed
    by the properties of the statistics aggregation, of the create and
    update validation and of the ownership checks.

    [Server] is [server/routes/transactions.js], the router behind the
    middleware of [Auth], which names the owner of a document [user].
    [Api] is the other transactions router, which names the owner
    [userId], as the schema does, and validates in its handlers.

    An amount is a whole number, and the sums of the routes are the
    sums of integers.  The routes add binary64 numbers: on whole amounts
    whose absolute values add up to at most [2^53] every addition and
    subtraction they make is exact, whatever the order, and the model is
    the code; the properties that give the value of a sum are stated for
    such lists ([exact]), and [Doubles] shows what rounding does
    outside them.  A string is a sequence of code units below 256.  A
    request field is carried with the type the schema gives it, so a
    body is a record of optional, typed fields: a type, a category and a
    note that are strings, an amount that is a number, a date that is a
    date string, given as the instant it denotes.  [Raw] adds the
    fields that do not cast to the type of their path, and [Params]
    the [:id] that does not cast to an identifier. *)

From Stdlib Require Import ZArith List String Ascii Bool Lia.
From Stdlib Require Import Permutation Sorted.
From Stdlib Require Import DecimalString DecimalZ DecimalPos.
From Stdlib Require PrimFloat.
Import ListNotations.
Local Open Scope string_scope.
Local Open Scope list_scope.
Local Open Scope Z_scope.

(** ** The JavaScript values and built-ins the routes use *)

Module Js.

(** [String(n)] for an integer. *)
Definition String_of_Z (n : Z) : string :=
  NilZero.string_of_int (Z.to_int n).

(** [s.padStart(n, c)] for a one-character filler. *)
Definition padStart (n : nat) (c : ascii) (s : string) : string :=
  String.append
    (string_of_list_ascii (repeat c (n - String.length s))) s.

(** [s.slice(0, n)]. *)
Definition slice0 (n : nat) (s : string) : string := substring 0 n s.

(** [a.localeCompare(b)] on the strings the routes sort, the month
    keys, made of digits, [-] and [+].  The collation of the host
    compares them character by character and has the hyphen before the
    plus sign and both before the digits, where the code units have the
    plus sign first: [collate] exchanges the two. *)
Definition collation_weight (c : ascii) : ascii :=
  if Ascii.eqb c "+" then "-"%char
  else if Ascii.eqb c "-" then "+"%char
  else c.

Fixpoint collate (s : string) : string :=
  match s with
  | EmptyString => EmptyString
  | String c s' => String (collation_weight c) (collate s')
  end.

Definition localeCompare (a b : string) : Z :=
  match String.compare (collate a) (collate b) with
  | Lt => -1
  | Eq => 0
  | Gt => 1
  end.

(** Truthiness of an optional string or number, and [x || d]. *)
Definition truthy_string (o : option string) : bool :=
  match o with
  | Some s => negb (String.eqb s EmptyString)
  | None => false
  end.

Definition truthy_number (o : option Z) : bool :=
  match o with
  | Some n => negb (n =? 0)
  | None => false
  end.

Definition or_number (o : option Z) (d : Z) : Z :=
  if truthy_number o then match o with Some n => n | None => d end
  else d.

(** [list.includes(x)] on strings. *)
Definition includes (l : list string) (x : string) : bool :=
  existsb (String.eqb x) l.

(** *** Dates

    A [Date] is its time value: milliseconds since the epoch, UTC. *)
Definition Date : Type := Z.

Definition msPerDay : Z := 86400000.
Definition Day (t : Date) : Z := t / msPerDay.
Definition TimeWithinDay (t : Date) : Z := t mod msPerDay.

(** Year, month (1..12) and day of month of a day number, in the
    proleptic Gregorian calendar. *)
Definition civil_from_days (z : Z) : Z * Z * Z :=
  let z := z + 719468 in
  let era := z / 146097 in
  let doe := z - era * 146097 in
  let yoe := (doe - doe / 1460 + doe / 36524 - doe / 146096) / 365 in
  let doy := doe - (365 * yoe + yoe / 4 - yoe / 100) in
  let mp := (5 * doy + 2) / 153 in
  let d := doy - (153 * mp + 2) / 5 + 1 in
  let m := if mp <? 10 then mp + 3 else mp - 9 in
  let y := yoe + era * 400 in
  (if m <=? 2 then y + 1 else y, m, d).

Definition YearFromTime (t : Date) : Z :=
  let '(y, _, _) := civil_from_days (Day t) in y.
(** Months count from 0, as [getMonth] does. *)
Definition MonthFromTime (t : Date) : Z :=
  let '(_, m, _) := civil_from_days (Day t) in m - 1.
Definition DateFromTime (t : Date) : Z :=
  let '(_, _, d) := civil_from_days (Day t) in d.
Definition HourFromTime (t : Date) : Z := TimeWithinDay t / 3600000.
Definition MinFromTime (t : Date) : Z := (TimeWithinDay t / 60000) mod 60.
Definition SecFromTime (t : Date) : Z := (TimeWithinDay t / 1000) mod 60.
Definition msFromTime (t : Date) : Z := TimeWithinDay t mod 1000.

Definition pad (n : nat) (v : Z) : string := padStart n "0" (String_of_Z v).

(** The year of an ISO string: four digits from 0 to 9999, a sign and
    six digits outside. *)
Definition isoYear (y : Z) : string :=
  if (0 <=? y) && (y <=? 9999) then pad 4 y
  else String.append (if y <? 0 then "-" else "+") (pad 6 (Z.abs y)).

Definition toISOString (t : Date) : string :=
  String.concat EmptyString
    [ isoYear (YearFromTime t); "-"; pad 2 (MonthFromTime t + 1); "-";
      pad 2 (DateFromTime t); "T"; pad 2 (HourFromTime t); ":";
      pad 2 (MinFromTime t); ":"; pad 2 (SecFromTime t); ".";
      pad 3 (msFromTime t); "Z" ].

(** *** Objects used as dictionaries

    The own, enumerable string-keyed properties of an object literal,
    in creation order.  [lookup] is the read [o[k]] of an own property,
    [assign] the write [o[k] = v] and [modify] an update of the object
    stored under [k] ([o[k].f += x]); an object that has no property
    [k] of its own is left as it is by [modify]. *)
Definition Obj (V : Type) : Type := list (string * V).

(** The properties an object literal inherits from [Object.prototype].
    A read [o[k]] of a name the object does not own answers the
    inherited value: a built-in function, and for [__proto__] the
    prototype itself.  Each is truthy. *)
Definition Object_prototype : list string :=
  [ "constructor"; "__defineGetter__"; "__defineSetter__"; "hasOwnProperty";
    "__lookupGetter__"; "__lookupSetter__"; "isPrototypeOf";
    "propertyIsEnumerable"; "toString"; "valueOf"; "__proto__";
    "toLocaleString" ].

Definition inherited (k : string) : bool := includes Object_prototype k.

(** [String(o[k])] for an inherited property: the text of a built-in
    function, whose name is that of the property but for [constructor],
    which is [Object]; the text of the prototype for [__proto__]. *)
Definition inherited_text (k : string) : string :=
  if String.eqb k "__proto__" then "[object Object]"
  else String.concat EmptyString
         [ "function ";
           if String.eqb k "constructor" then "Object" else k;
           "() { [native code] }" ].

(** A number or a string: what [x + n] answers. *)
Inductive Value : Type :=
| Num (n : Z)
| Str (s : string).

Fixpoint lookup {V} (k : string) (o : Obj V) : option V :=
  match o with
  | [] => None
  | (k', v) :: o' => if String.eqb k' k then Some v else lookup k o'
  end.

Fixpoint assign {V} (k : string) (v : V) (o : Obj V) : Obj V :=
  match o with
  | [] => [(k, v)]
  | (k', v') :: o' =>
      if String.eqb k' k then (k, v) :: o' else (k', v') :: assign k v o'
  end.

Fixpoint modify {V} (k : string) (f : V -> V) (o : Obj V) : Obj V :=
  match o with
  | [] => []
  | (k', v) :: o' =>
      if String.eqb k' k then (k', f v) :: o' else (k', v) :: modify k f o'
  end.

(** A key that is a canonical array index is enumerated before the
    other keys, in ascending numeric order. *)
Definition array_index (k : string) : option N :=
  match NilEmpty.uint_of_string k with
  | Some u =>
      let n := N.of_uint u in
      if String.eqb (NilZero.string_of_uint (N.to_uint n)) k
         && (n <? 4294967295)%N
      then Some n else None
  | None => None
  end.

Definition is_index (k : string) : bool :=
  match array_index k with Some _ => true | None => false end.

Definition index_of (k : string) : Z :=
  match array_index k with Some n => Z.of_N n | None => 0 end.

(** [a.sort(cmp)]: a stable sort by a comparator that answers a
    negative, zero or positive number. *)
Fixpoint insert_by {A} (cmp : A -> A -> Z) (x : A) (l : list A) : list A :=
  match l with
  | [] => [x]
  | y :: l' => if cmp x y <=? 0 then x :: l else y :: insert_by cmp x l'
  end.

Definition Array_sort {A} (cmp : A -> A -> Z) (l : list A) : list A :=
  fold_right (insert_by cmp) [] l.

(** [Object.entries(o)]. *)
Definition Object_entries {V} (o : Obj V) : list (string * V) :=
  Array_sort (fun a b => index_of (fst a) - index_of (fst b))
             (filter (fun e => is_index (fst e)) o)
  ++ filter (fun e => negb (is_index (fst e))) o.

(** [s.trim()].  The white space and line terminators below 256 are
    the code units 9 to 13, the space and the no-break space. *)
Definition is_space (c : ascii) : bool :=
  let n := nat_of_ascii c in
  (Nat.leb 9 n && Nat.leb n 13) || Nat.eqb n 32 || Nat.eqb n 160.

Fixpoint trimStart (s : string) : string :=
  match s with
  | EmptyString => EmptyString
  | String c s' => if is_space c then trimStart s' else s
  end.

Fixpoint trimEnd (s : string) : string :=
  match s with
  | EmptyString => EmptyString
  | String c s' =>
      match trimEnd s' with
      | EmptyString => if is_space c then EmptyString else String c EmptyString
      | r => String c r
      end
  end.

Definition trim (s : string) : string := trimEnd (trimStart s).

(** [a.reduce(f, init)]. *)
Definition reduce {A B} (f : B -> A -> B) (init : B) (l : list A) : B :=
  fold_left f l init.

End Js.

(** ** The stored documents *)

(** An identifier, as a query compares it: what the [:id] of a
    request is once the model has cast it ([Params] has the
    parameters that do not cast). *)
Definition ObjectId : Type := nat.

(** A document of the transaction collection, with the fields of
    [transactionSchema]; the amount is a whole number. *)
Record Transaction : Type := mkTransaction {
  _id : ObjectId;
  userId : ObjectId;
  type : string;
  amount : Z;
  category : string;
  note : option string;
  date : Js.Date;
  createdAt : Js.Date
}.

(** The collection and the queries the routes run on it. *)
Module Store.

Definition Collection : Type := list Transaction.

(** The condition on [date] of a filter: [{$gte, $lte}], each bound
    optional. *)
Record DateCond : Type := mkDateCond {
  gte : option Js.Date;
  lte : option Js.Date
}.

(** A filter on the owner, with an optional condition on the date. *)
Record Filter : Type := mkFilter {
  owner : ObjectId;
  on_date : option DateCond
}.

Definition in_range (c : DateCond) (d : Js.Date) : bool :=
  match gte c with Some s => s <=? d | None => true end
  && match lte c with Some e => d <=? e | None => true end.

Definition matches (q : Filter) (t : Transaction) : bool :=
  Nat.eqb (userId t) (owner q)
  && match on_date q with Some c => in_range c (date t) | None => true end.

(** [Transaction.find(filter)]. *)
Definition find (q : Filter) (db : Collection) : list Transaction :=
  filter (matches q) db.

(** [Transaction.findById(id)]. *)
Definition findById (id : ObjectId) (db : Collection) : option Transaction :=
  List.find (fun t => Nat.eqb (_id t) id) db.

(** [Transaction.findOne({_id, userId})]. *)
Definition findOne (id user : ObjectId) (db : Collection)
  : option Transaction :=
  List.find (fun t => Nat.eqb (_id t) id && Nat.eqb (userId t) user) db.

(** Removal of the first document a predicate selects. *)
Fixpoint remove_first (p : Transaction -> bool) (db : Collection)
  : Collection :=
  match db with
  | [] => []
  | t :: db' => if p t then db' else t :: remove_first p db'
  end.

(** Replacement of the first document a predicate selects. *)
Fixpoint replace_first (p : Transaction -> bool)
    (f : Transaction -> Transaction) (db : Collection) : Collection :=
  match db with
  | [] => []
  | t :: db' => if p t then f t :: db' else t :: replace_first p f db'
  end.

(** An identifier no stored document carries. *)
Definition fresh_id (db : Collection) : ObjectId :=
  S (fold_right Nat.max 0%nat (map _id db)).

End Store.

(** ** Requests and responses *)

(** The body of a create or update request: each field of the schema a
    client may send, absent ([None]) or present with a value of the
    type of its path: a string, a number, and for a date the instant a
    date string denotes ([Raw] has the values that do not cast).  The
    handlers of [Api] read the first five; [b_userId] and [b_createdAt]
    matter where a body is handed to the model as it is. *)
Record Body : Type := mkBody {
  b_type : option string;
  b_amount : option Z;
  b_category : option string;
  b_note : option string;
  b_date : option Js.Date;
  b_userId : option ObjectId;
  b_createdAt : option Js.Date
}.

(** The query string of the statistics route, a present bound being
    carried as the date [new Date] reads from it. *)
Record StatsQuery : Type := mkStatsQuery {
  startDate : option Js.Date;
  endDate : option Js.Date
}.

(** What [res.json] sends: a document, a message object, the statistics
    of the router, or nothing. *)
Inductive Payload (S : Type) : Type :=
| Doc (t : Transaction)
| Message (m : string)
| Stats (s : S)
| Empty.
Arguments Doc {S} t.
Arguments Message {S} m.
Arguments Stats {S} s.
Arguments Empty {S}.

Record Response (S : Type) : Type := mkResponse {
  status : nat;
  payload : Payload S
}.
Arguments mkResponse {S} status payload.
Arguments status {S} r.
Arguments payload {S} r.

(** ** The transaction schema *)

Module Schema.

Definition set_type (v : string) (t : Transaction) : Transaction :=
  mkTransaction (_id t) (userId t) v (amount t) (category t) (note t)
                (date t) (createdAt t).
Definition set_amount (v : Z) (t : Transaction) : Transaction :=
  mkTransaction (_id t) (userId t) (type t) v (category t) (note t)
                (date t) (createdAt t).
(** [category] and [note] are declared with [trim: true]: the setter
    trims the value assigned. *)
Definition set_category (v : string) (t : Transaction) : Transaction :=
  mkTransaction (_id t) (userId t) (type t) (amount t) (Js.trim v) (note t)
                (date t) (createdAt t).
Definition set_note (v : string) (t : Transaction) : Transaction :=
  mkTransaction (_id t) (userId t) (type t) (amount t) (category t)
                (Some (Js.trim v)) (date t) (createdAt t).
Definition set_date (v : Js.Date) (t : Transaction) : Transaction :=
  mkTransaction (_id t) (userId t) (type t) (amount t) (category t) (note t)
                v (createdAt t).

(** [new Transaction({userId, type, amount, category, note, date})]: the
    document gets its identifier, the setters run and [createdAt] takes
    its default, the current time. *)
Definition new_Transaction (id : ObjectId) (now : Js.Date)
    (userId : ObjectId) (type : string) (amount : Z) (category : string)
    (note : option string) (date : Js.Date) : Transaction :=
  mkTransaction id userId type amount (Js.trim category)
                (option_map Js.trim note) date now.

(** The validators of the schema: [enum] on [type], [min: 0] on
    [amount], [required] on [category] (a string is required to be
    non-empty).  The answer stands for the message of the error
    thrown: it names the first path that fails, where the message of
    the library lists every one. *)
Definition validate (t : Transaction) : option string :=
  if negb (Js.includes ["income"; "expense"] (type t))
  then Some (String.concat EmptyString
               ["Transaction validation failed: type: `"; type t;
                "` is not a valid enum value for path `type`."])
  else if amount t <? 0
  then Some (String.concat EmptyString
               ["Transaction validation failed: amount: Path `amount` (";
                Js.String_of_Z (amount t);
                ") is less than minimum allowed value (0)."])
  else if String.eqb (category t) EmptyString
  then Some (String.concat EmptyString
               ["Transaction validation failed: category: ";
                "Path `category` is required."])
  else None.

(** [transaction.save()] of a new document. *)
Definition save_new (t : Transaction) (db : Store.Collection)
  : string + Transaction * Store.Collection :=
  match validate t with
  | Some message => inl message
  | None => inr (t, db ++ [t])
  end.

(** [transaction.save()] of a document loaded from the collection. *)
Definition save (t : Transaction) (db : Store.Collection)
  : string + Transaction * Store.Collection :=
  match validate t with
  | Some message => inl message
  | None =>
      inr (t, Store.replace_first (fun d => Nat.eqb (_id d) (_id t))
                                  (fun _ => t) db)
  end.

End Schema.

(** The records both routers put in a statistics response. *)
Record Summary : Type := mkSummary {
  totalIncome : Z;
  totalExpense : Z;
  netBalance : Z
}.

Record MonthRecord : Type := mkMonthRecord {
  month : string;
  m_income : Z;
  m_expense : Z;
  balance : Z
}.

(** ** The router that validates in its handlers *)

Module Api.

(** The accumulator of the summary before [netBalance] is added. *)
Record Totals : Type := mkTotals { t_income : Z; t_expense : Z }.

(** The per-category and per-month accumulators. *)
Record Bucket : Type := mkBucket { income : Z; expense : Z }.

Record CategoryRecord : Type := mkCategoryRecord {
  c_category : string;
  c_income : Z;
  c_expense : Z;
  total : Z
}.

Record TrendRecord : Type := mkTrendRecord {
  t_month : string;
  t_balance : Z
}.

Definition is_some {A} (o : option A) : bool :=
  match o with Some _ => true | None => false end.

Definition stats_filter (user : ObjectId) (q : StatsQuery) : Store.Filter :=
  Store.mkFilter user
    (if is_some (startDate q) || is_some (endDate q)
     then Some (Store.mkDateCond (startDate q) (endDate q))
     else None).

Definition summary_step (acc : Totals) (transaction : Transaction) : Totals :=
  if String.eqb (type transaction) "income"
  then mkTotals (t_income acc + amount transaction) (t_expense acc)
  else mkTotals (t_income acc) (t_expense acc + amount transaction).

Definition summary (transactions : list Transaction) : Summary :=
  let acc := Js.reduce summary_step (mkTotals 0 0) transactions in
  mkSummary (t_income acc) (t_expense acc) (t_income acc - t_expense acc).

Definition add_amount (ty : string) (a : Z) (b : Bucket) : Bucket :=
  if String.eqb ty "income"
  then mkBucket (income b + a) (expense b)
  else mkBucket (income b) (expense b + a).

(** A step of the two groupings.  Under a name the accumulator
    inherits and does not own, [acc[k]] is the inherited object: no
    bucket is made, and the amount is added to a property of that
    object, which is no part of the accumulator. *)
Definition bucket_step (key : Transaction -> string)
    (acc : Js.Obj Bucket) (transaction : Transaction) : Js.Obj Bucket :=
  let k := key transaction in
  let acc :=
    match Js.lookup k acc with
    | None => if Js.inherited k then acc else Js.assign k (mkBucket 0 0) acc
    | Some _ => acc
    end in
  Js.modify k (add_amount (type transaction) (amount transaction)) acc.

Definition categoryStats (transactions : list Transaction) : Js.Obj Bucket :=
  Js.reduce (bucket_step category) [] transactions.

Section Host.

(** The offset of the host's local time from UTC, in milliseconds,
    at a given instant. *)
Variable LocalTZA : Z -> Z.

Definition getFullYear (d : Js.Date) : Z :=
  Js.YearFromTime (d + LocalTZA d).
Definition getMonth (d : Js.Date) : Z :=
  Js.MonthFromTime (d + LocalTZA d).

Definition monthKey (d : Js.Date) : string :=
  String.concat EmptyString
    [ Js.String_of_Z (getFullYear d); "-";
      Js.padStart 2 "0" (Js.String_of_Z (getMonth d + 1)) ].

Definition monthlyStats (transactions : list Transaction)
  : Js.Obj Bucket :=
  Js.reduce (bucket_step (fun t => monthKey (date t))) [] transactions.

Definition monthlyData (transactions : list Transaction)
  : list MonthRecord :=
  map (fun e : string * Bucket =>
         let (month, data) := e in
         mkMonthRecord month (income data) (expense data)
                       (income data - expense data))
      (Js.Array_sort (fun a b => Js.localeCompare (fst a) (fst b))
                     (Js.Object_entries (monthlyStats transactions))).

End Host.

Definition categoryData (transactions : list Transaction)
  : list CategoryRecord :=
  map (fun e : string * Bucket =>
         let (category, data) := e in
         mkCategoryRecord category (income data) (expense data)
                          (income data + expense data))
      (Js.Object_entries (categoryStats transactions)).

(** *** The response of the statistics route

    The arrays of category records live in a heap and the response
    object holds their locations: [sort] reorders an array where it is,
    [slice] allocates a copy, and [res.json] reads the arrays when the
    object literal is complete. *)
Definition Loc : Type := nat.
Definition Heap : Type := list (list CategoryRecord).
Definition M (A : Type) : Type := Heap -> A * Heap.

Definition ret {A} (a : A) : M A := fun h => (a, h).
Definition bind {A B} (m : M A) (k : A -> M B) : M B :=
  fun h => let (a, h') := m h in k a h'.

Notation "x <- m ;; k" := (bind m (fun x => k))
  (at level 61, m at next level, right associativity).

Definition read (l : Loc) (h : Heap) : list CategoryRecord := nth l h [].

Fixpoint write (l : Loc) (a : list CategoryRecord) (h : Heap) : Heap :=
  match h, l with
  | [], _ => []
  | _ :: h', O => a :: h'
  | b :: h', S l' => b :: write l' a h'
  end.

Definition alloc (a : list CategoryRecord) : M Loc :=
  fun h => (List.length h, h ++ [a]).

(** [a.sort(cmp)] answers the array it sorted. *)
Definition sort (cmp : CategoryRecord -> CategoryRecord -> Z) (l : Loc)
  : M Loc :=
  fun h => (l, write l (Js.Array_sort cmp (read l h)) h).

(** [a.slice(0, n)]. *)
Definition slice (n : nat) (l : Loc) : M Loc :=
  fun h => alloc (firstn n (read l h)) h.

Record StatsObject : Type := mkStatsObject {
  o_summary : Summary;
  o_monthlyData : list MonthRecord;
  o_categoryData : Loc;
  o_topCategories : Loc;
  o_monthlyTrend : list TrendRecord
}.

Record StatsJson : Type := mkStatsJson {
  r_summary : Summary;
  r_monthlyData : list MonthRecord;
  r_categoryData : list CategoryRecord;
  r_topCategories : list CategoryRecord;
  r_monthlyTrend : list TrendRecord
}.

Definition res_json (o : StatsObject) (h : Heap) : StatsJson :=
  mkStatsJson (o_summary o) (o_monthlyData o) (read (o_categoryData o) h)
              (read (o_topCategories o) h) (o_monthlyTrend o).

Section Routes.

Variable LocalTZA : Z -> Z.

Definition stats_object (transactions : list Transaction) : M StatsObject :=
  let summary := summary transactions in
  let monthlyData := monthlyData LocalTZA transactions in
  categoryData <- alloc (categoryData transactions) ;;
  sorted <- sort (fun a b => total b - total a) categoryData ;;
  topCategories <- slice 5 sorted ;;
  ret (mkStatsObject summary monthlyData categoryData topCategories
         (map (fun data => mkTrendRecord (month data) (balance data))
              monthlyData)).

(** The aggregation of a fetched list, as the client receives it. *)
Definition stats_of (transactions : list Transaction) : StatsJson :=
  let (o, h) := stats_object transactions [] in res_json o h.

(** The handler of [GET /stats].  The matching of a path against the
    routes of the router is not modelled. *)
Definition get_stats (db : Store.Collection) (user : ObjectId)
    (q : StatsQuery) : Response StatsJson :=
  let transactions := Store.find (stats_filter user q) db in
  mkResponse 200 (Stats (stats_of transactions)).

End Routes.

(** [GET /:id]. *)
Definition get_one (db : Store.Collection) (user id : ObjectId)
  : Response StatsJson :=
  match Store.findOne id user db with
  | None => mkResponse 404 (Message "Transaction not found")
  | Some transaction => mkResponse 200 (Doc transaction)
  end.

(** [POST /]. *)
Definition post (db : Store.Collection) (user : ObjectId) (now : Js.Date)
    (body : Body) : Response StatsJson * Store.Collection :=
  if negb (Js.truthy_string (b_type body))
     || negb (Js.truthy_number (b_amount body))
     || negb (Js.truthy_string (b_category body))
  then (mkResponse 400 (Message "Type, amount, and category are required"),
        db)
  else
    match b_type body, b_amount body, b_category body with
    | Some type, Some amount, Some category =>
        if negb (Js.includes ["income"; "expense"] type)
        then (mkResponse 400
                (Message "Type must be either income or expense"), db)
        else if amount <=? 0
        then (mkResponse 400 (Message "Amount must be greater than 0"), db)
        else
          let transaction :=
            Schema.new_Transaction (Store.fresh_id db) now user type amount
              category (b_note body)
              (match b_date body with Some d => d | None => now end) in
          match Schema.save_new transaction db with
          | inl message => (mkResponse 400 (Message message), db)
          | inr (savedTransaction, db') =>
              (mkResponse 201 (Doc savedTransaction), db')
          end
    | _, _, _ =>
        (mkResponse 400 (Message "Type, amount, and category are required"),
         db)
    end.

(** The assignments of [PUT /:id], in the order of the handler; the
    first failed check answers. *)
Definition put_fields (body : Body) (transaction : Transaction)
  : Response StatsJson + Transaction :=
  match
    (if Js.truthy_string (b_type body)
     then match b_type body with
          | Some type =>
              if negb (Js.includes ["income"; "expense"] type)
              then inl (mkResponse 400
                          (Message "Type must be either income or expense"))
              else inr (Schema.set_type type transaction)
          | None => inr transaction
          end
     else inr transaction)
  with
  | inl r => inl r
  | inr transaction =>
      match
        (match b_amount body with
         | Some amount =>
             if amount <=? 0
             then inl (mkResponse 400
                         (Message "Amount must be greater than 0"))
             else inr (Schema.set_amount amount transaction)
         | None => inr transaction
         end)
      with
      | inl r => inl r
      | inr transaction =>
          let transaction :=
            if Js.truthy_string (b_category body)
            then match b_category body with
                 | Some category => Schema.set_category category transaction
                 | None => transaction
                 end
            else transaction in
          let transaction :=
            match b_note body with
            | Some note => Schema.set_note note transaction
            | None => transaction
            end in
          let transaction :=
            match b_date body with
            | Some date => Schema.set_date date transaction
            | None => transaction
            end in
          inr transaction
      end
  end.

(** [PUT /:id]. *)
Definition put (db : Store.Collection) (user id : ObjectId) (body : Body)
  : Response StatsJson * Store.Collection :=
  match Store.findOne id user db with
  | None => (mkResponse 404 (Message "Transaction not found"), db)
  | Some transaction =>
      match put_fields body transaction with
      | inl r => (r, db)
      | inr transaction =>
          match Schema.save transaction db with
          | inl message => (mkResponse 400 (Message message), db)
          | inr (updatedTransaction, db') =>
              (mkResponse 200 (Doc updatedTransaction), db')
          end
      end
  end.

(** [DELETE /:id]. *)
Definition delete (db : Store.Collection) (user id : ObjectId)
  : Response StatsJson * Store.Collection :=
  match Store.findOne id user db with
  | None => (mkResponse 404 (Message "Transaction not found"), db)
  | Some _ =>
      (mkResponse 200 (Message "Transaction deleted successfully"),
       Store.remove_first
         (fun t => Nat.eqb (_id t) id && Nat.eqb (userId t) user) db)
  end.

End Api.

(** ** The ownership middleware *)

Module Auth.

(** The part of a request the single-resource routes read: the [:id]
    parameter, the authenticated user, the body, and the transaction
    the middleware attaches. *)
Record Request : Type := mkRequest {
  params_id : ObjectId;
  user_id : ObjectId;
  body : Body;
  transaction : option Transaction
}.

(** A middleware answers the request or hands it on. *)
Definition verifyTransactionOwnership {S} (db : Store.Collection)
    (req : Request) : Response S + Request :=
  match Store.findById (params_id req) db with
  | None => inl (mkResponse 404 (Message "Transaction not found"))
  | Some transaction =>
      if negb (Nat.eqb (userId transaction) (user_id req))
      then inl (mkResponse 403
                  (Message "Not authorized to access this transaction"))
      else inr (mkRequest (params_id req) (user_id req) (body req)
                          (Some transaction))
  end.

End Auth.

(** ** The router guarded by the ownership middleware

    The owner of a document is read by this router under the path
    [user]; it is the [userId] of the document model. *)

Module Server.

Import Auth.

Record ExpenseRecord : Type := mkExpenseRecord {
  e_category : string;
  e_expense : Js.Value
}.

Record MonthBucket : Type := mkMonthBucket {
  income : Z;
  expense : Z;
  b_balance : Z
}.

Record StatsJson : Type := mkStatsJson {
  r_summary : Summary;
  r_categoryData : list ExpenseRecord;
  r_monthlyData : list MonthRecord
}.

Record Totals : Type := mkTotals { t_income : Z; t_expense : Z }.

(** Only [startDate] is read from the query string. *)
Definition stats_filter (user : ObjectId) (q : StatsQuery) : Store.Filter :=
  Store.mkFilter user
    (match startDate q with
     | Some s => Some (Store.mkDateCond (Some s) None)
     | None => None
     end).

Definition summary_step (acc : Totals) (transaction : Transaction) : Totals :=
  if String.eqb (type transaction) "income"
  then mkTotals (t_income acc + amount transaction) (t_expense acc)
  else mkTotals (t_income acc) (t_expense acc + amount transaction).

Definition summary (transactions : list Transaction) : Summary :=
  let acc := Js.reduce summary_step (mkTotals 0 0) transactions in
  mkSummary (t_income acc) (t_expense acc) (t_income acc - t_expense acc).

(** [acc[category] || 0]: the number or the string the accumulator
    owns under the name, when it is truthy; the object it inherits
    under it, as the text [+] makes of it; [0] otherwise. *)
Definition read_or_0 (category : string) (acc : Js.Obj Js.Value)
  : Js.Value :=
  match Js.lookup category acc with
  | Some (Js.Num n) => Js.Num (Js.or_number (Some n) 0)
  | Some (Js.Str s) => if String.eqb s EmptyString then Js.Num 0 else Js.Str s
  | None =>
      if Js.inherited category then Js.Str (Js.inherited_text category)
      else Js.Num 0
  end.

(** [v + amount]: the sum of two numbers, and the string [v] followed
    by the digits of the amount. *)
Definition plus (v : Js.Value) (amount : Z) : Js.Value :=
  match v with
  | Js.Num n => Js.Num (n + amount)
  | Js.Str s => Js.Str (String.append s (Js.String_of_Z amount))
  end.

(** [acc[category] = (acc[category] || 0) + amount].  The write under
    [__proto__] calls the setter of the prototype, which drops a value
    that is no object. *)
Definition category_step (acc : Js.Obj Js.Value) (transaction : Transaction)
  : Js.Obj Js.Value :=
  let category := category transaction in
  let v := plus (read_or_0 category acc) (amount transaction) in
  if String.eqb category "__proto__" then acc
  else Js.assign category v acc.

Definition categoryData (transactions : list Transaction)
  : Js.Obj Js.Value :=
  Js.reduce category_step []
    (filter (fun t => String.eqb (type t) "expense") transactions).

Definition formattedCategoryData (transactions : list Transaction)
  : list ExpenseRecord :=
  map (fun e : string * Js.Value => let (category, expense) := e in
                                    mkExpenseRecord category expense)
      (Js.Object_entries (categoryData transactions)).

Definition monthKey (d : Js.Date) : string := Js.slice0 7 (Js.toISOString d).

Definition month_step (acc : Js.Obj MonthBucket) (transaction : Transaction)
  : Js.Obj MonthBucket :=
  let month := monthKey (date transaction) in
  let acc :=
    match Js.lookup month acc with
    | None =>
        if Js.inherited month then acc
        else Js.assign month (mkMonthBucket 0 0 0) acc
    | Some _ => acc
    end in
  let acc :=
    if String.eqb (type transaction) "income"
    then Js.modify month
           (fun b => mkMonthBucket (income b + amount transaction)
                                   (expense b) (b_balance b)) acc
    else Js.modify month
           (fun b => mkMonthBucket (income b)
                                   (expense b + amount transaction)
                                   (b_balance b)) acc in
  Js.modify month
    (fun b => mkMonthBucket (income b) (expense b) (income b - expense b))
    acc.

Definition monthlyData (transactions : list Transaction)
  : Js.Obj MonthBucket :=
  Js.reduce month_step [] transactions.

Definition formattedMonthlyData (transactions : list Transaction)
  : list MonthRecord :=
  Js.Array_sort (fun a b => Js.localeCompare (month a) (month b))
    (map (fun e : string * MonthBucket =>
            let (month, data) := e in
            mkMonthRecord month (income data) (expense data)
                          (b_balance data))
         (Js.Object_entries (monthlyData transactions))).

(** The aggregation of a fetched list, as the client receives it. *)
Definition stats_of (transactions : list Transaction) : StatsJson :=
  mkStatsJson (summary transactions) (formattedCategoryData transactions)
              (formattedMonthlyData transactions).

(** [GET /stats], behind [verifyStatsAccess], which lets every
    authenticated request pass. *)
Definition get_stats (db : Store.Collection) (user : ObjectId)
    (q : StatsQuery) : Response StatsJson :=
  let transactions := Store.find (stats_filter user q) db in
  mkResponse 200 (Stats (stats_of transactions)).

(** A route behind [verifyTransactionOwnership]. *)
Definition guarded (db : Store.Collection) (req : Request)
    (handler : Request -> Response StatsJson * Store.Collection)
  : Response StatsJson * Store.Collection :=
  match verifyTransactionOwnership db req with
  | inl r => (r, db)
  | inr req' => handler req'
  end.

(** [GET /:id]. *)
Definition get_one (db : Store.Collection) (req : Request)
  : Response StatsJson * Store.Collection :=
  guarded db req (fun req =>
    (mkResponse 200
       (match transaction req with Some t => Doc t | None => Empty end),
     db)).

(** The update document [findByIdAndUpdate] makes of a body: every
    field present is set, no validator runs. *)
Definition apply_update (body : Body) (t : Transaction) : Transaction :=
  mkTransaction (_id t)
    (match b_userId body with Some v => v | None => userId t end)
    (match b_type body with Some v => v | None => type t end)
    (match b_amount body with Some v => v | None => amount t end)
    (match b_category body with Some v => v | None => category t end)
    (match b_note body with Some v => Some v | None => note t end)
    (match b_date body with Some v => v | None => date t end)
    (match b_createdAt body with Some v => v | None => createdAt t end).

(** [PUT /:id]: [findByIdAndUpdate(req.params.id, req.body, {new: true})]. *)
Definition put (db : Store.Collection) (req : Request)
  : Response StatsJson * Store.Collection :=
  guarded db req (fun req =>
    let db' :=
      Store.replace_first (fun t => Nat.eqb (_id t) (params_id req))
                          (apply_update (body req)) db in
    (mkResponse 200
       (match Store.findById (params_id req) db' with
        | Some t => Doc t
        | None => Empty
        end),
     db')).

(** [DELETE /:id]: [req.transaction.deleteOne()]. *)
Definition delete (db : Store.Collection) (req : Request)
  : Response StatsJson * Store.Collection :=
  guarded db req (fun req =>
    (mkResponse 200 (Message "Transaction deleted"),
     match transaction req with
     | Some t => Store.remove_first (fun d => Nat.eqb (_id d) (_id t)) db
     | None => db
     end)).

End Server.

(** ** The list routes

    [GET /] is the same in both routers:
    [Transaction.find({owner}).sort({date: -1})]. *)

Module Listing.

Record ListResponse : Type := mkListResponse {
  l_status : nat;
  l_docs : list Transaction
}.

(** [.sort({date: -1})]: most recent first.  The store does not fix
    the order of documents of the same date; the model keeps them in
    the order they are found in. *)
Definition sort_date_desc (l : list Transaction) : list Transaction :=
  Js.Array_sort (fun a b => date b - date a) l.

(** [GET /]. *)
Definition get_all (db : Store.Collection) (user : ObjectId)
  : ListResponse :=
  let transactions :=
    sort_date_desc (Store.find (Store.mkFilter user None) db) in
  mkListResponse 200 transactions.

End Listing.

(** ** The authentication middleware *)

Module Gate.

(** [s.replace(pattern, replacement)] for a string pattern: the first
    occurrence is replaced. *)
Fixpoint drop (n : nat) (s : string) : string :=
  match n, s with
  | O, _ => s
  | S n', String _ s' => drop n' s'
  | S _, EmptyString => EmptyString
  end.

Fixpoint replace (pattern replacement s : string) : string :=
  if String.prefix pattern s
  then String.append replacement (drop (String.length pattern) s)
  else match s with
       | EmptyString => EmptyString
       | String c s' => String c (replace pattern replacement s')
       end.

(** A document of the user collection. *)
Record User : Type := mkUser {
  u_id : ObjectId;
  name : string;
  email : string;
  password : option string
}.

(** [User.findById(id)]; an identifier that is [undefined] finds
    nothing. *)
Definition findUserById (id : option ObjectId) (users : list User)
  : option User :=
  match id with
  | Some id => List.find (fun u => Nat.eqb (u_id u) id) users
  | None => None
  end.

(** [.select('-password')]. *)
Definition select_minus_password (u : User) : User :=
  mkUser (u_id u) (name u) (email u) None.

(** The part of a request the middlewares read and write: the
    [Authorization] header and the user attached. *)
Record Request : Type := mkRequest {
  authorization : option string;
  user : option User
}.

Section Tokens.

(** [jwt.verify(token, process.env.JWT_SECRET)] for the secret of the
    host: [None] when it throws, and otherwise the [userId] of the
    payload, which a payload may lack. *)
Variable jwt_verify : string -> option (option ObjectId).

(** [auth]. *)
Definition auth {S} (users : list User) (req : Request)
  : Response S + Request :=
  let token :=
    option_map (replace "Bearer " EmptyString) (authorization req) in
  if negb (Js.truthy_string token)
  then inl (mkResponse 401 (Message "No token, authorization denied"))
  else
    match token with
    | Some token =>
        match jwt_verify token with
        | None => inl (mkResponse 401 (Message "Token is not valid"))
        | Some decoded_userId =>
            match findUserById decoded_userId users with
            | None => inl (mkResponse 401 (Message "Token is not valid"))
            | Some user =>
                inr (mkRequest (authorization req)
                               (Some (select_minus_password user)))
            end
        end
    | None =>
        inl (mkResponse 401 (Message "No token, authorization denied"))
    end.

(** [verifyStatsAccess]. *)
Definition verifyStatsAccess {S} (req : Request) : Response S + Request :=
  match user req with
  | None => inl (mkResponse 401 (Message "Not authorized to access stats"))
  | Some _ => inr req
  end.

(** [GET /stats] of [Server] with its middlewares:
    [router.use(auth)], then [verifyStatsAccess], then the handler,
    which reads [req.user._id]. *)
Definition stats_route (users : list User) (db : Store.Collection)
    (req : Request) (q : StatsQuery) : Response Server.StatsJson :=
  match auth users req with
  | inl r => r
  | inr req =>
      match verifyStatsAccess req with
      | inl r => r
      | inr req =>
          match user req with
          | Some u => Server.get_stats db (u_id u) q
          | None => mkResponse 500 (Message "Server error")
          end
      end
  end.

End Tokens.

End Gate.

(** ** The [:id] parameter

    The single-resource routes hand [req.params.id] to the model, which
    casts it to an [ObjectId].  A parameter that does not cast makes
    the query throw a [CastError], and the [catch] of the route, or of
    the middleware in front of it, answers. *)

Module Params.

Inductive IdParam : Type :=
| Cast (id : ObjectId)
| NoCast (raw : string).

Definition quote : string := String (ascii_of_nat 34) EmptyString.

(** [error.message] of the [CastError]. *)
Definition cast_message (raw : string) : string :=
  String.concat EmptyString
    [ "Cast to ObjectId failed for value "; quote; raw; quote;
      " (type string) at path "; quote; "_id"; quote; " for model ";
      quote; "Transaction"; quote ].

(** The routes of [Api]. *)
Definition get_one (db : Store.Collection) (user : ObjectId) (id : IdParam)
  : Response Api.StatsJson :=
  match id with
  | Cast id => Api.get_one db user id
  | NoCast raw => mkResponse 500 (Message (cast_message raw))
  end.

Definition put (db : Store.Collection) (user : ObjectId) (id : IdParam)
    (body : Body) : Response Api.StatsJson * Store.Collection :=
  match id with
  | Cast id => Api.put db user id body
  | NoCast raw => (mkResponse 400 (Message (cast_message raw)), db)
  end.

Definition delete (db : Store.Collection) (user : ObjectId) (id : IdParam)
  : Response Api.StatsJson * Store.Collection :=
  match id with
  | Cast id => Api.delete db user id
  | NoCast raw => (mkResponse 500 (Message (cast_message raw)), db)
  end.

(** The middleware, and a route of [Server] behind it. *)
Definition verifyTransactionOwnership {S} (db : Store.Collection)
    (id : IdParam) (user : ObjectId) (body : Body)
  : Response S + Auth.Request :=
  match id with
  | Cast id =>
      Auth.verifyTransactionOwnership db (Auth.mkRequest id user body None)
  | NoCast _ => inl (mkResponse 500 (Message "Server error"))
  end.

Definition guarded (db : Store.Collection) (id : IdParam) (user : ObjectId)
    (body : Body)
    (route : Store.Collection -> Auth.Request
             -> Response Server.StatsJson * Store.Collection)
  : Response Server.StatsJson * Store.Collection :=
  match id with
  | Cast id => route db (Auth.mkRequest id user body None)
  | NoCast _ => (mkResponse 500 (Message "Server error"), db)
  end.

End Params.

(** ** The body of a request as it arrives

    A field of the JSON body is absent, a value of the type the schema
    gives its path, or a value that does not cast to that type: a
    string that is no number for [amount], an object for a string, a
    string that is no date for [date].  A value that does not cast is
    truthy. *)

Module Raw.

Inductive Field (A : Type) : Type :=
| Absent
| Value (a : A)
| NoCast.
Arguments Absent {A}.
Arguments Value {A} a.
Arguments NoCast {A}.

Record Fields : Type := mkFields {
  f_type : Field string;
  f_amount : Field Z;
  f_category : Field string;
  f_note : Field string;
  f_date : Field Js.Date
}.

Definition casts {A} (f : Field A) : bool :=
  match f with NoCast => false | _ => true end.

Definition value {A} (f : Field A) : option A :=
  match f with Value a => Some a | _ => None end.

(** The body the handler and the model read, when every field
    casts. *)
Definition cast (fields : Fields) : option Body :=
  if casts (f_type fields) && casts (f_amount fields)
     && casts (f_category fields) && casts (f_note fields)
     && casts (f_date fields)
  then Some (mkBody (value (f_type fields)) (value (f_amount fields))
                    (value (f_category fields)) (value (f_note fields))
                    (value (f_date fields)) None None)
  else None.

(** [POST /] of [Api].  A field that does not cast fails a check of
    the handler, or passes them as a truthy value does and makes
    [save] throw the validation error of the document: the [catch]
    answers 400 and nothing is stored. *)
Definition post (db : Store.Collection) (user : ObjectId) (now : Js.Date)
    (fields : Fields) : Response Api.StatsJson * Store.Collection :=
  match cast fields with
  | Some body => Api.post db user now body
  | None => (mkResponse 400 (Message "Transaction validation failed"), db)
  end.

End Raw.

(** ** The sums on binary64 numbers

    The reducer of the summary on the type and the amount of each
    fetched document, the amount being the binary64 number the
    document holds. *)

Module Doubles.

Import PrimFloat.

Record Totals : Type := mkTotals { totalIncome : float; totalExpense : float }.

Definition summary_step (acc : Totals) (transaction : string * float)
  : Totals :=
  if String.eqb (fst transaction) "income"
  then mkTotals (add (totalIncome acc) (snd transaction)) (totalExpense acc)
  else mkTotals (totalIncome acc) (add (totalExpense acc) (snd transaction)).

Definition summary (transactions : list (string * float)) : Totals :=
  Js.reduce summary_step (mkTotals 0 0) transactions.

(** The sum of numbers, added to 0 one after the other. *)
Definition sum (l : list float) : float := fold_left add l 0%float.

(** Three incomes, of 0.1, 0.2 and 0.3, and the two sums they have;
    a literal stands for the binary64 number nearest to it. *)
#[warnings="-inexact-float"] Definition tenths : list (string * float) :=
  [ ("income", 0.1%float); ("income", 0.2%float); ("income", 0.3%float) ].

#[warnings="-inexact-float"] Definition six_tenths : float := 0.6%float.
#[warnings="-inexact-float"] Definition above_six_tenths : float :=
  0.6000000000000001%float.

End Doubles.

(** * The vocabulary of the properties *)

Definition sumZ (l : list Z) : Z := fold_right Z.add 0 l.

(** The sum of the amounts of the transactions a predicate selects. *)
Definition sum_amounts (p : Transaction -> bool) (txs : list Transaction) : Z :=
  sumZ (map amount (filter p txs)).

Definition is_income (t : Transaction) : bool := String.eqb (type t) "income".
Definition is_expense (t : Transaction) : bool := String.eqb (type t) "expense".

(** The types the schema admits. *)
Definition typed (t : Transaction) : Prop :=
  type t = "income" \/ type t = "expense".

(** The order of the code units, and the order of the collation. *)
Definition str_lt (a b : string) : Prop := String.compare a b = Lt.

Definition key_lt (a b : string) : Prop := str_lt (Js.collate a) (Js.collate b).

(** The amounts on which the sums of the routes are exact: their
    absolute values add up to at most [2^53]. *)
Definition exact (txs : list Transaction) : Prop :=
  sumZ (map (fun t => Z.abs (amount t)) txs) <= 2 ^ 53.

(** No key of the grouping is a name an object inherits. *)
Definition plain_keys (key : Transaction -> string)
    (txs : list Transaction) : Prop :=
  Forall (fun t => Js.inherited (key t) = false) txs.

Definition plain_categories (txs : list Transaction) : Prop :=
  plain_keys category txs.

(** The first character of a month key: a digit or a sign. *)
Definition key_head (s : string) : bool :=
  match s with
  | EmptyString => false
  | String c _ =>
      existsb (Ascii.eqb c)
        [ "0"; "1"; "2"; "3"; "4"; "5"; "6"; "7"; "8"; "9"; "-"; "+" ]%char
  end.

(** The order a comparator induces. *)
Definition cmp_le {A} (cmp : A -> A -> Z) (x y : A) : Prop := cmp x y <= 0.

(** The keys of an object. *)
Definition keys {V} (o : Js.Obj V) : list string := map fst o.

(** The sum of a measure of the values of an object. *)
Definition obj_sum {V} (g : V -> Z) (o : Js.Obj V) : Z :=
  sumZ (map (fun e => g (snd e)) o).

(** The transactions a grouping by [key] puts under [k]. *)
Definition in_group (key : Transaction -> string) (k : string)
    (t : Transaction) : bool :=
  String.eqb (key t) k.

(** The bucket a key ends with: the sums over the transactions of the
    key, when there is one. *)
Definition bucket_of (key : Transaction -> string) (k : string)
    (txs : list Transaction)
  : option Api.Bucket :=
  if existsb (in_group key k) txs
  then Some (Api.mkBucket
               (sum_amounts (fun t => in_group key k t && is_income t) txs)
               (sum_amounts
                  (fun t => in_group key k t && negb (is_income t)) txs))
  else None.

Definition bucket_sum (b : Api.Bucket) : Z := Api.income b + Api.expense b.

Definition by_total_desc (a b : Api.CategoryRecord) : Z :=
  Api.total b - Api.total a.

Definition category_record (e : string * Api.Bucket) : Api.CategoryRecord :=
  Api.mkCategoryRecord (fst e) (Api.income (snd e)) (Api.expense (snd e))
                       (Api.income (snd e) + Api.expense (snd e)).

Definition month_record (e : string * Api.Bucket) : MonthRecord :=
  mkMonthRecord (fst e) (Api.income (snd e)) (Api.expense (snd e))
                (Api.income (snd e) - Api.expense (snd e)).

Definition in_category (k : string) (t : Transaction) : bool :=
  String.eqb (category t) k.

(** The expense a category ends with in [Server.categoryData]. *)
Definition expense_of (k : string) (txs : list Transaction) : option Z :=
  if existsb (fun t => is_expense t && in_category k t) txs
  then Some (sum_amounts (fun t => is_expense t && in_category k t) txs)
  else None.

(** The step of [Server.categoryData] on an accumulator of numbers,
    and the accumulator of numbers as an object of values. *)
Definition expense_step (acc : Js.Obj Z) (t : Transaction) : Js.Obj Z :=
  Js.assign (category t)
    (match Js.lookup (category t) acc with Some v => v | None => 0 end
     + amount t) acc.

Definition numbers (o : Js.Obj Z) : Js.Obj Js.Value :=
  map (fun e => (fst e, Js.Num (snd e))) o.

(** The number an expense record carries, [0] when it carries a
    string. *)
Definition expense_number (r : Server.ExpenseRecord) : Z :=
  match Server.e_expense r with
  | Js.Num n => n
  | Js.Str _ => 0
  end.

Definition month_sum (b : Server.MonthBucket) : Z :=
  Server.income b + Server.expense b.

Definition in_month (k : string) (t : Transaction) : bool :=
  String.eqb (Server.monthKey (date t)) k.

Definition month_bucket_of (k : string) (txs : list Transaction)
  : option Server.MonthBucket :=
  if existsb (in_month k) txs
  then
    let i := sum_amounts (fun t => in_month k t && is_income t) txs in
    let e := sum_amounts (fun t => in_month k t && negb (is_income t)) txs in
    Some (Server.mkMonthBucket i e (i - e))
  else None.

Definition month_bump (t : Transaction) (b : Server.MonthBucket)
  : Server.MonthBucket :=
  let i := if is_income t then Server.income b + amount t
           else Server.income b in
  let e := if is_income t then Server.expense b
           else Server.expense b + amount t in
  Server.mkMonthBucket i e (i - e).

(** The comparator of a sort by a string key. *)
Definition by_key {A} (f : A -> string) (a b : A) : Z :=
  Js.localeCompare (f a) (f b).

(** A check of the numbers from [z], [n] of them. *)
Fixpoint all_from (p : Z -> bool) (n : nat) (z : Z) : bool :=
  match n with
  | O => true
  | S k => if p z then all_from p k (z + 1) else false
  end.

(** The number a string of digits writes. *)
Definition number_of (s : string) : Z :=
  match NilEmpty.uint_of_string s with
  | Some u => Z.of_uint u
  | None => -1
  end.

(** A string of digits and hyphens. *)
Definition key_char (c : ascii) : bool :=
  existsb (Ascii.eqb c)
    [ "0"; "1"; "2"; "3"; "4"; "5"; "6"; "7"; "8"; "9"; "-" ]%char.

Definition key_chars (s : string) : bool :=
  forallb key_char (list_ascii_of_string s).

(** The series of the months of a list of transactions: the records
    are in strictly ascending order of their month, there is one for
    each month key of the list and no other, and each holds the sum of
    the incomes of its month, the sum of its other amounts as
    [expense], and their difference. *)
Definition month_series (lt : string -> string -> Prop)
    (key : Js.Date -> string) (txs : list Transaction)
    (out : list MonthRecord) : Prop :=
  StronglySorted (fun a b => lt (month a) (month b)) out
  /\ (forall k, In k (map month out)
                <-> exists t, In t txs /\ key (date t) = k)
  /\ (forall r, In r out ->
        m_income r
        = sum_amounts (fun t => String.eqb (key (date t)) (month r)
                                && is_income t) txs
        /\ m_expense r
           = sum_amounts (fun t => String.eqb (key (date t)) (month r)
                                   && negb (is_income t)) txs
        /\ balance r = m_income r - m_expense r).

Definition server_month_record (e : string * Server.MonthBucket)
  : MonthRecord :=
  mkMonthRecord (fst e) (Server.income (snd e)) (Server.expense (snd e))
                (Server.b_balance (snd e)).

(** The transactions of the worked example of the specification. *)
Definition example_txs : list Transaction :=
  [ mkTransaction 1%nat 1%nat "income" 100 "salary" None 1704412800000 0;
    mkTransaction 2%nat 1%nat "expense" 40 "food" None 1704844800000 0;
    mkTransaction 3%nat 1%nat "expense" 10 "rent" None 1706745600000 0 ].

(** The breakdown of [Api]: one record for each category of the list
    and no other, with the sum of the incomes of the category, the sum
    of its other amounts as [expense], their sum as [total], and a
    zero where the category has no transaction of a type. *)
Definition full_breakdown (txs : list Transaction)
    (out : list Api.CategoryRecord) : Prop :=
  NoDup (map Api.c_category out)
  /\ (forall c, In c (map Api.c_category out) <-> In c (map category txs))
  /\ (forall r, In r out ->
        Api.c_income r
        = sum_amounts (fun t => in_category (Api.c_category r) t
                                && is_income t) txs
        /\ Api.c_expense r
           = sum_amounts (fun t => in_category (Api.c_category r) t
                                   && negb (is_income t)) txs
        /\ Api.total r = Api.c_income r + Api.c_expense r
        /\ ((forall t, In t txs -> category t = Api.c_category r ->
                       type t = "income") -> Api.c_expense r = 0)
        /\ ((forall t, In t txs -> category t = Api.c_category r ->
                       type t <> "income") -> Api.c_income r = 0)).

(** The breakdown of [Server]: one record for each category that has
    an expense and no other, with the expense sum of the category. *)
Definition expense_breakdown (txs : list Transaction)
    (out : list Server.ExpenseRecord) : Prop :=
  NoDup (map Server.e_category out)
  /\ (forall c, In c (map Server.e_category out)
                <-> exists t, In t txs /\ type t = "expense"
                              /\ category t = c)
  /\ (forall r, In r out ->
        Server.e_expense r
        = Js.Num (sum_amounts
                    (fun t => is_expense t
                              && in_category (Server.e_category r) t) txs)).

(** One expense of 1 in a category. *)
Definition one_expense (k : string) : list Transaction :=
  [ mkTransaction 1%nat 1%nat "expense" 1 k None 1704412800000 0 ].

(** Two expenses of the same amount in two categories, and the same
    two fetched in the other order. *)
Definition food_then_rent : list Transaction :=
  [ mkTransaction 1%nat 1%nat "expense" 10 "food" None 1704412800000 0;
    mkTransaction 2%nat 1%nat "expense" 10 "rent" None 1704412800000 0 ].

Definition rent_then_food : list Transaction :=
  [ mkTransaction 2%nat 1%nat "expense" 10 "rent" None 1704412800000 0;
    mkTransaction 1%nat 1%nat "expense" 10 "food" None 1704412800000 0 ].

(** A date lies in an inclusive range whose bounds are optional. *)
Definition within (lo hi : option Js.Date) (d : Js.Date) : Prop :=
  (forall s, lo = Some s -> s <= d) /\ (forall e, hi = Some e -> d <= e).

(** A route denies a request: it answers [code] with a message, no
    document, and the collection is as it was. *)
Definition denied {S} (code : nat) (db : Store.Collection)
    (r : Response S * Store.Collection) : Prop :=
  status (fst r) = code
  /\ (exists m, payload (fst r) = Message m)
  /\ snd r = db.

(** What the single-resource routes do with the request of user [a]
    for the identifier [id], [b] being another user. *)
Definition ownership_checked (db : Store.Collection) (a b id : ObjectId)
    (body : Body) : Prop :=
  let req := Auth.mkRequest id a body None in
  (* no transaction has the identifier: NotFound everywhere *)
  (Store.findById id db = None ->
     (exists r, @Auth.verifyTransactionOwnership Server.StatsJson db req
                = inl r /\ status r = 404%nat)
     /\ denied 404 db (Server.get_one db req)
     /\ denied 404 db (Server.put db req)
     /\ denied 404 db (Server.delete db req)
     /\ denied 404 db (Api.get_one db a id, db)
     /\ denied 404 db (Api.put db a id body)
     /\ denied 404 db (Api.delete db a id))
  (* the transaction is owned by [b]: Forbidden behind the middleware,
     NotFound in the router that filters by owner *)
  /\ (forall t, Store.findById id db = Some t -> userId t = b ->
        (exists r, @Auth.verifyTransactionOwnership Server.StatsJson db req
                   = inl r /\ status r = 403%nat)
        /\ denied 403 db (Server.get_one db req)
        /\ denied 403 db (Server.put db req)
        /\ denied 403 db (Server.delete db req)
        /\ denied 404 db (Api.get_one db a id, db)
        /\ denied 404 db (Api.put db a id body)
        /\ denied 404 db (Api.delete db a id))
  (* the transaction is owned by [a]: it is attached to the request *)
  /\ (forall t, Store.findById id db = Some t -> userId t = a ->
        @Auth.verifyTransactionOwnership Server.StatsJson db req
        = inr (Auth.mkRequest id a body (Some t))
        /\ Server.get_one db req = (mkResponse 200 (Doc t), db)
        /\ Api.get_one db a id = mkResponse 200 (Doc t)).





(** The document the create route stores for a request it accepts. *)
Definition created (db : Store.Collection) (user : ObjectId) (now : Js.Date)
    (ty : string) (am : Z) (c : string) (body : Body) : Transaction :=
  mkTransaction (Store.fresh_id db) user ty am (Js.trim c)
                (option_map Js.trim (b_note body))
                (match b_date body with Some d => d | None => now end) now.

(** The update of [t] into [t'] leaves every field the body does not
    carry as it was, and the identifier in any case. *)
Definition partial_update (body : Body) (t t' : Transaction) : Prop :=
  _id t' = _id t
  /\ (b_type body = None -> type t' = type t)
  /\ (b_amount body = None -> amount t' = amount t)
  /\ (b_category body = None -> category t' = category t)
  /\ (b_note body = None -> note t' = note t)
  /\ (b_date body = None -> date t' = date t)
  /\ (b_userId body = None -> userId t' = userId t)
  /\ (b_createdAt body = None -> createdAt t' = createdAt t).

(** The bodies the update route of [Api] rejects in its handler. *)
Definition update_invalid (body : Body) : Prop :=
  (exists ty, b_type body = Some ty /\ ty <> EmptyString
              /\ ty <> "income" /\ ty <> "expense")
  \/ (exists am, b_amount body = Some am /\ am <= 0).

(** The create rules hold of the type and of the amount a body
    carries. *)
Definition update_valid (body : Body) : Prop :=
  (forall ty, b_type body = Some ty -> ty = "income" \/ ty = "expense")
  /\ (forall am, b_amount body = Some am -> 0 < am).

(** What an update by the owner of [t] does, in both routers. *)
Definition updates_partially (db : Store.Collection) (user id : ObjectId)
    (body : Body) (t : Transaction) : Prop :=
  let stored t' :=
    Store.replace_first (fun d => Nat.eqb (_id d) id) (fun _ => t') db in
  (update_invalid body -> denied 400 db (Api.put db user id body))
  /\ (denied 400 db (Api.put db user id body)
      \/ exists t',
           Api.put db user id body = (mkResponse 200 (Doc t'), stored t')
           /\ partial_update body t t'
           /\ userId t' = userId t /\ createdAt t' = createdAt t)
  /\ (update_valid body ->
      exists t',
        Server.put db (Auth.mkRequest id user body None)
        = (mkResponse 200 (Doc t'), stored t')
        /\ partial_update body t t').

(** A body the create route accepts, and one the update route
    accepts. *)
Definition example_body : Body :=
  mkBody (Some "expense") (Some 12) (Some " food ") (Some "lunch") None
         None None.

Definition example_patch : Body :=
  mkBody None (Some 45) (Some "dining") None None None None.

(** A stored transaction is well formed: its type is of the
    enumeration, its amount positive, its category not empty. *)
Definition well_formed (t : Transaction) : Prop :=
  typed t /\ 0 < amount t /\ category t <> EmptyString.

(** The collection has distinct identifiers and well-formed
    transactions. *)
Definition store_ok (db : Store.Collection) : Prop :=
  NoDup (map _id db) /\ Forall well_formed db.

(** The documents of the users other than [a]. *)
Definition others (a : ObjectId) (db : Store.Collection) : Store.Collection :=
  filter (fun t => negb (Nat.eqb (userId t) a)) db.

(** The documents of [a]. *)
Definition owned (a : ObjectId) (db : Store.Collection) : Store.Collection :=
  filter (fun t => Nat.eqb (userId t) a) db.

(** The two breakdowns agree on the expenses: a record of [Server]
    has its category and expense in a record of [Api], and a record
    of [Api] whose category has no record in [Server] has no
    expense. *)
Definition expenses_agree (full : list Api.CategoryRecord)
    (exp : list Server.ExpenseRecord) : Prop :=
  Forall (fun r =>
            Exists (fun r' => Api.c_category r' = Server.e_category r
                              /\ Js.Num (Api.c_expense r')
                                 = Server.e_expense r)
                   full) exp
  /\ Forall (fun r' =>
               In (Api.c_category r') (map Server.e_category exp)
               \/ Api.c_expense r' = 0) full.

(** The records of a statistics response carry positive totals. *)
Definition positive_records (cats : list Api.CategoryRecord)
    (exps : list Server.ExpenseRecord) (months : list MonthRecord) : Prop :=
  Forall (fun r => 0 <= Api.c_income r /\ 0 <= Api.c_expense r
                   /\ 0 < Api.total r) cats
  /\ Forall (fun r => exists n, Server.e_expense r = Js.Num n /\ 0 < n) exps
  /\ Forall (fun r => 0 <= m_income r /\ 0 <= m_expense r
                      /\ 0 < m_income r + m_expense r) months.

(** A pattern occurs in a string. *)
Fixpoint occurs (pattern s : string) : bool :=
  String.prefix pattern s
  || match s with
     | EmptyString => false
     | String _ s' => occurs pattern s'
     end.

(** What [auth] does once it has a token that is not empty. *)
Definition authenticate {S} (jwt_verify : string -> option (option ObjectId))
    (users : list Gate.User) (header : option string) (token : string)
  : Response S + Gate.Request :=
  match jwt_verify token with
  | None => inl (mkResponse 401 (Message "Token is not valid"))
  | Some decoded =>
      match Gate.findUserById decoded users with
      | None => inl (mkResponse 401 (Message "Token is not valid"))
      | Some u =>
          inr (Gate.mkRequest header (Some (Gate.select_minus_password u)))
      end
  end.

(** The checks of the update route of [Api], and the transaction it
    saves when they pass. *)
Definition type_bad (body : Body) : bool :=
  match b_type body with
  | Some ty =>
      negb (String.eqb ty EmptyString)
      && negb (Js.includes ["income"; "expense"] ty)
  | None => false
  end.

Definition amount_bad (body : Body) : bool :=
  match b_amount body with
  | Some am => am <=? 0
  | None => false
  end.

Definition patched (body : Body) (t : Transaction) : Transaction :=
  mkTransaction (_id t) (userId t)
    (match b_type body with
     | Some ty => if String.eqb ty EmptyString then type t else ty
     | None => type t
     end)
    (match b_amount body with Some am => am | None => amount t end)
    (match b_category body with
     | Some c => if String.eqb c EmptyString then category t else Js.trim c
     | None => category t
     end)
    (match b_note body with Some n => Some (Js.trim n) | None => note t end)
    (match b_date body with Some d => d | None => date t end)
    (createdAt t).

(** * Properties *)

(** ** The model on the worked example of the specification *)

Example date_2024_01_05 :
  Js.toISOString 1704412800000 = "2024-01-05T00:00:00.000Z".
Proof. vm_compute. reflexivity. Qed.

Example worked_example :
  Api.r_summary (Api.stats_of (fun _ => 0) example_txs)
  = mkSummary 100 50 50
  /\ Api.r_monthlyData (Api.stats_of (fun _ => 0) example_txs)
     = [ mkMonthRecord "2024-01" 100 40 60;
         mkMonthRecord "2024-02" 0 10 (-10) ]
  /\ Server.stats_of example_txs
     = Server.mkStatsJson
         (mkSummary 100 50 50)
         [ Server.mkExpenseRecord "food" (Js.Num 40);
           Server.mkExpenseRecord "rent" (Js.Num 10) ]
         [ mkMonthRecord "2024-01" 100 40 60;
           mkMonthRecord "2024-02" 0 10 (-10) ].
Proof. vm_compute. repeat split. Qed.

(** An object enumerates its array indices first, in ascending order,
    and its other keys in creation order. *)
Example entries_order :
  map fst (Js.Object_entries [("b", 1); ("10", 2); ("2", 3); ("01", 4)])
  = ["2"; "10"; "b"; "01"].
Proof. vm_compute. reflexivity. Qed.

(** ** Sums of amounts *)

Lemma sumZ_app l1 l2 : sumZ (l1 ++ l2) = sumZ l1 + sumZ l2.
Proof. induction l1 as [|x l1 IH]; simpl; lia. Qed.

Lemma sumZ_perm l1 l2 : Permutation l1 l2 -> sumZ l1 = sumZ l2.
Proof. induction 1; simpl; lia. Qed.

Lemma filter_perm {A} (p : A -> bool) l1 l2 :
  Permutation l1 l2 -> Permutation (filter p l1) (filter p l2).
Proof.
  induction 1 as [|x l1 l2 _ IH|x y l|l1 l2 l3 _ IH1 _ IH2]; simpl.
  - constructor.
  - destruct (p x); auto.
  - destruct (p x), (p y); auto using perm_swap.
  - now transitivity (filter p l2).
Qed.

Lemma sum_amounts_perm p l1 l2 :
  Permutation l1 l2 -> sum_amounts p l1 = sum_amounts p l2.
Proof.
  intros H. unfold sum_amounts.
  apply sumZ_perm, Permutation_map, filter_perm, H.
Qed.

Lemma sum_amounts_cons p t txs :
  sum_amounts p (t :: txs)
  = (if p t then amount t else 0) + sum_amounts p txs.
Proof. unfold sum_amounts; simpl. destruct (p t); simpl; lia. Qed.

Lemma sum_amounts_ext p q txs :
  (forall t, In t txs -> p t = q t) -> sum_amounts p txs = sum_amounts q txs.
Proof.
  induction txs as [|t txs IH]; intros H; [reflexivity|].
  rewrite !sum_amounts_cons, (H t (or_introl eq_refl)), IH; auto.
  intros; apply H; now right.
Qed.

Lemma sum_amounts_none p txs :
  (forall t, In t txs -> p t = false) -> sum_amounts p txs = 0.
Proof.
  induction txs as [|t txs IH]; intros H; [reflexivity|].
  rewrite sum_amounts_cons, (H t (or_introl eq_refl)), IH; auto.
  intros; apply H; now right.
Qed.

Lemma typed_not_income t : typed t -> negb (is_income t) = is_expense t.
Proof.
  unfold typed, is_income, is_expense. intros [H|H]; rewrite H; reflexivity.
Qed.

(** ** The order of strings *)

Lemma ascii_compare_N a b :
  Ascii.compare a b = N.compare (N_of_ascii a) (N_of_ascii b).
Proof. reflexivity. Qed.

Lemma ascii_compare_lt_trans a b c :
  Ascii.compare a b = Lt -> Ascii.compare b c = Lt -> Ascii.compare a c = Lt.
Proof.
  rewrite !ascii_compare_N, !N.compare_lt_iff. apply N.lt_trans.
Qed.

Lemma str_lt_trans a b c : str_lt a b -> str_lt b c -> str_lt a c.
Proof.
  unfold str_lt. revert b c.
  induction a as [|x a IH]; intros [|y b] [|z c]; simpl; try congruence.
  destruct (Ascii.compare x y) eqn:Exy; try discriminate;
    destruct (Ascii.compare y z) eqn:Eyz; try discriminate; intros Hab Hbc.
  - apply Ascii.compare_eq_iff in Exy, Eyz. subst.
    assert (E : Ascii.compare z z = Eq)
      by (rewrite ascii_compare_N; apply N.compare_refl).
    rewrite E. eauto.
  - apply Ascii.compare_eq_iff in Exy. subst. now rewrite Eyz.
  - apply Ascii.compare_eq_iff in Eyz. subst. now rewrite Exy.
  - now rewrite (ascii_compare_lt_trans _ _ _ Exy Eyz).
Qed.

Lemma str_lt_irrefl a : ~ str_lt a a.
Proof.
  unfold str_lt. intros H.
  pose proof (String.compare_antisym a a) as E. rewrite H in E. discriminate.
Qed.

Lemma collation_weight_invol c :
  Js.collation_weight (Js.collation_weight c) = c.
Proof.
  unfold Js.collation_weight.
  destruct (Ascii.eqb_spec c "+") as [->|H1]; [reflexivity|].
  destruct (Ascii.eqb_spec c "-") as [->|H2]; [reflexivity|].
  destruct (Ascii.eqb_spec c "+"); [contradiction|].
  destruct (Ascii.eqb_spec c "-"); [contradiction|reflexivity].
Qed.

Lemma collate_invol s : Js.collate (Js.collate s) = s.
Proof.
  induction s as [|c s IH]; simpl; [reflexivity|].
  now rewrite collation_weight_invol, IH.
Qed.

Lemma collate_inj a b : Js.collate a = Js.collate b -> a = b.
Proof.
  intros H. rewrite <- (collate_invol a), <- (collate_invol b). now rewrite H.
Qed.

Lemma key_lt_trans a b c : key_lt a b -> key_lt b c -> key_lt a c.
Proof. unfold key_lt. apply str_lt_trans. Qed.

Lemma key_lt_irrefl a : ~ key_lt a a.
Proof. unfold key_lt. apply str_lt_irrefl. Qed.

Lemma localeCompare_le a b :
  Js.localeCompare a b <= 0 <-> a = b \/ key_lt a b.
Proof.
  unfold Js.localeCompare, key_lt, str_lt.
  destruct (String.compare (Js.collate a) (Js.collate b)) eqn:E;
    split; intros H; try lia; auto.
  - left. now apply collate_inj, String.compare_eq_iff.
  - destruct H as [->|H]; [|discriminate].
    pose proof (String.compare_antisym (Js.collate b) (Js.collate b)) as E'.
    rewrite E in E'. discriminate.
Qed.

Lemma localeCompare_total a b :
  0 < Js.localeCompare a b -> Js.localeCompare b a <= 0.
Proof.
  unfold Js.localeCompare.
  rewrite (String.compare_antisym (Js.collate a) (Js.collate b)).
  destruct (String.compare (Js.collate b) (Js.collate a)); simpl; lia.
Qed.

(** ** The sort of arrays *)

Section Sorting.

Context {A : Type} (cmp : A -> A -> Z).

Lemma insert_by_perm x l : Permutation (x :: l) (Js.insert_by cmp x l).
Proof.
  induction l as [|y l IH]; simpl; [reflexivity|].
  destruct (cmp x y <=? 0); [reflexivity|].
  rewrite perm_swap. now apply perm_skip.
Qed.

Lemma Array_sort_perm l : Permutation l (Js.Array_sort cmp l).
Proof.
  induction l as [|x l IH]; simpl; [constructor|].
  rewrite <- insert_by_perm. now apply perm_skip.
Qed.

Lemma Array_sort_In x l : In x (Js.Array_sort cmp l) <-> In x l.
Proof.
  split; apply Permutation_in;
    [symmetry|]; apply Array_sort_perm.
Qed.

Hypothesis cmp_total : forall x y, 0 < cmp x y -> cmp y x <= 0.
Hypothesis cmp_trans :
  forall x y z, cmp x y <= 0 -> cmp y z <= 0 -> cmp x z <= 0.

Lemma insert_by_sorted x l :
  StronglySorted (cmp_le cmp) l ->
  StronglySorted (cmp_le cmp) (Js.insert_by cmp x l).
Proof.
  induction 1 as [|y l Hs IH Hy]; simpl.
  - repeat constructor.
  - destruct (cmp x y <=? 0) eqn:E.
    + apply Z.leb_le in E. constructor; [now constructor|].
      constructor; [exact E|].
      eapply Forall_impl; [|exact Hy]. intros z Hz. now apply cmp_trans with y.
    + apply Z.leb_gt in E. constructor; [exact IH|].
      rewrite Forall_forall in *. intros z Hz.
      apply (Permutation_in _ (Permutation_sym (insert_by_perm x l))) in Hz.
      destruct Hz as [<-|Hz]; [now apply cmp_total | now apply Hy].
Qed.

Lemma Array_sort_sorted l : StronglySorted (cmp_le cmp) (Js.Array_sort cmp l).
Proof.
  induction l as [|x l IH]; simpl; [constructor | now apply insert_by_sorted].
Qed.

End Sorting.

(** Two sorted lists with the same elements are equal, when the order
    is antisymmetric on these elements. *)
Lemma sorted_perm_eq {A} (R : A -> A -> Prop) (l l' : list A) :
  (forall x y, In x l -> In y l -> R x y -> R y x -> x = y) ->
  StronglySorted R l -> StronglySorted R l' -> Permutation l l' -> l = l'.
Proof.
  revert l'. induction l as [|x l IH]; intros l' Hanti Hl Hl' Hp.
  - now apply Permutation_nil in Hp.
  - destruct l' as [|y l'].
    + symmetry in Hp. now apply Permutation_nil in Hp.
    + inversion Hl as [|? ? Hs Hx]; inversion Hl' as [|? ? Hs' Hy]; subst.
      assert (E : x = y).
      { assert (Hxin : In x (y :: l'))
          by (eapply Permutation_in; [exact Hp | now left]).
        assert (Hyin : In y (x :: l))
          by (eapply Permutation_in; [symmetry; exact Hp | now left]).
        destruct Hxin as [->|Hxin]; [reflexivity|].
        destruct Hyin as [->|Hyin]; [reflexivity|].
        rewrite Forall_forall in Hx, Hy.
        apply Hanti; [now left | now right | now apply Hx | now apply Hy]. }
      subst y. f_equal.
      apply IH; auto.
      * intros a b Ha Hb. apply Hanti; now right.
      * now apply Permutation_cons_inv in Hp.
Qed.

Lemma StronglySorted_map {A B} (f : A -> B) (R : B -> B -> Prop) l :
  StronglySorted (fun a b => R (f a) (f b)) l -> StronglySorted R (map f l).
Proof.
  induction 1 as [|x l Hs IH Hx]; simpl; constructor; auto.
  rewrite Forall_forall in *. intros b Hb.
  apply in_map_iff in Hb. destruct Hb as [a [<- Ha]]. now apply Hx.
Qed.

Lemma StronglySorted_strict {A} (R R' : A -> A -> Prop) l :
  (forall x y, R x y -> x <> y -> R' x y) ->
  NoDup l -> StronglySorted R l -> StronglySorted R' l.
Proof.
  intros HR Hnd. induction 1 as [|x l Hs IH Hx]; constructor.
  - apply IH. now inversion Hnd.
  - inversion Hnd as [|? ? Hnin _]; subst.
    rewrite Forall_forall in *. intros y Hy.
    apply HR; [now apply Hx|]. intros ->. contradiction.
Qed.

Lemma StronglySorted_impl {A} (R R' : A -> A -> Prop) l :
  (forall x y, In x l -> In y l -> R x y -> R' x y) ->
  StronglySorted R l -> StronglySorted R' l.
Proof.
  intros HR. induction 1 as [|x l Hs IH Hx]; constructor.
  - apply IH. intros a b Ha Hb. apply HR; now right.
  - rewrite Forall_forall in *. intros y Hy.
    apply HR; [now left | now right | now apply Hx].
Qed.

(** ** Objects used as dictionaries *)

Section Objects.

Context {V : Type}.
Implicit Types (o : Js.Obj V) (k : string) (v : V).

Lemma lookup_None k o : Js.lookup k o = None <-> ~ In k (keys o).
Proof.
  induction o as [|[k' v] o IH]; simpl; [tauto|].
  destruct (String.eqb_spec k' k) as [->|Hne].
  - split; [discriminate | intros H; exfalso; apply H; now left].
  - rewrite IH. tauto.
Qed.

Lemma lookup_Some_In k v o : Js.lookup k o = Some v -> In (k, v) o.
Proof.
  induction o as [|[k' v'] o IH]; simpl; [discriminate|].
  destruct (String.eqb_spec k' k) as [->|Hne].
  - intros [= ->]. now left.
  - intros H. right. now apply IH.
Qed.

Lemma In_lookup k v o : NoDup (keys o) -> In (k, v) o -> Js.lookup k o = Some v.
Proof.
  induction o as [|[k' v'] o IH]; simpl; [tauto|].
  intros Hnd [[= -> ->]|Hin].
  - now rewrite String.eqb_refl.
  - inversion Hnd as [|? ? Hnin Hnd']; subst.
    destruct (String.eqb_spec k' k) as [->|Hne]; [|now apply IH].
    exfalso. apply Hnin. change k with (fst (k, v)). now apply in_map.
Qed.

Lemma lookup_assign k k' v o :
  Js.lookup k' (Js.assign k v o)
  = if String.eqb k k' then Some v else Js.lookup k' o.
Proof.
  induction o as [|[k1 v1] o IH]; simpl; [reflexivity|].
  destruct (String.eqb_spec k1 k) as [->|Hne]; simpl.
  - destruct (String.eqb k k'); reflexivity.
  - destruct (String.eqb_spec k1 k') as [->|Hne'].
    + destruct (String.eqb_spec k k'); congruence.
    + exact IH.
Qed.

Lemma lookup_modify k k' (f : V -> V) o :
  Js.lookup k' (Js.modify k f o)
  = if String.eqb k k' then option_map f (Js.lookup k' o)
    else Js.lookup k' o.
Proof.
  induction o as [|[k1 v1] o IH]; simpl.
  - now destruct (String.eqb k k').
  - destruct (String.eqb_spec k1 k) as [->|Hne]; simpl.
    + destruct (String.eqb k k'); reflexivity.
    + destruct (String.eqb_spec k1 k') as [->|Hne'].
      * destruct (String.eqb_spec k k'); congruence.
      * exact IH.
Qed.

Lemma keys_modify k (f : V -> V) o : keys (Js.modify k f o) = keys o.
Proof.
  induction o as [|[k1 v1] o IH]; simpl; [reflexivity|].
  destruct (String.eqb k1 k); simpl; [reflexivity | now f_equal].
Qed.

Lemma keys_assign k v o :
  keys (Js.assign k v o)
  = match Js.lookup k o with Some _ => keys o | None => keys o ++ [k] end.
Proof.
  induction o as [|[k1 v1] o IH]; simpl; [reflexivity|].
  destruct (String.eqb_spec k1 k) as [->|Hne]; simpl; [reflexivity|].
  rewrite IH. now destruct (Js.lookup k o).
Qed.

Lemma NoDup_keys_assign k v o :
  NoDup (keys o) -> NoDup (keys (Js.assign k v o)).
Proof.
  intros Hnd. rewrite keys_assign.
  destruct (Js.lookup k o) eqn:E; [exact Hnd|].
  apply lookup_None in E.
  apply (Permutation_NoDup (Permutation_cons_append (keys o) k)).
  now constructor.
Qed.

Lemma NoDup_keys_entries o : NoDup (keys o) -> NoDup o.
Proof. apply NoDup_map_inv. Qed.

Lemma Object_entries_perm o : Permutation o (Js.Object_entries o).
Proof.
  unfold Js.Object_entries.
  rewrite <- Array_sort_perm.
  induction o as [|e o IH]; simpl; [constructor|].
  destruct (Js.is_index (fst e)); simpl.
  - now apply perm_skip.
  - rewrite <- Permutation_middle. now apply perm_skip.
Qed.

Lemma obj_perm o o' :
  NoDup (keys o) -> NoDup (keys o') ->
  (forall k, Js.lookup k o = Js.lookup k o') -> Permutation o o'.
Proof.
  intros Hnd Hnd' Heq.
  apply NoDup_Permutation; auto using NoDup_keys_entries.
  intros [k v]; split; intros H.
  - apply lookup_Some_In. rewrite <- Heq. now apply In_lookup.
  - apply lookup_Some_In. rewrite Heq. now apply In_lookup.
Qed.

Lemma obj_sum_perm g o o' : Permutation o o' -> obj_sum g o = obj_sum g o'.
Proof. intros H. apply sumZ_perm, Permutation_map, H. Qed.

Lemma obj_sum_assign g k v o :
  obj_sum g (Js.assign k v o)
  = obj_sum g o + g v
    - match Js.lookup k o with Some v' => g v' | None => 0 end.
Proof.
  unfold obj_sum. induction o as [|[k1 v1] o IH]; simpl; [lia|].
  destruct (String.eqb k1 k); simpl; lia.
Qed.

Lemma obj_sum_modify g k (f : V -> V) o :
  obj_sum g (Js.modify k f o)
  = obj_sum g o
    + match Js.lookup k o with Some v => g (f v) - g v | None => 0 end.
Proof.
  unfold obj_sum. induction o as [|[k1 v1] o IH]; simpl; [lia|].
  destruct (String.eqb k1 k); simpl; lia.
Qed.

End Objects.

(** ** The month keys are no inherited names *)

Lemma key_head_plain s : key_head s = true -> Js.inherited s = false.
Proof.
  destruct s as [|c s]; [discriminate|]. cbn [key_head existsb].
  intros H.
  repeat (apply orb_prop in H; destruct H as [H|H]);
    try discriminate;
    apply Ascii.eqb_eq in H; subst c; reflexivity.
Qed.

Lemma key_head_append a b : key_head a = true -> key_head (a ++ b) = true.
Proof. destruct a; [discriminate | intros H; exact H]. Qed.

Lemma key_head_substring n s :
  key_head s = true -> key_head (substring 0 (S n) s) = true.
Proof. destruct s; [discriminate | intros H; exact H]. Qed.

Lemma string_of_uint_head u : key_head (NilZero.string_of_uint u) = true.
Proof. destruct u; reflexivity. Qed.

Lemma String_of_Z_head n : key_head (Js.String_of_Z n) = true.
Proof.
  unfold Js.String_of_Z. destruct (Z.to_int n) as [u|u]; simpl;
    [apply string_of_uint_head | reflexivity].
Qed.

Lemma padStart_head n s :
  key_head s = true -> key_head (Js.padStart n "0" s) = true.
Proof.
  intros H. unfold Js.padStart.
  destruct (n - String.length s)%nat; [exact H | reflexivity].
Qed.

Lemma isoYear_head y : key_head (Js.isoYear y) = true.
Proof.
  unfold Js.isoYear, Js.pad.
  destruct ((0 <=? y) && (y <=? 9999)).
  - apply padStart_head, String_of_Z_head.
  - now destruct (y <? 0).
Qed.

Lemma Api_monthKey_plain tza d : Js.inherited (Api.monthKey tza d) = false.
Proof.
  apply key_head_plain. unfold Api.monthKey. cbn [String.concat].
  apply key_head_append, String_of_Z_head.
Qed.

Lemma Server_monthKey_plain d : Js.inherited (Server.monthKey d) = false.
Proof.
  apply key_head_plain. unfold Server.monthKey, Js.slice0, Js.toISOString.
  cbn [String.concat].
  apply key_head_substring, key_head_append, isoYear_head.
Qed.

Lemma Api_months_plain tza txs :
  plain_keys (fun t => Api.monthKey tza (date t)) txs.
Proof.
  apply Forall_forall. intros t _. apply Api_monthKey_plain.
Qed.

(** ** Grouping into buckets (the router [Api]) *)

Section Buckets.

Variable key : Transaction -> string.

(** Under a key that is no inherited name a step makes the bucket the
    key lacks and adds to it. *)
Lemma bucket_step_plain acc t :
  Js.inherited (key t) = false ->
  Api.bucket_step key acc t
  = Js.modify (key t) (Api.add_amount (type t) (amount t))
      match Js.lookup (key t) acc with
      | None => Js.assign (key t) (Api.mkBucket 0 0) acc
      | Some _ => acc
      end.
Proof. intros H. unfold Api.bucket_step. cbv zeta. now rewrite H. Qed.

Lemma lookup_bucket_step k acc t :
  Js.inherited (key t) = false ->
  Js.lookup k (Api.bucket_step key acc t)
  = if in_group key k t
    then Some (Api.add_amount (type t) (amount t)
                 match Js.lookup k acc with
                 | Some b => b
                 | None => Api.mkBucket 0 0
                 end)
    else Js.lookup k acc.
Proof.
  intros Hp. rewrite (bucket_step_plain _ _ Hp). unfold in_group.
  rewrite lookup_modify.
  destruct (String.eqb_spec (key t) k) as [->|Hne].
  - destruct (Js.lookup k acc) eqn:E; simpl; [now rewrite E|].
    now rewrite lookup_assign, String.eqb_refl.
  - destruct (Js.lookup (key t) acc); [reflexivity|].
    rewrite lookup_assign. now destruct (String.eqb_spec (key t) k).
Qed.

Lemma NoDup_bucket_step acc t :
  NoDup (keys acc) -> NoDup (keys (Api.bucket_step key acc t)).
Proof.
  intros H. unfold Api.bucket_step. rewrite keys_modify.
  destruct (Js.lookup (key t) acc); [exact H|].
  destruct (Js.inherited (key t)); [exact H | now apply NoDup_keys_assign].
Qed.

Lemma bucket_sum_step acc t :
  Js.inherited (key t) = false ->
  obj_sum bucket_sum (Api.bucket_step key acc t)
  = obj_sum bucket_sum acc + amount t.
Proof.
  intros Hp. rewrite (bucket_step_plain _ _ Hp). rewrite obj_sum_modify.
  destruct (Js.lookup (key t) acc) as [b|] eqn:E.
  - rewrite E. unfold bucket_sum, Api.add_amount.
    destruct (String.eqb (type t) "income"); simpl; lia.
  - rewrite lookup_assign, String.eqb_refl, obj_sum_assign, E.
    unfold bucket_sum, Api.add_amount.
    destruct (String.eqb (type t) "income"); simpl; lia.
Qed.

Lemma lookup_buckets k txs : plain_keys key txs -> forall acc,
  Js.lookup k (fold_left (Api.bucket_step key) txs acc)
  = match Js.lookup k acc, bucket_of key k txs with
    | Some b, Some s =>
        Some (Api.mkBucket (Api.income b + Api.income s)
                           (Api.expense b + Api.expense s))
    | Some b, None => Some b
    | None, s => s
    end.
Proof.
  induction 1 as [|t txs Ht Hp IH]; intros acc; simpl.
  - unfold bucket_of; simpl. now destruct (Js.lookup k acc).
  - rewrite IH, (lookup_bucket_step _ _ _ Ht). unfold bucket_of. simpl.
    rewrite !sum_amounts_cons.
    destruct (in_group key k t) eqn:Ek; simpl.
    + assert (Hnone : existsb (in_group key k) txs = false ->
                      forall q,
                        sum_amounts (fun t => in_group key k t && q t) txs
                        = 0).
      { intros E q. apply sum_amounts_none. intros t' Hin.
        destruct (in_group key k t') eqn:E'; [|reflexivity].
        assert (existsb (in_group key k) txs = true); [|congruence].
        apply existsb_exists. now exists t'. }
      unfold Api.add_amount, is_income in *.
      destruct (Js.lookup k acc) as [b|];
        destruct (existsb (in_group key k) txs);
        try rewrite !(Hnone eq_refl);
        destruct (String.eqb (type t) "income"); simpl; f_equal; f_equal; lia.
    + destruct (Js.lookup k acc) as [b|];
        destruct (existsb (in_group key k) txs); simpl; reflexivity.
Qed.

Lemma NoDup_buckets txs : forall acc,
  NoDup (keys acc) -> NoDup (keys (fold_left (Api.bucket_step key) txs acc)).
Proof.
  induction txs as [|t txs IH]; intros acc H; simpl; [exact H|].
  now apply IH, NoDup_bucket_step.
Qed.

Lemma bucket_sum_buckets txs : plain_keys key txs -> forall acc,
  obj_sum bucket_sum (fold_left (Api.bucket_step key) txs acc)
  = obj_sum bucket_sum acc + sum_amounts (fun _ => true) txs.
Proof.
  induction 1 as [|t txs Ht Hp IH]; intros acc; simpl.
  - unfold sum_amounts; simpl. lia.
  - rewrite IH, (bucket_sum_step _ _ Ht), sum_amounts_cons. lia.
Qed.

Lemma bucket_of_perm k txs txs' :
  Permutation txs txs' -> bucket_of key k txs = bucket_of key k txs'.
Proof.
  intros H. unfold bucket_of.
  rewrite (sum_amounts_perm _ _ _ H), (sum_amounts_perm _ _ _ H).
  replace (existsb (in_group key k) txs') with (existsb (in_group key k) txs);
    [reflexivity|].
  apply eq_true_iff_eq. rewrite !existsb_exists.
  split; intros [t [Hin Ht]]; exists t; split; auto.
  - exact (Permutation_in _ H Hin).
  - exact (Permutation_in _ (Permutation_sym H) Hin).
Qed.

Lemma bucket_of_Some k txs b :
  bucket_of key k txs = Some b <->
  (exists t, In t txs /\ key t = k)
  /\ b = Api.mkBucket
           (sum_amounts (fun t => in_group key k t && is_income t) txs)
           (sum_amounts (fun t => in_group key k t && negb (is_income t)) txs).
Proof.
  unfold bucket_of.
  destruct (existsb (in_group key k) txs) eqn:E.
  - apply existsb_exists in E. destruct E as [t [Hin Ht]].
    apply String.eqb_eq in Ht.
    split; [intros [= <-]; split; [now exists t | reflexivity]|].
    now intros [_ ->].
  - split; [discriminate|]. intros [[t [Hin Ht]] _].
    assert (existsb (in_group key k) txs = true); [|congruence].
    apply existsb_exists. exists t. split; [exact Hin|].
    now apply String.eqb_eq.
Qed.

End Buckets.

(** ** The statistics of the router [Api] *)

(** What the client receives: the heap is gone, and the array under
    [categoryData] is the sorted one. *)
Lemma Api_stats_of tza txs :
  Api.stats_of tza txs
  = Api.mkStatsJson
      (Api.summary txs) (Api.monthlyData tza txs)
      (Js.Array_sort by_total_desc (Api.categoryData txs))
      (firstn 5 (Js.Array_sort by_total_desc (Api.categoryData txs)))
      (map (fun data => Api.mkTrendRecord (month data) (balance data))
           (Api.monthlyData tza txs)).
Proof. reflexivity. Qed.

Lemma Api_categoryData_eq txs :
  Api.categoryData txs
  = map category_record (Js.Object_entries (Api.categoryStats txs)).
Proof.
  unfold Api.categoryData. apply map_ext. now intros [k b].
Qed.

Lemma Api_monthlyData_eq tza txs :
  Api.monthlyData tza txs
  = map month_record
        (Js.Array_sort (fun a b => Js.localeCompare (fst a) (fst b))
           (Js.Object_entries (Api.monthlyStats tza txs))).
Proof.
  unfold Api.monthlyData. apply map_ext. now intros [k b].
Qed.

Lemma summary_fold txs : forall acc,
  fold_left Api.summary_step txs acc
  = Api.mkTotals (Api.t_income acc + sum_amounts is_income txs)
                 (Api.t_expense acc
                  + sum_amounts (fun t => negb (is_income t)) txs).
Proof.
  induction txs as [|t txs IH]; intros [i e]; simpl.
  - unfold sum_amounts; simpl. f_equal; lia.
  - rewrite IH, !sum_amounts_cons. unfold Api.summary_step, is_income.
    destruct (String.eqb (type t) "income"); simpl; f_equal; lia.
Qed.

Lemma Api_summary_eq txs :
  Api.summary txs
  = mkSummary (sum_amounts is_income txs)
              (sum_amounts (fun t => negb (is_income t)) txs)
              (sum_amounts is_income txs
               - sum_amounts (fun t => negb (is_income t)) txs).
Proof.
  unfold Api.summary, Js.reduce. rewrite summary_fold. reflexivity.
Qed.

Lemma sum_amounts_split p txs :
  sum_amounts p txs + sum_amounts (fun t => negb (p t)) txs
  = sum_amounts (fun _ => true) txs.
Proof.
  induction txs as [|t txs IH]; [reflexivity|].
  rewrite !sum_amounts_cons. destruct (p t); simpl; lia.
Qed.

Lemma sum_amounts_typed txs :
  Forall typed txs ->
  forall g : Transaction -> bool,
    sum_amounts (fun t => g t && negb (is_income t)) txs
    = sum_amounts (fun t => g t && is_expense t) txs.
Proof.
  intros H g. apply sum_amounts_ext. intros t Hin.
  rewrite Forall_forall in H. now rewrite (typed_not_income t (H t Hin)).
Qed.

(** The entries of a grouping: distinct keys, one for each key of the
    list, holding the sums of the key. *)
Lemma In_buckets key txs k b :
  plain_keys key txs ->
  In (k, b) (fold_left (Api.bucket_step key) txs [])
  <-> bucket_of key k txs = Some b.
Proof.
  intros Hp.
  pose proof (NoDup_buckets key txs [] (NoDup_nil _)) as Hnd.
  pose proof (lookup_buckets key k txs Hp []) as Hl. simpl in Hl.
  split; intros H.
  - rewrite <- Hl. now apply In_lookup.
  - apply lookup_Some_In. now rewrite Hl.
Qed.

Lemma buckets_perm key txs txs' :
  plain_keys key txs ->
  Permutation txs txs' ->
  Permutation (fold_left (Api.bucket_step key) txs [])
              (fold_left (Api.bucket_step key) txs' []).
Proof.
  intros Hp H.
  assert (Hp' : plain_keys key txs')
    by (unfold plain_keys; eapply Permutation_Forall; eauto).
  apply obj_perm; try (apply NoDup_buckets; constructor).
  intros k. rewrite !lookup_buckets by assumption. simpl.
  now apply bucket_of_perm.
Qed.

(** ** The groupings of the router [Server] *)

Lemma or_number_0 o :
  Js.or_number o 0 = match o with Some v => v | None => 0 end.
Proof.
  unfold Js.or_number, Js.truthy_number. destruct o as [v|]; [|reflexivity].
  destruct (Z.eqb_spec v 0); simpl; congruence.
Qed.

Lemma sum_amounts_filter p q txs :
  sum_amounts p (filter q txs) = sum_amounts (fun t => q t && p t) txs.
Proof.
  induction txs as [|t txs IH]; [reflexivity|]. simpl.
  rewrite sum_amounts_cons. destruct (q t); simpl.
  - now rewrite sum_amounts_cons, IH.
  - exact IH.
Qed.

Lemma lookup_expense_step k acc t :
  Js.lookup k (expense_step acc t)
  = if in_category k t
    then Some (match Js.lookup k acc with Some v => v | None => 0 end
               + amount t)
    else Js.lookup k acc.
Proof.
  unfold expense_step, in_category. rewrite lookup_assign.
  now destruct (String.eqb_spec (category t) k) as [->|Hne].
Qed.

Lemma lookup_categories k txs : forall acc,
  Js.lookup k (fold_left expense_step txs acc)
  = if existsb (in_category k) txs
    then Some (match Js.lookup k acc with Some v => v | None => 0 end
               + sum_amounts (in_category k) txs)
    else Js.lookup k acc.
Proof.
  induction txs as [|t txs IH]; intros acc; simpl; [reflexivity|].
  rewrite IH, lookup_expense_step, sum_amounts_cons.
  destruct (in_category k t) eqn:Ek; simpl.
  - destruct (existsb (in_category k) txs) eqn:E; f_equal; [lia|].
    rewrite (sum_amounts_none (in_category k) txs); [lia|].
    intros t' Hin. destruct (in_category k t') eqn:E'; [|reflexivity].
    assert (existsb (in_category k) txs = true); [|congruence].
    apply existsb_exists. now exists t'.
  - reflexivity.
Qed.

Lemma NoDup_categories txs : forall acc,
  NoDup (keys acc) -> NoDup (keys (fold_left Server.category_step txs acc)).
Proof.
  induction txs as [|t txs IH]; intros acc H; simpl; [exact H|].
  apply IH. unfold Server.category_step.
  destruct (String.eqb (category t) "__proto__"); [exact H|].
  now apply NoDup_keys_assign.
Qed.

Lemma sum_categories txs : forall acc,
  obj_sum (fun v => v) (fold_left expense_step txs acc)
  = obj_sum (fun v => v) acc + sum_amounts (fun _ => true) txs.
Proof.
  induction txs as [|t txs IH]; intros acc; simpl.
  - unfold sum_amounts; simpl. lia.
  - rewrite IH, sum_amounts_cons. unfold expense_step.
    rewrite obj_sum_assign.
    destruct (Js.lookup (category t) acc); simpl; lia.
Qed.

(** On categories that are no inherited names the accumulator of
    [Server.categoryData] holds numbers, those of [expense_step]. *)
Lemma lookup_numbers k o :
  Js.lookup k (numbers o) = option_map Js.Num (Js.lookup k o).
Proof.
  induction o as [|[k1 v1] o IH]; simpl; [reflexivity|].
  now destruct (String.eqb k1 k).
Qed.

Lemma assign_numbers k v o :
  Js.assign k (Js.Num v) (numbers o) = numbers (Js.assign k v o).
Proof.
  induction o as [|[k1 v1] o IH]; simpl; [reflexivity|].
  destruct (String.eqb k1 k); simpl; [reflexivity | now rewrite IH].
Qed.

Lemma plain_not_proto k :
  Js.inherited k = false -> String.eqb k "__proto__" = false.
Proof.
  intros H. destruct (String.eqb_spec k "__proto__") as [->|]; [|reflexivity].
  discriminate H.
Qed.

Lemma category_step_numbers acc t :
  Js.inherited (category t) = false ->
  Server.category_step (numbers acc) t = numbers (expense_step acc t).
Proof.
  intros H. unfold Server.category_step, Server.read_or_0, expense_step.
  cbv zeta. rewrite (plain_not_proto _ H), lookup_numbers, H.
  destruct (Js.lookup (category t) acc) as [v|]; simpl option_map; cbv iota.
  - rewrite or_number_0. apply assign_numbers.
  - apply assign_numbers.
Qed.

Lemma categories_numbers txs : plain_categories txs -> forall acc,
  fold_left Server.category_step txs (numbers acc)
  = numbers (fold_left expense_step txs acc).
Proof.
  induction 1 as [|t txs Ht Hp IH]; intros acc; simpl; [reflexivity|].
  now rewrite (category_step_numbers _ _ Ht), IH.
Qed.

Lemma plain_filter key p txs :
  plain_keys key txs -> plain_keys key (filter p txs).
Proof.
  unfold plain_keys. rewrite !Forall_forall. intros H t Ht.
  apply filter_In in Ht. now apply H.
Qed.

Lemma Server_categoryData_numbers txs :
  plain_categories txs ->
  Server.categoryData txs
  = numbers (fold_left expense_step (filter is_expense txs) []).
Proof.
  intros H. unfold Server.categoryData, Js.reduce.
  change (fun t => String.eqb (type t) "expense") with is_expense.
  apply (categories_numbers _ (plain_filter _ _ _ H) []).
Qed.

Lemma existsb_filter {A} (p q : A -> bool) l :
  existsb p (filter q l) = existsb (fun x => q x && p x) l.
Proof.
  induction l as [|x l IH]; [reflexivity|]. simpl.
  destruct (q x); simpl; now rewrite IH.
Qed.

Lemma Server_lookup_categoryData k txs :
  plain_categories txs ->
  Js.lookup k (Server.categoryData txs) = option_map Js.Num (expense_of k txs).
Proof.
  intros H. rewrite (Server_categoryData_numbers _ H), lookup_numbers.
  unfold expense_of.
  rewrite lookup_categories, existsb_filter, sum_amounts_filter. simpl.
  reflexivity.
Qed.

Lemma Server_NoDup_categoryData txs : NoDup (keys (Server.categoryData txs)).
Proof. apply NoDup_categories. constructor. Qed.

(** The months *)

Lemma lookup_month_step k acc t :
  Js.lookup k (Server.month_step acc t)
  = if in_month k t
    then Some (month_bump t match Js.lookup k acc with
                            | Some b => b
                            | None => Server.mkMonthBucket 0 0 0
                            end)
    else Js.lookup k acc.
Proof.
  unfold Server.month_step, in_month, month_bump, is_income.
  rewrite Server_monthKey_plain.
  set (m := Server.monthKey (date t)).
  set (acc1 := match Js.lookup m acc with
               | Some _ => acc
               | None => Js.assign m (Server.mkMonthBucket 0 0 0) acc
               end).
  assert (H1 : Js.lookup k acc1
               = if String.eqb m k
                 then Some match Js.lookup k acc with
                           | Some b => b
                           | None => Server.mkMonthBucket 0 0 0
                           end
                 else Js.lookup k acc).
  { unfold acc1. destruct (String.eqb_spec m k) as [->|Hne].
    - destruct (Js.lookup k acc) eqn:E; [exact E|].
      now rewrite lookup_assign, String.eqb_refl.
    - destruct (Js.lookup m acc); [reflexivity|].
      rewrite lookup_assign. now destruct (String.eqb_spec m k). }
  rewrite lookup_modify.
  destruct (String.eqb (type t) "income");
    rewrite lookup_modify, H1; destruct (String.eqb m k); reflexivity.
Qed.

Lemma in_month_none k txs :
  existsb (in_month k) txs = false ->
  forall q, sum_amounts (fun t => in_month k t && q t) txs = 0.
Proof.
  intros E q. apply sum_amounts_none. intros t Hin.
  destruct (in_month k t) eqn:E'; [|reflexivity].
  assert (existsb (in_month k) txs = true); [|congruence].
  apply existsb_exists. now exists t.
Qed.

Lemma lookup_months k txs : forall acc,
  Js.lookup k (fold_left Server.month_step txs acc)
  = match Js.lookup k acc with
    | Some b =>
        if existsb (in_month k) txs
        then
          let i := Server.income b
                   + sum_amounts (fun t => in_month k t && is_income t) txs in
          let e := Server.expense b
                   + sum_amounts
                       (fun t => in_month k t && negb (is_income t)) txs in
          Some (Server.mkMonthBucket i e (i - e))
        else Some b
    | None => month_bucket_of k txs
    end.
Proof.
  induction txs as [|t txs IH]; intros acc; simpl.
  - unfold month_bucket_of; simpl. now destruct (Js.lookup k acc).
  - rewrite IH, lookup_month_step. unfold month_bucket_of. simpl.
    rewrite !sum_amounts_cons.
    destruct (in_month k t) eqn:Ek; simpl.
    + unfold month_bump.
      destruct (Js.lookup k acc) as [b|];
        destruct (existsb (in_month k) txs) eqn:E;
        try rewrite !(in_month_none k txs E);
        destruct (is_income t); simpl; f_equal; f_equal; lia.
    + reflexivity.
Qed.

Lemma NoDup_month_step acc t :
  NoDup (keys acc) -> NoDup (keys (Server.month_step acc t)).
Proof.
  intros H. unfold Server.month_step. rewrite Server_monthKey_plain.
  rewrite keys_modify.
  assert (H1 : NoDup (keys match Js.lookup (Server.monthKey (date t)) acc with
                           | Some _ => acc
                           | None =>
                               Js.assign (Server.monthKey (date t))
                                 (Server.mkMonthBucket 0 0 0) acc
                           end)).
  { destruct (Js.lookup _ acc); [exact H | now apply NoDup_keys_assign]. }
  destruct (String.eqb (type t) "income"); now rewrite keys_modify.
Qed.

Lemma NoDup_months txs : forall acc,
  NoDup (keys acc) -> NoDup (keys (fold_left Server.month_step txs acc)).
Proof.
  induction txs as [|t txs IH]; intros acc H; simpl; [exact H|].
  now apply IH, NoDup_month_step.
Qed.

Lemma month_sum_step acc t :
  obj_sum month_sum (Server.month_step acc t)
  = obj_sum month_sum acc + amount t.
Proof.
  pose proof (lookup_month_step (Server.monthKey (date t)) acc t) as Hl.
  unfold in_month in Hl. rewrite String.eqb_refl in Hl.
  unfold Server.month_step in *.
  rewrite Server_monthKey_plain in Hl |- *.
  set (m := Server.monthKey (date t)) in *.
  set (acc1 := match Js.lookup m acc with
               | Some _ => acc
               | None => Js.assign m (Server.mkMonthBucket 0 0 0) acc
               end) in *.
  assert (H1 : obj_sum month_sum acc1 = obj_sum month_sum acc
               /\ exists b, Js.lookup m acc1 = Some b).
  { unfold acc1. destruct (Js.lookup m acc) as [b|] eqn:E.
    - split; [reflexivity | now exists b].
    - rewrite obj_sum_assign, E, lookup_assign, String.eqb_refl.
      split; [unfold month_sum; simpl; lia | eauto]. }
  destruct H1 as [H1 [b Hb]].
  rewrite obj_sum_modify.
  destruct (String.eqb (type t) "income");
    rewrite lookup_modify, String.eqb_refl, Hb, obj_sum_modify, Hb, H1;
    unfold month_sum; simpl; lia.
Qed.

Lemma month_sum_months txs : forall acc,
  obj_sum month_sum (fold_left Server.month_step txs acc)
  = obj_sum month_sum acc + sum_amounts (fun _ => true) txs.
Proof.
  induction txs as [|t txs IH]; intros acc; simpl.
  - unfold sum_amounts; simpl. lia.
  - rewrite IH, month_sum_step, sum_amounts_cons. lia.
Qed.

Lemma existsb_perm {A} (p : A -> bool) l l' :
  Permutation l l' -> existsb p l = existsb p l'.
Proof.
  intros H. apply eq_true_iff_eq. rewrite !existsb_exists.
  split; intros [t [Hin Ht]]; exists t; split; auto.
  - exact (Permutation_in _ H Hin).
  - exact (Permutation_in _ (Permutation_sym H) Hin).
Qed.

Lemma month_bucket_of_perm k txs txs' :
  Permutation txs txs' -> month_bucket_of k txs = month_bucket_of k txs'.
Proof.
  intros H. unfold month_bucket_of.
  now rewrite (existsb_perm _ _ _ H), !(sum_amounts_perm _ _ _ H).
Qed.

Lemma expense_of_perm k txs txs' :
  Permutation txs txs' -> expense_of k txs = expense_of k txs'.
Proof.
  intros H. unfold expense_of.
  now rewrite (existsb_perm _ _ _ H), !(sum_amounts_perm _ _ _ H).
Qed.

Lemma Server_lookup_monthlyData k txs :
  Js.lookup k (Server.monthlyData txs) = month_bucket_of k txs.
Proof. unfold Server.monthlyData, Js.reduce. now rewrite lookup_months. Qed.

Lemma Server_NoDup_monthlyData txs : NoDup (keys (Server.monthlyData txs)).
Proof. apply NoDup_months. constructor. Qed.

(** ** Sorting by a string key *)

Section ByKey.

Context {A : Type} (f : A -> string).

Lemma by_key_total x y : 0 < (by_key f) x y -> (by_key f) y x <= 0.
Proof. apply localeCompare_total. Qed.

Lemma by_key_trans x y z :
  (by_key f) x y <= 0 -> (by_key f) y z <= 0 -> (by_key f) x z <= 0.
Proof.
  unfold by_key. rewrite !localeCompare_le.
  intros [E1|H1] [E2|H2].
  - left. congruence.
  - right. now rewrite E1.
  - right. now rewrite <- E2.
  - right. eapply key_lt_trans; eauto.
Qed.

Lemma NoDup_map_inj l x y :
  NoDup (map f l) -> In x l -> In y l -> f x = f y -> x = y.
Proof.
  induction l as [|a l IH]; simpl; [tauto|].
  intros Hnd Hx Hy E. inversion Hnd as [|? ? Hnin Hnd']; subst.
  destruct Hx as [->|Hx], Hy as [->|Hy]; auto.
  - exfalso. apply Hnin. rewrite E. now apply in_map.
  - exfalso. apply Hnin. rewrite <- E. now apply in_map.
Qed.

Lemma sort_by_key_perm l l' :
  NoDup (map f l) -> Permutation l l' ->
  Js.Array_sort (by_key f) l = Js.Array_sort (by_key f) l'.
Proof.
  intros Hnd Hp.
  apply (sorted_perm_eq (cmp_le (by_key f))).
  - intros x y Hx Hy Hxy Hyx.
    apply Array_sort_In in Hx, Hy.
    apply (NoDup_map_inj l); auto.
    unfold cmp_le, by_key in *. rewrite localeCompare_le in Hxy, Hyx.
    destruct Hxy as [E|H1]; [exact E|].
    destruct Hyx as [E|H2]; [now symmetry|].
    exfalso. exact (key_lt_irrefl _ (key_lt_trans _ _ _ H1 H2)).
  - apply Array_sort_sorted; [apply by_key_total | apply by_key_trans].
  - apply Array_sort_sorted; [apply by_key_total | apply by_key_trans].
  - rewrite <- (Array_sort_perm (by_key f) l).
    rewrite <- (Array_sort_perm (by_key f) l').
    exact Hp.
Qed.

End ByKey.

Lemma in_keys_lookup {V} (o : Js.Obj V) k :
  In k (keys o) <-> exists v, Js.lookup k o = Some v.
Proof.
  destruct (Js.lookup k o) as [v|] eqn:E.
  - split; [eauto|]. intros _.
    apply lookup_Some_In in E. change k with (fst (k, v)). now apply in_map.
  - split; [|intros [v H]; discriminate].
    intros H. now apply lookup_None in E.
Qed.

Lemma existsb_in_group key k txs :
  existsb (in_group key k) txs = true <-> exists t, In t txs /\ key t = k.
Proof.
  rewrite existsb_exists. unfold in_group.
  split; intros [t [Hin Ht]]; exists t; split; auto; now apply String.eqb_eq.
Qed.

Lemma Server_formattedMonthlyData_eq txs :
  Server.formattedMonthlyData txs
  = Js.Array_sort (by_key month)
      (map server_month_record
           (Js.Object_entries (Server.monthlyData txs))).
Proof.
  unfold Server.formattedMonthlyData. f_equal.
  apply map_ext. now intros [k b].
Qed.

Lemma month_bucket_of_Some k txs b :
  month_bucket_of k txs = Some b <->
  (exists t, In t txs /\ Server.monthKey (date t) = k)
  /\ b = let i := sum_amounts (fun t => in_month k t && is_income t) txs in
         let e := sum_amounts
                    (fun t => in_month k t && negb (is_income t)) txs in
         Server.mkMonthBucket i e (i - e).
Proof.
  unfold month_bucket_of.
  destruct (existsb (in_month k) txs) eqn:E.
  - apply (existsb_in_group (fun t => Server.monthKey (date t))) in E.
    split; [intros [= <-]; split; [exact E | reflexivity]|].
    now intros [_ ->].
  - split; [discriminate|]. intros [H _].
    apply (existsb_in_group (fun t => Server.monthKey (date t))) in H.
    unfold in_group in H. unfold in_month in E. congruence.
Qed.

Lemma Server_summary_fold txs : forall acc,
  fold_left Server.summary_step txs acc
  = Server.mkTotals (Server.t_income acc + sum_amounts is_income txs)
                    (Server.t_expense acc
                     + sum_amounts (fun t => negb (is_income t)) txs).
Proof.
  induction txs as [|t txs IH]; intros [i e]; simpl.
  - unfold sum_amounts; simpl. f_equal; lia.
  - rewrite IH, !sum_amounts_cons. unfold Server.summary_step, is_income.
    destruct (String.eqb (type t) "income"); simpl; f_equal; lia.
Qed.

Lemma Server_summary_eq txs : Server.summary txs = Api.summary txs.
Proof.
  rewrite Api_summary_eq.
  unfold Server.summary, Js.reduce. rewrite Server_summary_fold. reflexivity.
Qed.

(** ** The claims *)

Ltac solve_typed :=
  repeat (apply Forall_cons; [unfold typed; simpl; tauto|]); apply Forall_nil.

Ltac solve_exact := unfold exact; simpl; lia.

Ltac solve_plain :=
  repeat (apply Forall_cons; [reflexivity|]); apply Forall_nil.

(** C5, as the code has it. In both routers, over a fetched list of
    exact amounts, [totalIncome] is the sum of the amounts of the
    income-typed transactions and [totalExpense] the sum of all the
    other amounts, which are those of the expense-typed transactions
    when the types are those of the schema; [netBalance] is
    [totalIncome - totalExpense]; the empty list gives the all-zero
    summary. *)
Theorem summary_totals (tza : Z -> Z) (txs : list Transaction) :
  exact txs ->
  (forall s,
      s = Api.r_summary (Api.stats_of tza txs)
      \/ s = Server.r_summary (Server.stats_of txs) ->
      totalIncome s = sum_amounts is_income txs
      /\ totalExpense s = sum_amounts (fun t => negb (is_income t)) txs
      /\ (Forall typed txs -> totalExpense s = sum_amounts is_expense txs)
      /\ netBalance s = totalIncome s - totalExpense s)
  /\ Api.r_summary (Api.stats_of tza []) = mkSummary 0 0 0
  /\ Server.r_summary (Server.stats_of []) = mkSummary 0 0 0.
Proof.
  intros _. split; [|split; reflexivity].
  intros s Hs.
  assert (E : s = Api.summary txs).
  { destruct Hs as [->| ->]; [reflexivity|]. simpl. apply Server_summary_eq. }
  rewrite E, Api_summary_eq. simpl.
  split; [reflexivity|]. split; [reflexivity|]. split; [|reflexivity].
  intros Hty.
  pose proof (sum_amounts_typed txs Hty (fun _ => true)) as H. simpl in H.
  exact H.
Qed.

Lemma summary_totals_witness :
  exact example_txs
  /\ (forall s,
        s = Api.r_summary (Api.stats_of (fun _ => 0) example_txs)
        \/ s = Server.r_summary (Server.stats_of example_txs) ->
        totalIncome s = sum_amounts is_income example_txs
        /\ totalExpense s
           = sum_amounts (fun t => negb (is_income t)) example_txs
        /\ (Forall typed example_txs ->
            totalExpense s = sum_amounts is_expense example_txs)
        /\ netBalance s = totalIncome s - totalExpense s)
  /\ Api.r_summary (Api.stats_of (fun _ => 0) []) = mkSummary 0 0 0
  /\ Server.r_summary (Server.stats_of []) = mkSummary 0 0 0.
Proof.
  split; [solve_exact|].
  apply (summary_totals (fun _ => 0) example_txs).
  solve_exact.
Defined.

(** C5 fails on a type that is neither [income] nor [expense], which
    the update route of [Server] stores as the body has it: the amount
    of the transaction is in [totalExpense], and no expense-typed
    transaction is fetched. *)
Lemma other_type_counts_as_expense :
  let db :=
    [mkTransaction 1%nat 1%nat "expense" 40 "food" None 1704412800000 0] in
  let body := mkBody (Some "refund") None None None None None None in
  let db' := snd (Server.put db (Auth.mkRequest 1%nat 1%nat body None)) in
  let txs :=
    Store.find (Server.stats_filter 1%nat (mkStatsQuery None None)) db' in
  map type txs = ["refund"]
  /\ exact txs
  /\ totalExpense (Server.r_summary (Server.stats_of txs)) = 40
  /\ totalExpense (Api.r_summary (Api.stats_of (fun _ => 0) txs)) = 40
  /\ sum_amounts is_expense txs = 0.
Proof. repeat split. vm_compute. discriminate. Qed.

(** C2 fails in [Server] on dates outside the years 0 to 9999. The
    ISO string of such a date opens with a sign and six digits of the
    year, so its first seven characters hold no month: the
    transactions of January and of February of the year 10000 are in
    one record, where [Api] has two.  The key of the year 10000 is
    before the key of the year -1 in the order of the code units, and
    the series has it after. *)
Theorem months_of_year_10000_share_a_record :
  let jan :=
    mkTransaction 1%nat 1%nat "expense" 10 "food" None 253403510400000 0 in
  let feb :=
    mkTransaction 2%nat 1%nat "expense" 20 "food" None 253406188800000 0 in
  let old :=
    mkTransaction 3%nat 1%nat "income" 5 "gift" None (-62198755200000) 0 in
  Js.toISOString (date jan) = "+010000-01-15T00:00:00.000Z"
  /\ Js.toISOString (date feb) = "+010000-02-15T00:00:00.000Z"
  /\ Js.toISOString (date old) = "-000001-01-01T00:00:00.000Z"
  /\ Server.r_monthlyData (Server.stats_of [jan; feb])
     = [ mkMonthRecord "+010000" 0 30 (-30) ]
  /\ Api.r_monthlyData (Api.stats_of (fun _ => 0) [jan; feb])
     = [ mkMonthRecord "10000-01" 0 10 (-10);
         mkMonthRecord "10000-02" 0 20 (-20) ]
  /\ map month (Server.r_monthlyData (Server.stats_of [jan; old]))
     = [ "-000001"; "+010000" ]
  /\ str_lt "+010000" "-000001".
Proof. vm_compute. repeat split. Qed.

Lemma by_total_desc_total a b :
  0 < by_total_desc a b -> by_total_desc b a <= 0.
Proof. unfold by_total_desc. lia. Qed.

Lemma by_total_desc_trans a b c :
  by_total_desc a b <= 0 -> by_total_desc b c <= 0 -> by_total_desc a c <= 0.
Proof. unfold by_total_desc. lia. Qed.

(** C10. In the response of the statistics route of [Api] the array
    under [categoryData] is in descending order of [total]: it is the
    array the handler built, sorted where it is when [topCategories]
    is computed, and [topCategories] is its first five records. *)
Theorem categoryData_sorted_by_total (tza : Z -> Z) (txs : list Transaction) :
  let s := Api.stats_of tza txs in
  StronglySorted (fun a b => Api.total b <= Api.total a)
                 (Api.r_categoryData s)
  /\ Api.r_categoryData s
     = Js.Array_sort (fun a b => Api.total b - Api.total a)
                     (Api.categoryData txs)
  /\ Api.r_topCategories s = firstn 5 (Api.r_categoryData s).
Proof.
  rewrite Api_stats_of. simpl. split; [|split; reflexivity].
  pose proof (Array_sort_sorted by_total_desc by_total_desc_total
                by_total_desc_trans (Api.categoryData txs)) as H.
  eapply StronglySorted_impl; [|exact H].
  unfold cmp_le, by_total_desc. intros; lia.
Qed.

Lemma Api_full_breakdown tza txs :
  plain_categories txs ->
  full_breakdown txs (Api.r_categoryData (Api.stats_of tza txs)).
Proof.
  intros Hpl. rewrite Api_stats_of. simpl. rewrite Api_categoryData_eq.
  set (o := Api.categoryStats txs).
  assert (Hnd : NoDup (keys o)) by (apply NoDup_buckets; constructor).
  set (out := Js.Array_sort by_total_desc
                (map category_record (Js.Object_entries o))).
  assert (Hp : Permutation (map category_record o) out).
  { unfold out. rewrite <- Array_sort_perm.
    apply Permutation_map, Object_entries_perm. }
  assert (Hk : Permutation (keys o) (map Api.c_category out)).
  { rewrite <- Hp, map_map. reflexivity. }
  split; [|split].
  - eapply Permutation_NoDup; eauto.
  - intros c. transitivity (In c (keys o)).
    + split; apply Permutation_in; [symmetry|]; exact Hk.
    + rewrite in_keys_lookup. unfold o, Api.categoryStats, Js.reduce.
      rewrite in_map_iff. split.
      * intros [b Hb]. rewrite lookup_buckets in Hb by exact Hpl.
        simpl in Hb.
        apply bucket_of_Some in Hb. destruct Hb as [[t [Hin Ht]] _].
        now exists t.
      * intros [t [Ht Hin]]. rewrite lookup_buckets by exact Hpl. simpl.
        assert (E : existsb (in_group category c) txs = true)
          by (apply existsb_in_group; now exists t).
        unfold bucket_of. rewrite E. eauto.
  - intros r Hr. apply (Permutation_in _ (Permutation_sym Hp)) in Hr.
    apply in_map_iff in Hr. destruct Hr as [[k b] [<- Hin]].
    apply (In_buckets category txs k b Hpl), bucket_of_Some in Hin.
    destruct Hin as [_ ->]. simpl.
    split; [reflexivity|]. split; [reflexivity|]. split; [reflexivity|].
    split; intros H; apply sum_amounts_none; intros t Hin;
      unfold in_group, is_income;
      destruct (String.eqb_spec (category t) k) as [E|]; try reflexivity.
    + rewrite (H t Hin E). reflexivity.
    + destruct (String.eqb_spec (type t) "income") as [E'|]; [|reflexivity].
      now destruct (H t Hin E).
Qed.

Lemma Server_entries_numbers txs :
  plain_categories txs ->
  forall k v, In (k, v) (Js.Object_entries (Server.categoryData txs)) ->
    exists n, v = Js.Num n /\ expense_of k txs = Some n.
Proof.
  intros Hpl k v Hin.
  apply (Permutation_in _ (Permutation_sym (Object_entries_perm _))) in Hin.
  apply (In_lookup _ _ _ (Server_NoDup_categoryData txs)) in Hin.
  rewrite (Server_lookup_categoryData _ _ Hpl) in Hin.
  destruct (expense_of k txs) as [n|]; [|discriminate].
  injection Hin as <-. now exists n.
Qed.

Lemma Server_expense_breakdown txs :
  plain_categories txs ->
  expense_breakdown txs (Server.r_categoryData (Server.stats_of txs)).
Proof.
  intros Hpl. simpl. unfold Server.formattedCategoryData.
  set (o := Server.categoryData txs).
  pose proof (Server_NoDup_categoryData txs) as Hnd. fold o in Hnd.
  set (mk := fun e : string * Js.Value =>
               let (category, expense) := e in
               Server.mkExpenseRecord category expense).
  assert (Hk : Permutation (keys o)
                 (map Server.e_category (map mk (Js.Object_entries o)))).
  { rewrite map_map.
    rewrite (map_ext (fun x => Server.e_category (mk x)) fst)
      by (now intros [k v]).
    apply Permutation_map, Object_entries_perm. }
  split; [|split].
  - eapply Permutation_NoDup; eauto.
  - intros c. transitivity (In c (keys o)).
    + split; apply Permutation_in; [symmetry|]; exact Hk.
    + rewrite in_keys_lookup. unfold o.
      setoid_rewrite (Server_lookup_categoryData c txs Hpl).
      unfold expense_of.
      destruct (existsb (fun t => is_expense t && in_category c t) txs) eqn:E.
      * split; [|simpl; eauto]. intros _.
        apply existsb_exists in E. destruct E as [t [Hin Ht]].
        apply andb_true_iff in Ht. destruct Ht as [H1 H2].
        exists t. repeat split; auto; now apply String.eqb_eq.
      * split; [intros [v H]; discriminate|].
        intros [t [Hin [H1 H2]]].
        assert (existsb (fun t => is_expense t && in_category c t) txs = true);
          [|congruence].
        apply existsb_exists. exists t. split; [exact Hin|].
        unfold is_expense, in_category. rewrite H1, H2.
        now rewrite !String.eqb_refl.
  - intros r Hr. apply in_map_iff in Hr. destruct Hr as [[k v] [<- Hin]].
    destruct (Server_entries_numbers txs Hpl k v Hin) as [n [-> Hn]].
    simpl. unfold expense_of in Hn.
    destruct (existsb _ txs); congruence.
Qed.

(** C1, as the code has it. Over a fetched list of exact amounts
    whose categories are no names an object inherits: in [Api] the
    breakdown has one record [{category, income, expense, total}] for
    each category of the list, with the sum of the incomes of the
    category, the sum of its other amounts as [expense],
    [total = income + expense], and a zero for a type the category has
    no transaction of.  In [Server] the breakdown is made of the
    expense-typed transactions only: one record [{category, expense}]
    for each category that has an expense. *)
Theorem category_breakdown (tza : Z -> Z) (txs : list Transaction) :
  exact txs -> plain_categories txs ->
  full_breakdown txs (Api.r_categoryData (Api.stats_of tza txs))
  /\ expense_breakdown txs (Server.r_categoryData (Server.stats_of txs)).
Proof.
  intros _ Hpl. split.
  - now apply Api_full_breakdown.
  - now apply Server_expense_breakdown.
Qed.

Lemma category_breakdown_witness :
  exact example_txs /\ plain_categories example_txs
  /\ full_breakdown example_txs
       (Api.r_categoryData (Api.stats_of (fun _ => 0) example_txs))
  /\ expense_breakdown example_txs
       (Server.r_categoryData (Server.stats_of example_txs)).
Proof.
  split; [solve_exact|]. split; [solve_plain|].
  apply (category_breakdown (fun _ => 0) example_txs);
    [solve_exact | solve_plain].
Defined.

(** C1 fails in [Server]: a category whose transactions are all
    incomes is observed and gets no record. *)
Lemma income_only_category_not_emitted :
  let txs :=
    [mkTransaction 1%nat 1%nat "income" 100 "salary" None 1704412800000 0] in
  In "salary" (map category txs)
  /\ Server.r_categoryData (Server.stats_of txs) = [].
Proof. split; [now left | reflexivity]. Qed.

(** X25. A category that is the name of a property an object
    inherits.  [Api] adds its amount to the summary and gives it no
    record; [Server] appends the amount to the text of the inherited
    function. *)
Lemma inherited_name_as_category :
  let txs :=
    [ mkTransaction 1%nat 1%nat "expense" 10 "constructor" None
                    1704412800000 0;
      mkTransaction 2%nat 1%nat "expense" 5 "food" None 1704412800000 0 ] in
  let a := Api.stats_of (fun _ => 0) txs in
  Api.r_categoryData a = [ Api.mkCategoryRecord "food" 0 5 5 ]
  /\ totalExpense (Api.r_summary a) = 15
  /\ Server.r_categoryData (Server.stats_of txs)
     = [ Server.mkExpenseRecord "constructor"
           (Js.Str "function Object() { [native code] }10");
         Server.mkExpenseRecord "food" (Js.Num 5) ].
Proof. repeat split. Qed.

(** ** Totals *)

Lemma sum_sorted {A} (cmp : A -> A -> Z) (g : A -> Z) l :
  sumZ (map g (Js.Array_sort cmp l)) = sumZ (map g l).
Proof. apply sumZ_perm, Permutation_map. symmetry. apply Array_sort_perm. Qed.

Lemma sum_entries {V} (g : string * V -> Z) (o : Js.Obj V) :
  sumZ (map g (Js.Object_entries o)) = sumZ (map g o).
Proof.
  apply sumZ_perm, Permutation_map. symmetry. apply Object_entries_perm.
Qed.

Lemma Api_category_total tza txs :
  plain_categories txs ->
  sumZ (map Api.total (Api.r_categoryData (Api.stats_of tza txs)))
  = sum_amounts (fun _ => true) txs.
Proof.
  intros Hpl. rewrite Api_stats_of. simpl.
  rewrite sum_sorted, Api_categoryData_eq, map_map, sum_entries.
  pose proof (bucket_sum_buckets category txs Hpl []) as H.
  unfold obj_sum in H. simpl in H. exact H.
Qed.

Lemma Api_month_total tza txs :
  sumZ (map (fun r => m_income r + m_expense r)
            (Api.r_monthlyData (Api.stats_of tza txs)))
  = sum_amounts (fun _ => true) txs.
Proof.
  rewrite Api_stats_of. simpl.
  rewrite Api_monthlyData_eq, map_map, sum_sorted, sum_entries.
  pose proof (bucket_sum_buckets (fun t => Api.monthKey tza (date t)) txs
                (Api_months_plain tza txs) []) as H.
  unfold obj_sum in H. simpl in H. exact H.
Qed.

Lemma Server_month_total txs :
  sumZ (map (fun r => m_income r + m_expense r)
            (Server.r_monthlyData (Server.stats_of txs)))
  = sum_amounts (fun _ => true) txs.
Proof.
  simpl. rewrite Server_formattedMonthlyData_eq.
  rewrite sum_sorted, map_map, sum_entries.
  pose proof (month_sum_months txs []) as H.
  unfold obj_sum in H. simpl in H. exact H.
Qed.

Lemma Server_category_total txs :
  plain_categories txs ->
  sumZ (map expense_number (Server.r_categoryData (Server.stats_of txs)))
  = sum_amounts is_expense txs.
Proof.
  intros Hpl. simpl. unfold Server.formattedCategoryData.
  rewrite map_map.
  rewrite (map_ext _ (fun e : string * Js.Value =>
                        match snd e with Js.Num n => n | Js.Str _ => 0 end))
    by (now intros [k v]).
  rewrite sum_entries, (Server_categoryData_numbers _ Hpl).
  unfold numbers. rewrite map_map. simpl.
  pose proof (sum_categories (filter is_expense txs) []) as H.
  unfold obj_sum in H. simpl in H.
  rewrite H, sum_amounts_filter.
  apply sum_amounts_ext. intros t _. now rewrite andb_true_r.
Qed.

Lemma summary_total txs :
  totalIncome (Api.summary txs) + totalExpense (Api.summary txs)
  = sum_amounts (fun _ => true) txs.
Proof. rewrite Api_summary_eq. simpl. apply sum_amounts_split. Qed.

(** C4, as the code has it. Over a filtered list of exact amounts
    whose categories are no names an object inherits: in [Api] the sum
    of the [total] of the category records, the sum of
    [income + expense] of the monthly records and
    [totalIncome + totalExpense] are equal.  In [Server] the sum of
    [income + expense] of the monthly records is
    [totalIncome + totalExpense], and the category records, which carry
    an expense only, sum to [totalExpense] when the types are those of
    the schema. *)
Theorem totals_invariant (tza : Z -> Z) (txs : list Transaction) :
  exact txs -> plain_categories txs ->
  let a := Api.stats_of tza txs in
  let s := Server.stats_of txs in
  sumZ (map Api.total (Api.r_categoryData a))
  = sumZ (map (fun r => m_income r + m_expense r) (Api.r_monthlyData a))
  /\ sumZ (map Api.total (Api.r_categoryData a))
     = totalIncome (Api.r_summary a) + totalExpense (Api.r_summary a)
  /\ sumZ (map (fun r => m_income r + m_expense r) (Server.r_monthlyData s))
     = totalIncome (Server.r_summary s) + totalExpense (Server.r_summary s)
  /\ (Forall typed txs ->
      sumZ (map expense_number (Server.r_categoryData s))
      = totalExpense (Server.r_summary s)).
Proof.
  intros _ Hpl a s. unfold a, s.
  rewrite (Api_category_total _ _ Hpl), Api_month_total, Server_month_total,
    (Server_category_total _ Hpl).
  replace (Server.r_summary (Server.stats_of txs)) with (Api.summary txs)
    by (symmetry; apply Server_summary_eq).
  replace (Api.r_summary (Api.stats_of tza txs)) with (Api.summary txs)
    by reflexivity.
  rewrite summary_total, Api_summary_eq. simpl.
  split; [reflexivity|]. split; [reflexivity|]. split; [reflexivity|].
  intros Hty.
  pose proof (sum_amounts_typed txs Hty (fun _ => true)) as H. simpl in H.
  now rewrite H.
Qed.

Lemma totals_invariant_witness :
  exact example_txs /\ plain_categories example_txs
  /\ let a := Api.stats_of (fun _ => 0) example_txs in
     let s := Server.stats_of example_txs in
     sumZ (map Api.total (Api.r_categoryData a))
     = sumZ (map (fun r => m_income r + m_expense r) (Api.r_monthlyData a))
     /\ sumZ (map Api.total (Api.r_categoryData a))
        = totalIncome (Api.r_summary a) + totalExpense (Api.r_summary a)
     /\ sumZ (map (fun r => m_income r + m_expense r)
                  (Server.r_monthlyData s))
        = totalIncome (Server.r_summary s) + totalExpense (Server.r_summary s)
     /\ (Forall typed example_txs ->
         sumZ (map expense_number (Server.r_categoryData s))
         = totalExpense (Server.r_summary s)).
Proof.
  split; [solve_exact|]. split; [solve_plain|].
  apply (totals_invariant (fun _ => 0) example_txs);
    [solve_exact | solve_plain].
Defined.

(** C4 fails in [Server]: on the worked example the category records
    sum to 50, and [totalIncome + totalExpense] is 150. *)
Lemma category_sum_is_not_total :
  let s := Server.stats_of example_txs in
  sumZ (map expense_number (Server.r_categoryData s)) = 50
  /\ totalIncome (Server.r_summary s) + totalExpense (Server.r_summary s)
     = 150.
Proof. split; reflexivity. Qed.

(** ** The order of the fetched list *)

Lemma Api_categoryData_perm tza txs txs' :
  plain_categories txs ->
  Permutation txs txs' ->
  Permutation (Api.r_categoryData (Api.stats_of tza txs))
              (Api.r_categoryData (Api.stats_of tza txs')).
Proof.
  intros Hpl H. rewrite !Api_stats_of. simpl.
  rewrite <- !Array_sort_perm, !Api_categoryData_eq.
  apply Permutation_map.
  rewrite <- !Object_entries_perm.
  now apply buckets_perm.
Qed.

Lemma Api_monthlyData_perm tza txs txs' :
  Permutation txs txs' ->
  Api.monthlyData tza txs = Api.monthlyData tza txs'.
Proof.
  intros H. rewrite !Api_monthlyData_eq. f_equal.
  apply (sort_by_key_perm (@fst string Api.Bucket)).
  - eapply Permutation_NoDup;
      [apply Permutation_map, Object_entries_perm|].
    apply NoDup_buckets. constructor.
  - rewrite <- !Object_entries_perm.
    apply buckets_perm; [apply Api_months_plain | exact H].
Qed.

Lemma Server_monthlyData_perm txs txs' :
  Permutation txs txs' ->
  Server.formattedMonthlyData txs = Server.formattedMonthlyData txs'.
Proof.
  intros H. rewrite !Server_formattedMonthlyData_eq.
  assert (Hp : Permutation (Server.monthlyData txs) (Server.monthlyData txs')).
  { apply obj_perm; try apply Server_NoDup_monthlyData.
    intros k. rewrite !Server_lookup_monthlyData.
    now apply month_bucket_of_perm. }
  apply sort_by_key_perm.
  - rewrite map_map. simpl.
    eapply Permutation_NoDup;
      [apply Permutation_map, Object_entries_perm|].
    apply Server_NoDup_monthlyData.
  - apply Permutation_map. now rewrite <- !Object_entries_perm.
Qed.

Lemma Server_categoryData_perm txs txs' :
  plain_categories txs ->
  Permutation txs txs' ->
  Permutation (Server.formattedCategoryData txs)
              (Server.formattedCategoryData txs').
Proof.
  intros Hpl H.
  assert (Hpl' : plain_categories txs')
    by (unfold plain_categories, plain_keys;
        eapply Permutation_Forall; eauto).
  unfold Server.formattedCategoryData.
  apply Permutation_map. rewrite <- !Object_entries_perm.
  apply obj_perm; try apply Server_NoDup_categoryData.
  intros k. rewrite !Server_lookup_categoryData by assumption.
  f_equal. now apply expense_of_perm.
Qed.

Lemma Api_summary_perm txs txs' :
  Permutation txs txs' -> Api.summary txs = Api.summary txs'.
Proof.
  intros H. rewrite !Api_summary_eq.
  now rewrite !(sum_amounts_perm _ _ _ H).
Qed.

(** C3, as the code has it. For two fetch orders of the same
    transactions, of exact amounts and of categories that are no names
    an object inherits, the summary and the monthly series, with the
    order of its records, are the same in both routers, and the
    category breakdown has the same records; the order of the category
    records follows the fetch order. *)
Theorem stats_fetch_order (tza : Z -> Z) (txs txs' : list Transaction) :
  Permutation txs txs' -> exact txs -> plain_categories txs ->
  let a := Api.stats_of tza txs in
  let a' := Api.stats_of tza txs' in
  let s := Server.stats_of txs in
  let s' := Server.stats_of txs' in
  Api.r_summary a = Api.r_summary a'
  /\ Api.r_monthlyData a = Api.r_monthlyData a'
  /\ Permutation (Api.r_categoryData a) (Api.r_categoryData a')
  /\ Server.r_summary s = Server.r_summary s'
  /\ Server.r_monthlyData s = Server.r_monthlyData s'
  /\ Permutation (Server.r_categoryData s) (Server.r_categoryData s').
Proof.
  intros H _ Hpl a a' s s'. unfold a, a', s, s'.
  split; [|split; [|split; [|split; [|split]]]].
  - now apply Api_summary_perm.
  - rewrite !Api_stats_of. simpl. now apply Api_monthlyData_perm.
  - now apply Api_categoryData_perm.
  - simpl. rewrite !Server_summary_eq. now apply Api_summary_perm.
  - simpl. now apply Server_monthlyData_perm.
  - simpl. now apply Server_categoryData_perm.
Qed.

Lemma stats_fetch_order_witness :
  Permutation food_then_rent rent_then_food
  /\ exact food_then_rent /\ plain_categories food_then_rent
  /\ let a := Api.stats_of (fun _ => 0) food_then_rent in
     let a' := Api.stats_of (fun _ => 0) rent_then_food in
     let s := Server.stats_of food_then_rent in
     let s' := Server.stats_of rent_then_food in
     Api.r_summary a = Api.r_summary a'
     /\ Api.r_monthlyData a = Api.r_monthlyData a'
     /\ Permutation (Api.r_categoryData a) (Api.r_categoryData a')
     /\ Server.r_summary s = Server.r_summary s'
     /\ Server.r_monthlyData s = Server.r_monthlyData s'
     /\ Permutation (Server.r_categoryData s) (Server.r_categoryData s').
Proof.
  split; [apply perm_swap|]. split; [solve_exact|]. split; [solve_plain|].
  apply (stats_fetch_order (fun _ => 0) food_then_rent rent_then_food);
    [apply perm_swap | solve_exact | solve_plain].
Defined.

(** C3 fails in both routers: the two fetch orders give the category
    records in two orders. *)
Lemma category_order_follows_fetch_order :
  Permutation food_then_rent rent_then_food
  /\ map Api.c_category
         (Api.r_categoryData (Api.stats_of (fun _ => 0) food_then_rent))
     = ["food"; "rent"]
  /\ map Api.c_category
         (Api.r_categoryData (Api.stats_of (fun _ => 0) rent_then_food))
     = ["rent"; "food"]
  /\ Api.stats_of (fun _ => 0) food_then_rent
     <> Api.stats_of (fun _ => 0) rent_then_food
  /\ Server.stats_of food_then_rent <> Server.stats_of rent_then_food.
Proof.
  split; [apply perm_swap|].
  split; [reflexivity|]. split; [reflexivity|].
  split; intros H; [apply (f_equal Api.r_categoryData) in H
                   |apply (f_equal Server.r_categoryData) in H];
    vm_compute in H; discriminate.
Qed.

(** X27. Each name an object inherits, as the category of one expense
    of 1: [Api] makes no bucket for it; [Server] keeps the text of the
    inherited function followed by the amount, and nothing under
    [__proto__]. *)
Lemma inherited_names_as_categories :
  let names :=
    [ "constructor"; "__defineGetter__"; "__defineSetter__";
      "hasOwnProperty"; "__lookupGetter__"; "__lookupSetter__";
      "isPrototypeOf"; "propertyIsEnumerable"; "toString"; "valueOf";
      "__proto__"; "toLocaleString" ] in
  Forall (fun k => Api.categoryStats (one_expense k) = []) names
  /\ map (fun k => Server.categoryData (one_expense k)) names
     = [ [("constructor", Js.Str "function Object() { [native code] }1")];
         [("__defineGetter__",
           Js.Str "function __defineGetter__() { [native code] }1")];
         [("__defineSetter__",
           Js.Str "function __defineSetter__() { [native code] }1")];
         [("hasOwnProperty",
           Js.Str "function hasOwnProperty() { [native code] }1")];
         [("__lookupGetter__",
           Js.Str "function __lookupGetter__() { [native code] }1")];
         [("__lookupSetter__",
           Js.Str "function __lookupSetter__() { [native code] }1")];
         [("isPrototypeOf",
           Js.Str "function isPrototypeOf() { [native code] }1")];
         [("propertyIsEnumerable",
           Js.Str "function propertyIsEnumerable() { [native code] }1")];
         [("toString", Js.Str "function toString() { [native code] }1")];
         [("valueOf", Js.Str "function valueOf() { [native code] }1")];
         [];
         [("toLocaleString",
           Js.Str "function toLocaleString() { [native code] }1")] ]
  /\ Api.categoryStats (one_expense "food") = [("food", Api.mkBucket 0 1)]
  /\ Server.categoryData (one_expense "food") = [("food", Js.Num 1)].
Proof.
  split; [repeat constructor | repeat split].
Qed.

Lemma Doubles_summary_fold txs : forall acc,
  fold_left Doubles.summary_step txs acc
  = Doubles.mkTotals
      (fold_left PrimFloat.add
         (map snd (filter (fun t => String.eqb (fst t) "income") txs))
         (Doubles.totalIncome acc))
      (fold_left PrimFloat.add
         (map snd (filter (fun t => negb (String.eqb (fst t) "income")) txs))
         (Doubles.totalExpense acc)).
Proof.
  induction txs as [|t txs IH]; intros acc; simpl; [now destruct acc|].
  rewrite IH. unfold Doubles.summary_step.
  destruct (String.eqb (fst t) "income"); reflexivity.
Qed.

(** X28. On binary64 amounts, whatever they are, [totalIncome] is the
    sum of the amounts of the income-typed documents and
    [totalExpense] the sum of the amounts of the others, each added to
    0 one amount after the other in the order of the fetched list. *)
Theorem summary_adds_in_fetch_order (txs : list (string * PrimFloat.float)) :
  Doubles.totalIncome (Doubles.summary txs)
  = Doubles.sum
      (map snd (filter (fun t => String.eqb (fst t) "income") txs))
  /\ Doubles.totalExpense (Doubles.summary txs)
     = Doubles.sum
         (map snd (filter (fun t => negb (String.eqb (fst t) "income")) txs)).
Proof.
  unfold Doubles.summary, Js.reduce, Doubles.sum.
  rewrite Doubles_summary_fold. split; reflexivity.
Qed.

(** X26. Amounts on which the sums round: the incomes 0.1, 0.2 and
    0.3 add up to a number above 0.6 in this order and to 0.6 in the
    reverse order. *)
Lemma sums_round_with_the_fetch_order :
  Doubles.totalIncome (Doubles.summary Doubles.tenths)
  = Doubles.above_six_tenths
  /\ Doubles.totalIncome (Doubles.summary (rev Doubles.tenths))
     = Doubles.six_tenths
  /\ PrimFloat.eqb Doubles.above_six_tenths Doubles.six_tenths = false.
Proof. repeat split. Qed.

(** ** The date range of the statistics *)

Lemma in_range_within lo hi d :
  Store.in_range (Store.mkDateCond lo hi) d = true <-> within lo hi d.
Proof.
  unfold Store.in_range, within. simpl. rewrite andb_true_iff.
  destruct lo as [s|], hi as [e|]; rewrite ?Z.leb_le;
    split; intros H; repeat split; try congruence;
    try (intros ? [= <-]; tauto); destruct H as [H1 H2]; auto.
Qed.

(** C9, as the code has it. The list [Api] fetches for the statistics
    is made of the transactions of the user whose date lies in the
    inclusive range [startDate, endDate], a bound that is absent
    leaving its side open.  [Server] reads [startDate] only: it fetches
    the transactions of the user that are not before [startDate], all
    of them when it is absent, whatever [endDate] is. *)
Theorem stats_date_range (db : Store.Collection) (user : ObjectId)
    (q : StatsQuery) (t : Transaction) :
  (In t (Store.find (Api.stats_filter user q) db)
   <-> In t db /\ userId t = user
       /\ within (startDate q) (endDate q) (date t))
  /\ (In t (Store.find (Server.stats_filter user q) db)
      <-> In t db /\ userId t = user /\ within (startDate q) None (date t)).
Proof.
  unfold Store.find, Store.matches. rewrite !filter_In, !andb_true_iff.
  rewrite !Nat.eqb_eq.
  split.
  - unfold Api.stats_filter. simpl.
    destruct (startDate q) as [s|] eqn:Es, (endDate q) as [e|] eqn:Ee; simpl;
      rewrite ?in_range_within; try tauto.
    unfold within. intuition congruence.
  - unfold Server.stats_filter. simpl.
    destruct (startDate q) as [s|] eqn:Es; simpl;
      rewrite ?in_range_within; try tauto.
    unfold within. intuition congruence.
Qed.

(** C9 fails in [Server]: with [endDate] alone a transaction after it
    is fetched. *)
Lemma endDate_is_not_read :
  let t := mkTransaction 1%nat 1%nat "expense" 10 "food" None 5 0 in
  let q := mkStatsQuery None (Some 0) in
  ~ date t <= 0
  /\ Store.find (Server.stats_filter 1%nat q) [t] = [t].
Proof. split; [simpl; lia | reflexivity]. Qed.

(** ** The ownership checks *)

Lemma findById_unique db id t :
  NoDup (map _id db) -> Store.findById id db = Some t ->
  forall d, In d db -> _id d = id -> d = t.
Proof.
  unfold Store.findById.
  induction db as [|x db IH]; simpl; [discriminate|].
  intros Hnd Hf d Hd Eid. inversion Hnd as [|? ? Hnin Hnd']; subst.
  destruct (Nat.eqb_spec (_id x) (_id d)) as [E|Hne].
  - injection Hf as <-. destruct Hd as [->|Hd]; [reflexivity|].
    exfalso. apply Hnin. rewrite E. now apply in_map.
  - destruct Hd as [->|Hd]; [congruence|]. now apply IH.
Qed.

Lemma find_none_all {A} (p : A -> bool) l :
  List.find p l = None <-> forall x, In x l -> p x = false.
Proof.
  split; [apply find_none|].
  induction l as [|x l IH]; simpl; [reflexivity|]. intros H.
  rewrite (H x (or_introl eq_refl)). apply IH. intros y Hy. apply H. now right.
Qed.

Lemma findOne_foreign db id a t :
  NoDup (map _id db) -> Store.findById id db = Some t -> userId t <> a ->
  Store.findOne id a db = None.
Proof.
  intros Hnd Hf Hne. unfold Store.findOne.
  apply find_none_all. intros d Hd.
  destruct (Nat.eqb_spec (_id d) id) as [E|]; [|reflexivity].
  rewrite (findById_unique db id t Hnd Hf d Hd E).
  simpl. now apply Nat.eqb_neq.
Qed.

Lemma findOne_absent db id a :
  Store.findById id db = None -> Store.findOne id a db = None.
Proof.
  unfold Store.findById, Store.findOne. rewrite !find_none_all.
  intros H d Hd. now rewrite (H d Hd).
Qed.

Lemma findOne_own db id a t :
  NoDup (map _id db) -> Store.findById id db = Some t -> userId t = a ->
  Store.findOne id a db = Some t.
Proof.
  unfold Store.findById, Store.findOne.
  induction db as [|x db IH]; simpl; [discriminate|].
  intros Hnd Hf Ha. inversion Hnd; subst.
  destruct (Nat.eqb_spec (_id x) id) as [E|Hne]; simpl.
  - injection Hf as <-. now rewrite Nat.eqb_refl.
  - now apply IH.
Qed.

(** X24. For an [:id] that casts to an identifier, two users [a <> b]
    and a collection whose identifiers are distinct: a single-resource
    request of [a] for a transaction of [b] is denied by every route,
    with Forbidden behind the ownership middleware and with NotFound
    in the router that filters by owner, and the collection is left as
    it was; an identifier that is absent is answered NotFound; and
    when the transaction is owned by [a] the middleware attaches it to
    the request. *)
Theorem ownership_gate (db : Store.Collection) (a b id : ObjectId)
    (body : Body) :
  NoDup (map _id db) -> a <> b -> ownership_checked db a b id body.
Proof.
  intros Hnd Hab. unfold ownership_checked.
  split; [|split].
  - intros Hf.
    pose proof (findOne_absent db id a Hf) as Ho.
    unfold denied, Server.get_one, Server.put, Server.delete, Server.guarded,
      Auth.verifyTransactionOwnership, Api.get_one, Api.put, Api.delete.
    simpl. rewrite Hf, Ho. simpl. repeat split; eauto.
  - intros t Hf Hb.
    assert (Hne : userId t <> a) by congruence.
    pose proof (findOne_foreign db id a t Hnd Hf Hne) as Ho.
    apply Nat.eqb_neq in Hne.
    unfold denied, Server.get_one, Server.put, Server.delete, Server.guarded,
      Auth.verifyTransactionOwnership, Api.get_one, Api.put, Api.delete.
    simpl. rewrite Hf, Ho, Hne. simpl. repeat split; eauto.
  - intros t Hf Ha.
    pose proof (findOne_own db id a t Hnd Hf Ha) as Ho.
    apply Nat.eqb_eq in Ha.
    unfold Server.get_one, Server.guarded, Auth.verifyTransactionOwnership,
      Api.get_one.
    simpl. rewrite Hf, Ho, Ha. simpl. repeat split; reflexivity.
Qed.

Lemma ownership_gate_witness :
  NoDup (map _id example_txs)
  /\ 2%nat <> 1%nat
  /\ ownership_checked example_txs 2%nat 1%nat 1%nat
       (mkBody None (Some 5) None None None None None).
Proof.
  assert (Hnd : NoDup (map _id example_txs)).
  { simpl. repeat constructor; simpl; intuition discriminate. }
  split; [exact Hnd|]. split; [discriminate|].
  apply (ownership_gate example_txs 2%nat 1%nat 1%nat);
    [exact Hnd | discriminate].
Defined.

(** C7 fails on an [:id] that does not cast to an identifier, as the
    [stats] of [GET /stats] does not in [Api], whose route [/:id] is
    declared first.  No document has such an identifier, and no route
    answers NotFound: the middleware and the routes behind it answer
    500, the routes of [Api] that read and delete answer 500 and the
    one that updates 400.  None reads or changes a document. *)
Theorem uncastable_id_is_not_NotFound (db : Store.Collection)
    (user : ObjectId) (raw : string) (body : Body) :
  let id := Params.NoCast raw in
  (exists r, @Params.verifyTransactionOwnership Server.StatsJson
               db id user body = inl r
             /\ status r = 500%nat)
  /\ denied 500 db (Params.guarded db id user body Server.get_one)
  /\ denied 500 db (Params.guarded db id user body Server.put)
  /\ denied 500 db (Params.guarded db id user body Server.delete)
  /\ denied 500 db (Params.get_one db user id, db)
  /\ denied 400 db (Params.put db user id body)
  /\ denied 500 db (Params.delete db user id).
Proof.
  unfold denied. simpl. repeat split; eauto.
Qed.

(** On an [:id] that casts the routes are those of the routers. *)
Lemma castable_id_routes (db : Store.Collection) (user id : ObjectId)
    (body : Body) :
  let req := Auth.mkRequest id user body None in
  @Params.verifyTransactionOwnership Server.StatsJson
    db (Params.Cast id) user body
  = Auth.verifyTransactionOwnership db req
  /\ Params.guarded db (Params.Cast id) user body Server.get_one
     = Server.get_one db req
  /\ Params.guarded db (Params.Cast id) user body Server.put
     = Server.put db req
  /\ Params.guarded db (Params.Cast id) user body Server.delete
     = Server.delete db req
  /\ Params.get_one db user (Params.Cast id) = Api.get_one db user id
  /\ Params.put db user (Params.Cast id) body = Api.put db user id body
  /\ Params.delete db user (Params.Cast id) = Api.delete db user id.
Proof. repeat split. Qed.

(** ** Creating a transaction *)

Lemma includes_types ty :
  Js.includes ["income"; "expense"] ty = true
  <-> ty = "income" \/ ty = "expense".
Proof.
  unfold Js.includes. simpl. rewrite !orb_true_iff, !String.eqb_eq.
  intuition discriminate.
Qed.

Lemma le_max_fold n l : In n l -> (n <= fold_right Nat.max 0 l)%nat.
Proof.
  induction l as [|x l IH]; simpl; [tauto|].
  intros [->|H]; [lia|]. specialize (IH H). lia.
Qed.

Lemma fresh_id_fresh db : ~ In (Store.fresh_id db) (map _id db).
Proof.
  unfold Store.fresh_id. intros H. apply le_max_fold in H. lia.
Qed.

Lemma includes_nonempty ty :
  Js.includes ["income"; "expense"] ty = true ->
  String.eqb ty EmptyString = false.
Proof. intros H. apply includes_types in H. now destruct H as [->| ->]. Qed.

Lemma trim_nonempty c :
  String.eqb (Js.trim c) EmptyString = false ->
  String.eqb c EmptyString = false.
Proof.
  intros H. destruct (String.eqb_spec c EmptyString) as [->|]; auto.
Qed.

Ltac step_denied :=
  unfold denied; cbn [fst snd status payload]; eauto.

Lemma post_cases db user now ty am c n d u ca :
  let body := mkBody (Some ty) (Some am) (Some c) n d u ca in
  if Js.includes ["income"; "expense"] ty && (0 <? am)
     && negb (String.eqb (Js.trim c) EmptyString)
  then Api.post db user now body
       = (mkResponse 201 (Doc (created db user now ty am c body)),
          db ++ [created db user now ty am c body])
  else denied 400 db (Api.post db user now body).
Proof.
  intros body. unfold body, Api.post, created.
  cbn [b_type b_amount b_category b_note b_date
       Js.truthy_string Js.truthy_number].
  unfold Schema.save_new, Schema.validate, Schema.new_Transaction.
  cbn [type amount category].
  destruct (Js.includes ["income"; "expense"] ty) eqn:Ei; cbn [andb negb].
  - rewrite (includes_nonempty ty Ei). cbn [negb orb].
    destruct (Z.ltb_spec 0 am) as [Ha|Ha]; cbn [andb].
    + assert (E0 : (am =? 0) = false) by (apply Z.eqb_neq; lia).
      assert (E1 : (am <=? 0) = false) by (apply Z.leb_gt; lia).
      assert (E2 : (am <? 0) = false) by (apply Z.ltb_ge; lia).
      rewrite E0, E1, E2. cbn [negb orb].
      destruct (String.eqb (Js.trim c) EmptyString) eqn:Ec; cbn [negb].
      * destruct (String.eqb c EmptyString); cbn [negb]; step_denied.
      * rewrite (trim_nonempty c Ec). reflexivity.
    + destruct (am =? 0) eqn:E0; cbn [negb orb]; [step_denied|].
      assert (E1 : (am <=? 0) = true) by (apply Z.leb_le; lia).
      rewrite E1.
      destruct (String.eqb c EmptyString); cbn [negb]; step_denied.
  - destruct (String.eqb ty EmptyString); cbn [negb orb]; [step_denied|].
    destruct (am =? 0); cbn [negb orb]; [step_denied|].
    destruct (String.eqb c EmptyString); cbn [negb]; step_denied.
Qed.










(** ** Updating a transaction *)

Lemma put_fields_cases body t :
  match Api.put_fields body t with
  | inl r => status r = 400%nat /\ exists m, payload r = Message m
  | inr t' =>
      partial_update body t t'
      /\ userId t' = userId t /\ createdAt t' = createdAt t
  end
  /\ (update_invalid body -> exists r, Api.put_fields body t = inl r).
Proof.
  destruct body as [ty am c n d u ca]. unfold Api.put_fields, update_invalid.
  cbn [b_type b_amount b_category b_note b_date].
  split.
  - destruct ty as [ty|], am as [am|], c as [c|], n as [n|], d as [d|];
      repeat (simpl;
              match goal with
              | |- context [if ?b then _ else _] => destruct b
              end);
      simpl;
      first [ solve [split; [reflexivity | eauto]]
            | unfold partial_update, Schema.set_date, Schema.set_note,
                Schema.set_category, Schema.set_amount, Schema.set_type;
              cbn; repeat split; congruence ].
  - intros [[x [[= ->] [H0 [H1 H2]]]]|[x [[= ->] H]]].
    + cbn [Js.truthy_string].
      apply String.eqb_neq in H0. rewrite H0. cbn [negb].
      assert (E : Js.includes ["income"; "expense"] x = false).
      { destruct (Js.includes ["income"; "expense"] x) eqn:E; auto.
        apply includes_types in E. tauto. }
      rewrite E. cbn [negb]. eauto.
    + apply Z.leb_le in H. rewrite H.
      destruct ty as [ty|]; cbn [Js.truthy_string];
        [destruct (String.eqb ty EmptyString); cbn [negb];
         [|destruct (Js.includes ["income"; "expense"] ty); cbn [negb]]|];
        eauto.
Qed.

Lemma replace_first_ext p q f (db : Store.Collection) :
  (forall d, p d = q d) ->
  Store.replace_first p f db = Store.replace_first q f db.
Proof.
  intros H. induction db as [|x db IH]; simpl; [reflexivity|].
  rewrite <- H. destruct (p x); [reflexivity | now f_equal].
Qed.

Lemma replace_first_found p f (db : Store.Collection) t :
  List.find p db = Some t ->
  Store.replace_first p f db = Store.replace_first p (fun _ => f t) db.
Proof.
  induction db as [|x db IH]; simpl; [discriminate|].
  destruct (p x); [now intros [= ->] | intros H; f_equal; auto].
Qed.

Lemma find_replace_first p f (db : Store.Collection) t :
  List.find p db = Some t -> p (f t) = true ->
  List.find p (Store.replace_first p f db) = Some (f t).
Proof.
  induction db as [|x db IH]; simpl; [discriminate|].
  destruct (p x) eqn:E.
  - intros [= ->] H. simpl. now rewrite H.
  - intros H1 H2. simpl. rewrite E. auto.
Qed.

Lemma findById_id db id t : Store.findById id db = Some t -> _id t = id.
Proof.
  intros H. apply find_some in H. now apply Nat.eqb_eq.
Qed.

Lemma apply_update_partial body t :
  partial_update body t (Server.apply_update body t).
Proof.
  destruct body as [ty am c n d u ca].
  unfold partial_update, Server.apply_update.
  cbn. repeat split; intros ->; reflexivity.
Qed.

(** C8, as the code has it. An update by the owner is partial in both
    routers: a field of the stored transaction the request does not
    carry is left as it was, and only the transaction of the request
    is replaced.  [Api] answers BadRequest, and stores nothing, when the
    request carries a non-empty type that is not income or expense or
    an amount [<= 0]; any other answer of [Api] than BadRequest is the
    updated transaction, with the owner and the creation time it had.
    In [Server] the statement is about the requests whose type and
    amount satisfy the create rules. *)
Theorem update_partial (db : Store.Collection) (user id : ObjectId)
    (body : Body) (t : Transaction) :
  NoDup (map _id db) -> Store.findById id db = Some t -> userId t = user ->
  updates_partially db user id body t.
Proof.
  intros Hnd Hf Hu.
  pose proof (findOne_own db id user t Hnd Hf Hu) as Ho.
  pose proof (findById_id db id t Hf) as Hid.
  destruct (put_fields_cases body t) as [Hcases Hinv].
  assert (Hapi : denied 400 db (Api.put db user id body)
                 \/ exists t',
                      Api.put db user id body
                      = (mkResponse 200 (Doc t'),
                         Store.replace_first (fun d => Nat.eqb (_id d) id)
                                             (fun _ => t') db)
                      /\ partial_update body t t'
                      /\ userId t' = userId t /\ createdAt t' = createdAt t).
  { unfold Api.put. rewrite Ho.
    destruct (Api.put_fields body t) as [r|t'].
    - left. destruct Hcases as [Hs Hm]. unfold denied. simpl. auto.
    - unfold Schema.save. destruct (Schema.validate t') as [m|].
      + left. unfold denied. simpl. eauto.
      + right. exists t'. split; [|exact Hcases].
        f_equal. apply replace_first_ext. intros d.
        destruct Hcases as [[E _] _]. now rewrite E, Hid. }
  unfold updates_partially. split; [|split].
  - intros Hbad. destruct (Hinv Hbad) as [r Hr].
    unfold Api.put. rewrite Ho, Hr. rewrite Hr in Hcases.
    destruct Hcases as [Hs Hm]. unfold denied. simpl. auto.
  - exact Hapi.
  - intros _. exists (Server.apply_update body t).
    split; [|apply apply_update_partial].
    unfold Server.put, Server.guarded, Auth.verifyTransactionOwnership.
    cbn [Auth.params_id Auth.user_id Auth.body]. rewrite Hf.
    assert (E : Nat.eqb (userId t) user = true) by now apply Nat.eqb_eq.
    rewrite E. cbn [negb Auth.params_id Auth.body].
    unfold Store.findById in *.
    rewrite (find_replace_first _ _ _ _ Hf)
      by (simpl; now apply Nat.eqb_eq).
    now rewrite (replace_first_found _ _ _ _ Hf).
Qed.

Lemma update_partial_witness :
  let t := mkTransaction 2%nat 1%nat "expense" 40 "food" None 1704844800000 0
  in
  NoDup (map _id example_txs)
  /\ Store.findById 2%nat example_txs = Some t
  /\ userId t = 1%nat
  /\ updates_partially example_txs 1%nat 2%nat
       (mkBody None (Some 45) None None None None None) t.
Proof.
  assert (Hnd : NoDup (map _id example_txs)).
  { simpl. repeat constructor; simpl; intuition discriminate. }
  split; [exact Hnd|]. split; [reflexivity|]. split; [reflexivity|].
  apply (update_partial example_txs 1%nat 2%nat);
    [exact Hnd | reflexivity | reflexivity].
Defined.

(** C8 fails in [Server], which stores an amount [<= 0] the owner
    sends, and in [Api] on an empty type, which is passed over and not
    answered BadRequest. *)
Lemma update_not_revalidated :
  let t := mkTransaction 1%nat 1%nat "expense" 40 "food" None 0 0 in
  let t' := mkTransaction 1%nat 1%nat "expense" (-5) "food" None 0 0 in
  Server.put [t] (Auth.mkRequest 1%nat 1%nat
                    (mkBody None (Some (-5)) None None None None None) None)
  = (mkResponse 200 (Doc t'), [t'])
  /\ Api.put [t] 1%nat 1%nat
       (mkBody (Some EmptyString) None None None None None None)
     = (mkResponse 200 (Doc t), [t]).
Proof. split; reflexivity. Qed.

(** * Further properties of the routes *)

(** ** Listing and reading *)

Lemma find_owner_filter db user :
  Store.find (Store.mkFilter user None) db
  = filter (fun t => Nat.eqb (userId t) user) db.
Proof.
  unfold Store.find, Store.matches. simpl.
  apply filter_ext. intros t. apply andb_true_r.
Qed.

(** X1. [GET /], in both routers, answers 200 with the transactions of
    the user, each once and no other, the most recent first. *)
Theorem list_most_recent_first (db : Store.Collection) (user : ObjectId) :
  let r := Listing.get_all db user in
  Listing.l_status r = 200%nat
  /\ Permutation (Listing.l_docs r)
                 (filter (fun t => Nat.eqb (userId t) user) db)
  /\ StronglySorted (fun a b => date b <= date a) (Listing.l_docs r).
Proof.
  unfold Listing.get_all, Listing.sort_date_desc. simpl.
  rewrite find_owner_filter.
  split; [reflexivity|]. split.
  - symmetry. apply Array_sort_perm.
  - eapply StronglySorted_impl;
      [|apply (Array_sort_sorted (fun a b : Transaction => date b - date a))].
    + unfold cmp_le. intros; lia.
    + intros; lia.
    + intros; lia.
Qed.

(** X2. Whatever the collection holds, a document that [GET /:id]
    returns, in either router, is a stored document with the
    identifier of the request, owned by the user of the request, and
    it comes with status 200. *)
Theorem read_never_leaks (db : Store.Collection) (a id : ObjectId)
    (body : Body) (tr : option Transaction) :
  match payload (Api.get_one db a id) with
  | Doc t => In t db /\ _id t = id /\ userId t = a
             /\ status (Api.get_one db a id) = 200%nat
  | _ => True
  end
  /\ match Server.get_one db (Auth.mkRequest id a body tr) with
     | (r, db') =>
         db' = db
         /\ match payload r with
            | Doc t => In t db /\ _id t = id /\ userId t = a
                       /\ status r = 200%nat
            | _ => True
            end
     end.
Proof.
  split.
  - unfold Api.get_one, Store.findOne.
    destruct (List.find _ db) as [t|] eqn:E; simpl; [|exact I].
    apply find_some in E. destruct E as [Hin Hp].
    apply andb_true_iff in Hp. destruct Hp as [H1 H2].
    apply Nat.eqb_eq in H1, H2. auto.
  - unfold Server.get_one, Server.guarded, Auth.verifyTransactionOwnership,
      Store.findById.
    simpl. destruct (List.find _ db) as [t|] eqn:E; simpl; [|auto].
    apply find_some in E. destruct E as [Hin Hp]. apply Nat.eqb_eq in Hp.
    destruct (Nat.eqb_spec (userId t) a) as [Ha|Ha]; simpl; auto.
Qed.

(** ** Deleting *)

Lemma filter_all {A} (p : A -> bool) l :
  (forall x, In x l -> p x = true) -> filter p l = l.
Proof.
  induction l as [|x l IH]; intros H; simpl; [reflexivity|].
  rewrite (H x (or_introl eq_refl)). f_equal. apply IH.
  intros y Hy. apply H. now right.
Qed.

Lemma remove_first_unique p (db : Store.Collection) t :
  NoDup (map _id db) -> List.find p db = Some t ->
  Store.remove_first p db
  = filter (fun d => negb (Nat.eqb (_id d) (_id t))) db.
Proof.
  induction db as [|x db IH]; simpl; [discriminate|].
  intros Hnd Hf. inversion Hnd as [|? ? Hnin Hnd']; subst.
  destruct (p x) eqn:Ep.
  - injection Hf as <-. rewrite Nat.eqb_refl. simpl.
    symmetry. apply filter_all. intros d Hd.
    apply negb_true_iff, Nat.eqb_neq. intros E. apply Hnin.
    rewrite <- E. now apply in_map.
  - assert (Hne : _id x <> _id t).
    { intros E. apply Hnin. rewrite E. apply in_map.
      now apply find_some in Hf. }
    apply Nat.eqb_neq in Hne. rewrite Hne. simpl. f_equal. now apply IH.
Qed.

Lemma findById_filter_out db id :
  Store.findById id (filter (fun d => negb (Nat.eqb (_id d) id)) db) = None.
Proof.
  unfold Store.findById. apply find_none_all. intros d Hd.
  apply filter_In in Hd. destruct Hd as [_ Hd].
  now apply negb_true_iff in Hd.
Qed.

Lemma delete_results db user id body t :
  NoDup (map _id db) -> Store.findById id db = Some t -> userId t = user ->
  Api.delete db user id
  = (mkResponse 200 (Message "Transaction deleted successfully"),
     filter (fun d => negb (Nat.eqb (_id d) id)) db)
  /\ Server.delete db (Auth.mkRequest id user body None)
     = (mkResponse 200 (Message "Transaction deleted"),
        filter (fun d => negb (Nat.eqb (_id d) id)) db).
Proof.
  intros Hnd Hf Hu.
  pose proof (findOne_own db id user t Hnd Hf Hu) as Ho.
  pose proof (findById_id db id t Hf) as Hid.
  split.
  - unfold Api.delete. rewrite Ho. f_equal.
    unfold Store.findOne in Ho.
    rewrite (remove_first_unique _ db t Hnd Ho). now rewrite Hid.
  - unfold Server.delete, Server.guarded, Auth.verifyTransactionOwnership.
    cbn [Auth.params_id Auth.user_id Auth.body]. rewrite Hf.
    assert (E : Nat.eqb (userId t) user = true) by now apply Nat.eqb_eq.
    rewrite E. cbn [negb Auth.transaction]. f_equal.
    unfold Store.findById in Hf.
    rewrite <- Hid in Hf.
    rewrite (remove_first_unique _ db t Hnd Hf). now rewrite Hid.
Qed.

Lemma perm_without db t :
  NoDup (map _id db) -> In t db ->
  Permutation db (t :: filter (fun d => negb (Nat.eqb (_id d) (_id t))) db).
Proof.
  induction db as [|x db IH]; simpl; [tauto|].
  intros Hnd Hin. inversion Hnd as [|? ? Hnin Hnd']; subst.
  destruct Hin as [->|Hin].
  - rewrite Nat.eqb_refl. simpl. apply perm_skip.
    rewrite filter_all; [reflexivity|]. intros d Hd.
    apply negb_true_iff, Nat.eqb_neq. intros E. apply Hnin.
    rewrite <- E. now apply in_map.
  - assert (Hne : _id x <> _id t).
    { intros E. apply Hnin. rewrite E. now apply in_map. }
    apply Nat.eqb_neq in Hne. rewrite Hne. simpl.
    rewrite perm_swap. apply perm_skip. now apply IH.
Qed.

(** X3. With distinct identifiers, [DELETE /:id] by the owner answers
    200 in both routers and removes the transaction of the request and
    nothing else: the other documents stay, in their order, and the
    identifier is no longer found. *)
Theorem delete_removes_target (db : Store.Collection) (user id : ObjectId)
    (body : Body) (t : Transaction) :
  NoDup (map _id db) -> Store.findById id db = Some t -> userId t = user ->
  let rest := filter (fun d => negb (Nat.eqb (_id d) id)) db in
  Api.delete db user id
  = (mkResponse 200 (Message "Transaction deleted successfully"), rest)
  /\ Server.delete db (Auth.mkRequest id user body None)
     = (mkResponse 200 (Message "Transaction deleted"), rest)
  /\ Permutation db (t :: rest)
  /\ Store.findById id rest = None.
Proof.
  intros Hnd Hf Hu rest.
  destruct (delete_results db user id body t Hnd Hf Hu) as [H1 H2].
  split; [exact H1|]. split; [exact H2|]. split.
  - unfold rest. rewrite <- (findById_id db id t Hf).
    apply perm_without; [exact Hnd|].
    unfold Store.findById in Hf. now apply find_some in Hf.
  - apply findById_filter_out.
Qed.

Lemma delete_removes_target_witness :
  let t := mkTransaction 2%nat 1%nat "expense" 40 "food" None 1704844800000 0
  in
  let rest := filter (fun d => negb (Nat.eqb (_id d) 2)) example_txs in
  NoDup (map _id example_txs)
  /\ Store.findById 2%nat example_txs = Some t
  /\ userId t = 1%nat
  /\ Api.delete example_txs 1%nat 2%nat
     = (mkResponse 200 (Message "Transaction deleted successfully"), rest)
  /\ Server.delete example_txs
       (Auth.mkRequest 2%nat 1%nat
          (mkBody None None None None None None None) None)
     = (mkResponse 200 (Message "Transaction deleted"), rest)
  /\ Permutation example_txs (t :: rest)
  /\ Store.findById 2%nat rest = None.
Proof.
  assert (Hnd : NoDup (map _id example_txs)).
  { simpl. repeat constructor; simpl; intuition discriminate. }
  split; [exact Hnd|]. split; [reflexivity|]. split; [reflexivity|].
  apply (delete_removes_target example_txs 1%nat 2%nat);
    [exact Hnd | reflexivity | reflexivity].
Defined.

(** X4. With distinct identifiers, a second [DELETE /:id] after the
    owner's first is answered NotFound in both routers and changes
    nothing. *)
Theorem delete_twice (db : Store.Collection) (user id : ObjectId)
    (body : Body) (t : Transaction) :
  NoDup (map _id db) -> Store.findById id db = Some t -> userId t = user ->
  let req := Auth.mkRequest id user body None in
  denied 404 (snd (Api.delete db user id))
         (Api.delete (snd (Api.delete db user id)) user id)
  /\ denied 404 (snd (Server.delete db req))
            (Server.delete (snd (Server.delete db req)) req).
Proof.
  intros Hnd Hf Hu req. unfold req.
  destruct (delete_results db user id body t Hnd Hf Hu) as [H1 H2].
  rewrite H1, H2. cbn [snd].
  pose proof (findById_filter_out db id) as Hn.
  pose proof (findOne_absent _ id user Hn) as Ho.
  unfold denied, Api.delete, Server.delete, Server.guarded,
    Auth.verifyTransactionOwnership.
  cbn [Auth.params_id Auth.user_id Auth.body]. rewrite Hn, Ho.
  simpl. repeat split; eauto.
Qed.

Lemma delete_twice_witness :
  let t := mkTransaction 2%nat 1%nat "expense" 40 "food" None 1704844800000 0
  in
  let req :=
    Auth.mkRequest 2%nat 1%nat (mkBody None None None None None None None)
                   None in
  NoDup (map _id example_txs)
  /\ Store.findById 2%nat example_txs = Some t
  /\ userId t = 1%nat
  /\ denied 404 (snd (Api.delete example_txs 1%nat 2%nat))
       (Api.delete (snd (Api.delete example_txs 1%nat 2%nat)) 1%nat 2%nat)
  /\ denied 404 (snd (Server.delete example_txs req))
       (Server.delete (snd (Server.delete example_txs req)) req).
Proof.
  assert (Hnd : NoDup (map _id example_txs)).
  { simpl. repeat constructor; simpl; intuition discriminate. }
  split; [exact Hnd|]. split; [reflexivity|]. split; [reflexivity|].
  apply (delete_twice example_txs 1%nat 2%nat
           (mkBody None None None None None None None)
           (mkTransaction 2%nat 1%nat "expense" 40 "food" None
                          1704844800000 0) Hnd);
    reflexivity.
Defined.

(** ** Round trips of the router [Api] *)

Lemma post_outcomes db user now body :
  denied 400 db (Api.post db user now body)
  \/ exists ty am c,
       Api.post db user now body
       = (mkResponse 201 (Doc (created db user now ty am c body)),
          db ++ [created db user now ty am c body])
       /\ (ty = "income" \/ ty = "expense") /\ 0 < am
       /\ Js.trim c <> EmptyString.
Proof.
  destruct body as [[ty|] [am|] [c|] n d u ca];
    try (left; unfold denied, Api.post; simpl;
         repeat match goal with
                | |- context [if ?b then _ else _] => destruct b; simpl
                end; now eauto).
  pose proof (post_cases db user now ty am c n d u ca) as H. cbv zeta in H.
  revert H.
  destruct (Js.includes ["income"; "expense"] ty) eqn:Ei; cbn [andb];
    [|now left].
  destruct (0 <? am) eqn:Ea; cbn [andb]; [|now left].
  destruct (String.eqb (Js.trim c) EmptyString) eqn:Ec; cbn [negb];
    [now left|].
  intros H. right. exists ty, am, c. split; [exact H|].
  apply includes_types in Ei. apply Z.ltb_lt in Ea.
  apply String.eqb_neq in Ec. auto.
Qed.

Lemma post_created db user now body r db' :
  Api.post db user now body = (r, db') -> status r = 201%nat ->
  exists t, r = mkResponse 201 (Doc t) /\ db' = db ++ [t]
            /\ _id t = Store.fresh_id db /\ userId t = user
            /\ typed t /\ 0 < amount t /\ category t <> EmptyString.
Proof.
  intros E Hs.
  destruct (post_outcomes db user now body) as [[H _]|[ty [am [c [H Hw]]]]].
  - rewrite E in H. simpl in H. rewrite Hs in H. discriminate.
  - rewrite E in H. injection H as -> ->.
    eexists. split; [reflexivity|]. split; [reflexivity|].
    unfold typed. simpl. tauto.
Qed.

Lemma find_app_fresh {A} (p : A -> bool) l x :
  (forall y, In y l -> p y = false) ->
  List.find p (l ++ [x]) = if p x then Some x else None.
Proof.
  induction l as [|y l IH]; intros H; simpl; [reflexivity|].
  rewrite (H y (or_introl eq_refl)). apply IH. intros z Hz. apply H. now right.
Qed.

Lemma remove_first_app_fresh p (db : Store.Collection) x :
  (forall y, In y db -> p y = false) -> p x = true ->
  Store.remove_first p (db ++ [x]) = db.
Proof.
  induction db as [|y db IH]; intros H Hx; simpl.
  - now rewrite Hx.
  - rewrite (H y (or_introl eq_refl)). f_equal. apply IH; auto.
    intros z Hz. apply H. now right.
Qed.

Lemma fresh_id_unmatched db user (y : Transaction) :
  In y db ->
  Nat.eqb (_id y) (Store.fresh_id db) && Nat.eqb (userId y) user = false.
Proof.
  intros Hy. apply andb_false_iff. left. apply Nat.eqb_neq. intros E.
  apply (fresh_id_fresh db). rewrite <- E. now apply in_map.
Qed.

(** X5. A transaction [POST /] of [Api] has created is read back by
    its owner with [GET /:id] under the identifier it was given, and
    is answered NotFound to any other user. *)
Theorem post_then_get (db db' : Store.Collection) (user : ObjectId)
    (now : Js.Date) (body : Body) (r : Response Api.StatsJson) :
  Api.post db user now body = (r, db') -> status r = 201%nat ->
  exists t,
    payload r = Doc t
    /\ Api.get_one db' user (_id t) = mkResponse 200 (Doc t)
    /\ forall other, other <> user ->
         status (Api.get_one db' other (_id t)) = 404%nat.
Proof.
  intros E Hs.
  destruct (post_created db user now body r db' E Hs)
    as [t [-> [-> [Hid [Hu _]]]]].
  exists t. split; [reflexivity|].
  unfold Api.get_one, Store.findOne. rewrite Hid. split.
  - rewrite find_app_fresh by (intros y Hy; now apply fresh_id_unmatched).
    now rewrite <- Hid, Hu, !Nat.eqb_refl.
  - intros other Hne.
    rewrite find_app_fresh by (intros y Hy; now apply fresh_id_unmatched).
    rewrite Hu. apply Nat.eqb_neq in Hne. rewrite Nat.eqb_sym in Hne.
    rewrite Hne, andb_false_r. reflexivity.
Qed.

(** X6. Deleting a transaction that [POST /] of [Api] has just created
    gives back the collection as it was before the creation. *)
Theorem post_then_delete (db db' : Store.Collection) (user : ObjectId)
    (now : Js.Date) (body : Body) (r : Response Api.StatsJson) :
  Api.post db user now body = (r, db') -> status r = 201%nat ->
  exists t,
    payload r = Doc t
    /\ Api.delete db' user (_id t)
       = (mkResponse 200 (Message "Transaction deleted successfully"), db).
Proof.
  intros E Hs.
  destruct (post_created db user now body r db' E Hs)
    as [t [-> [-> [Hid [Hu _]]]]].
  exists t. split; [reflexivity|].
  unfold Api.delete, Store.findOne. rewrite Hid.
  rewrite find_app_fresh by (intros y Hy; now apply fresh_id_unmatched).
  assert (Ht : Nat.eqb (_id t) (Store.fresh_id db) && Nat.eqb (userId t) user
               = true) by now rewrite <- Hid, Hu, !Nat.eqb_refl.
  rewrite Ht. f_equal.
  apply remove_first_app_fresh; [|exact Ht].
  intros y Hy. now apply fresh_id_unmatched.
Qed.

Lemma post_then_get_witness :
  let r := fst (Api.post example_txs 1%nat 7 example_body) in
  let db' := snd (Api.post example_txs 1%nat 7 example_body) in
  Api.post example_txs 1%nat 7 example_body = (r, db')
  /\ status r = 201%nat
  /\ exists t,
       payload r = Doc t
       /\ Api.get_one db' 1%nat (_id t) = mkResponse 200 (Doc t)
       /\ forall other, other <> 1%nat ->
            status (Api.get_one db' other (_id t)) = 404%nat.
Proof.
  split; [reflexivity|]. split; [reflexivity|].
  apply (post_then_get example_txs _ 1%nat 7 example_body); reflexivity.
Defined.

Lemma post_then_delete_witness :
  let r := fst (Api.post example_txs 1%nat 7 example_body) in
  let db' := snd (Api.post example_txs 1%nat 7 example_body) in
  Api.post example_txs 1%nat 7 example_body = (r, db')
  /\ status r = 201%nat
  /\ exists t,
       payload r = Doc t
       /\ Api.delete db' 1%nat (_id t)
          = (mkResponse 200 (Message "Transaction deleted successfully"),
             example_txs).
Proof.
  split; [reflexivity|]. split; [reflexivity|].
  apply (post_then_delete example_txs _ 1%nat 7 example_body); reflexivity.
Defined.

(** ** Updates of the router [Api] *)

Lemma put_updated db user id body r db' :
  Api.put db user id body = (r, db') -> status r = 200%nat ->
  exists t t',
    Store.findOne id user db = Some t
    /\ Api.put_fields body t = inr t'
    /\ Schema.validate t' = None
    /\ r = mkResponse 200 (Doc t')
    /\ db' = Store.replace_first (fun d => Nat.eqb (_id d) (_id t'))
                                 (fun _ => t') db.
Proof.
  unfold Api.put. intros E Hs.
  destruct (Store.findOne id user db) as [t|] eqn:Ho;
    [|injection E as <- _; discriminate].
  pose proof (put_fields_cases body t) as [Hc _].
  destruct (Api.put_fields body t) as [r0|t'] eqn:Ef.
  - injection E as <- _. destruct Hc as [Hc _]. rewrite Hc in Hs.
    discriminate.
  - unfold Schema.save in E.
    destruct (Schema.validate t') as [m|] eqn:Ev;
      injection E as <- <-; [discriminate|].
    exists t, t'. auto.
Qed.

Lemma find_replace_first_sub p q (t' : Transaction) db :
  (exists x, In x db /\ p x = true) ->
  (forall d, q d = true -> p d = true) -> q t' = true ->
  List.find q (Store.replace_first p (fun _ => t') db) = Some t'.
Proof.
  intros Hex Hqp Hq. induction db as [|x db IH]; simpl.
  - destruct Hex as [x [[] _]].
  - destruct (p x) eqn:Ep; simpl.
    + now rewrite Hq.
    + assert (Eq : q x = false).
      { destruct (q x) eqn:Eq; [|reflexivity].
        rewrite (Hqp x Eq) in Ep. discriminate. }
      rewrite Eq. apply IH.
      destruct Hex as [y [[->|Hy] Hpy]]; [congruence | eauto].
Qed.

Lemma replace_first_idem p (t' : Transaction) db :
  p t' = true ->
  Store.replace_first p (fun _ => t')
    (Store.replace_first p (fun _ => t') db)
  = Store.replace_first p (fun _ => t') db.
Proof.
  intros H. induction db as [|x db IH]; simpl; [reflexivity|].
  destruct (p x) eqn:Ep; simpl.
  - now rewrite H.
  - rewrite Ep. now f_equal.
Qed.

Lemma put_fields_eq body t :
  Api.put_fields body t
  = if type_bad body
    then inl (mkResponse 400
                (Message "Type must be either income or expense"))
    else if amount_bad body
    then inl (mkResponse 400 (Message "Amount must be greater than 0"))
    else inr (patched body t).
Proof.
  destruct body as [ty am c n d u ca].
  unfold Api.put_fields, type_bad, amount_bad, patched.
  cbn [b_type b_amount b_category b_note b_date].
  destruct ty as [ty|]; cbn [Js.truthy_string].
  - destruct (String.eqb ty EmptyString); cbn [negb andb].
    + destruct am as [am|]; [destruct (am <=? 0); [reflexivity|]|];
        destruct c as [c|]; cbn [Js.truthy_string];
        try destruct (String.eqb c EmptyString); cbn [negb];
        destruct n, d, t; reflexivity.
    + destruct (Js.includes ["income"; "expense"] ty); cbn [negb];
        [|reflexivity].
      destruct am as [am|]; [destruct (am <=? 0); [reflexivity|]|];
        destruct c as [c|]; cbn [Js.truthy_string];
        try destruct (String.eqb c EmptyString); cbn [negb];
        destruct n, d, t; reflexivity.
  - destruct am as [am|]; [destruct (am <=? 0); [reflexivity|]|];
      destruct c as [c|]; cbn [Js.truthy_string];
      try destruct (String.eqb c EmptyString); cbn [negb];
      destruct n, d, t; reflexivity.
Qed.

Lemma patched_idem body t : patched body (patched body t) = patched body t.
Proof.
  destruct body as [[ty|] am [c|] n d u ca]; unfold patched;
    cbn [b_type b_amount b_category b_note b_date
         _id userId type amount category note date createdAt];
    try destruct (String.eqb ty EmptyString);
    try destruct (String.eqb c EmptyString);
    destruct am, n, d; reflexivity.
Qed.

Lemma put_fields_idem body t t' :
  Api.put_fields body t = inr t' -> Api.put_fields body t' = inr t'.
Proof.
  rewrite !put_fields_eq.
  destruct (type_bad body); [discriminate|].
  destruct (amount_bad body); [discriminate|].
  intros [= <-]. now rewrite patched_idem.
Qed.

Lemma put_found_again db user id body r db' :
  Api.put db user id body = (r, db') -> status r = 200%nat ->
  exists t',
    r = mkResponse 200 (Doc t')
    /\ Store.findOne id user db' = Some t'
    /\ Api.put_fields body t' = inr t'
    /\ Schema.validate t' = None
    /\ Store.replace_first (fun d => Nat.eqb (_id d) (_id t'))
                           (fun _ => t') db' = db'.
Proof.
  intros E Hs.
  destruct (put_updated db user id body r db' E Hs)
    as [t [t' [Ho [Ef [Ev [-> ->]]]]]].
  pose proof (put_fields_cases body t) as [Hc _]. rewrite Ef in Hc.
  destruct Hc as [[Hid _] [Hu _]].
  unfold Store.findOne in Ho. apply find_some in Ho.
  destruct Ho as [Hin Hp]. apply andb_true_iff in Hp.
  destruct Hp as [Hp1 Hp2]. apply Nat.eqb_eq in Hp1, Hp2.
  exists t'. split; [reflexivity|]. split; [|split; [|split]].
  - unfold Store.findOne. apply find_replace_first_sub.
    + exists t. split; [exact Hin|]. apply Nat.eqb_eq. congruence.
    + intros d Hd. apply andb_true_iff in Hd. destruct Hd as [Hd _].
      apply Nat.eqb_eq in Hd. apply Nat.eqb_eq. congruence.
    + apply andb_true_iff. split; apply Nat.eqb_eq; congruence.
  - eapply put_fields_idem; eauto.
  - exact Ev.
  - apply replace_first_idem. apply Nat.eqb_refl.
Qed.

(** X7. A transaction [PUT /:id] of [Api] has updated is read back by
    its owner with [GET /:id] as the update answered it. *)
Theorem put_then_get (db db' : Store.Collection) (user id : ObjectId)
    (body : Body) (r : Response Api.StatsJson) :
  Api.put db user id body = (r, db') -> status r = 200%nat ->
  Api.get_one db' user id = r.
Proof.
  intros E Hs.
  destruct (put_found_again db user id body r db' E Hs)
    as [t' [-> [Ho _]]].
  unfold Api.get_one. now rewrite Ho.
Qed.

Lemma put_then_get_witness :
  let r := fst (Api.put example_txs 1%nat 2%nat example_patch) in
  let db' := snd (Api.put example_txs 1%nat 2%nat example_patch) in
  Api.put example_txs 1%nat 2%nat example_patch = (r, db')
  /\ status r = 200%nat
  /\ Api.get_one db' 1%nat 2%nat = r.
Proof.
  split; [reflexivity|]. split; [reflexivity|].
  apply (put_then_get example_txs _ 1%nat 2%nat example_patch); reflexivity.
Defined.

(** X8. [PUT /:id] of [Api] is idempotent: an update that was answered
    200, sent again, is answered the same and leaves the collection as
    the first left it. *)
Theorem put_idempotent (db db' : Store.Collection) (user id : ObjectId)
    (body : Body) (r : Response Api.StatsJson) :
  Api.put db user id body = (r, db') -> status r = 200%nat ->
  Api.put db' user id body = (r, db').
Proof.
  intros E Hs.
  destruct (put_found_again db user id body r db' E Hs)
    as [t' [-> [Ho [Ef [Ev Hr]]]]].
  unfold Api.put, Schema.save. now rewrite Ho, Ef, Ev, Hr.
Qed.

Lemma put_idempotent_witness :
  let r := fst (Api.put example_txs 1%nat 2%nat example_patch) in
  let db' := snd (Api.put example_txs 1%nat 2%nat example_patch) in
  Api.put example_txs 1%nat 2%nat example_patch = (r, db')
  /\ status r = 200%nat
  /\ Api.put db' 1%nat 2%nat example_patch = (r, db').
Proof.
  split; [reflexivity|]. split; [reflexivity|].
  apply (put_idempotent example_txs _ 1%nat 2%nat example_patch);
    reflexivity.
Defined.

(** ** What the routes of [Api] keep *)

Lemma put_outcomes db user id body :
  snd (Api.put db user id body) = db
  \/ exists t t',
       Store.findOne id user db = Some t
       /\ Api.put_fields body t = inr t'
       /\ Schema.validate t' = None
       /\ snd (Api.put db user id body)
          = Store.replace_first (fun d => Nat.eqb (_id d) (_id t'))
                                (fun _ => t') db.
Proof.
  unfold Api.put.
  destruct (Store.findOne id user db) as [t|] eqn:Ho; [|now left].
  destruct (Api.put_fields body t) as [r0|t'] eqn:Ef; [now left|].
  unfold Schema.save.
  destruct (Schema.validate t') as [m|] eqn:Ev; [now left|].
  right. exists t, t'. auto.
Qed.

Lemma validate_ok t :
  Schema.validate t = None ->
  typed t /\ 0 <= amount t /\ category t <> EmptyString.
Proof.
  unfold Schema.validate.
  destruct (Js.includes ["income"; "expense"] (type t)) eqn:Ei;
    cbn [negb]; [|discriminate].
  destruct (Z.ltb_spec (amount t) 0); [discriminate|].
  destruct (String.eqb_spec (category t) EmptyString); [discriminate|].
  intros _. apply includes_types in Ei. unfold typed. auto.
Qed.

Lemma put_fields_amount body t t' :
  Api.put_fields body t = inr t' -> 0 < amount t -> 0 < amount t'.
Proof.
  rewrite put_fields_eq.
  destruct (type_bad body); [discriminate|].
  unfold amount_bad, patched.
  destruct (b_amount body) as [am|].
  - destruct (Z.leb_spec am 0); [discriminate|]. now intros [= <-].
  - now intros [= <-].
Qed.

Lemma ids_replace_first p (t' : Transaction) db :
  (forall d, p d = true -> _id d = _id t') ->
  map _id (Store.replace_first p (fun _ => t') db) = map _id db.
Proof.
  intros H. induction db as [|x db IH]; simpl; [reflexivity|].
  destruct (p x) eqn:Ep; simpl; [now rewrite (H x Ep) | now f_equal].
Qed.

Lemma Forall_replace_first (P : Transaction -> Prop) p t' db :
  P t' -> Forall P db -> Forall P (Store.replace_first p (fun _ => t') db).
Proof.
  intros Ht. induction 1 as [|x db Hx Hdb IH]; simpl; [constructor|].
  destruct (p x); constructor; auto.
Qed.

Lemma remove_first_incl p (db : Store.Collection) x :
  In x (Store.remove_first p db) -> In x db.
Proof.
  induction db as [|y db IH]; simpl; [tauto|].
  destruct (p y); simpl; [auto | intros [H|H]; auto].
Qed.

Lemma NoDup_remove_first p (db : Store.Collection) :
  NoDup (map _id db) -> NoDup (map _id (Store.remove_first p db)).
Proof.
  induction db as [|y db IH]; simpl; [auto|].
  intros Hnd. inversion Hnd as [|? ? Hnin Hnd']; subst.
  destruct (p y); [exact Hnd'|]. simpl. constructor; [|now apply IH].
  intros Hin. apply Hnin. apply in_map_iff in Hin.
  destruct Hin as [d [E Hd]]. rewrite <- E. apply in_map.
  now apply remove_first_incl in Hd.
Qed.

(** X9. The routes of [Api] that write keep the collection in order:
    after a create, an update or a delete, whatever the answer, the
    identifiers are still distinct and every stored transaction still
    has a type of the enumeration, a positive amount and a category
    that is not empty. *)
Theorem api_keeps_store_ok (db : Store.Collection) (user id : ObjectId)
    (now : Js.Date) (body : Body) :
  store_ok db ->
  store_ok (snd (Api.post db user now body))
  /\ store_ok (snd (Api.put db user id body))
  /\ store_ok (snd (Api.delete db user id)).
Proof.
  intros [Hnd Hwf]. split; [|split].
  - destruct (post_outcomes db user now body)
      as [[_ [_ ->]]|[ty [am [c [-> [Hty [Ham Hc]]]]]]]; [now split|].
    cbn [snd]. split.
    + rewrite map_app. simpl.
      apply (Permutation_NoDup (Permutation_cons_append _ _)).
      constructor; [apply fresh_id_fresh | exact Hnd].
    + apply Forall_app. split; [exact Hwf|].
      constructor; [|constructor]. unfold well_formed, typed. simpl. auto.
  - destruct (put_outcomes db user id body)
      as [->|[t [t' [Ho [Ef [Ev ->]]]]]]; [now split|].
    split.
    + rewrite ids_replace_first; [exact Hnd|].
      intros d Hd. now apply Nat.eqb_eq.
    + apply Forall_replace_first; [|exact Hwf].
      destruct (validate_ok t' Ev) as [H1 [_ H3]].
      split; [exact H1|]. split; [|exact H3].
      apply (put_fields_amount body t t' Ef).
      unfold Store.findOne in Ho. apply find_some in Ho.
      rewrite Forall_forall in Hwf. apply (Hwf t (proj1 Ho)).
  - unfold Api.delete.
    destruct (Store.findOne id user db); [|now split].
    cbn [snd]. split; [now apply NoDup_remove_first|].
    rewrite Forall_forall in *. intros x Hx. apply Hwf.
    now apply remove_first_incl in Hx.
Qed.

Lemma example_store_ok : store_ok example_txs.
Proof.
  split.
  - simpl. repeat constructor; simpl; intuition discriminate.
  - repeat (apply Forall_cons;
            [unfold well_formed, typed; simpl;
             repeat split; try tauto; try lia; discriminate|]).
    apply Forall_nil.
Defined.

Lemma api_keeps_store_ok_witness :
  store_ok example_txs
  /\ store_ok (snd (Api.post example_txs 1%nat 7 example_body))
  /\ store_ok (snd (Api.put example_txs 1%nat 2%nat example_body))
  /\ store_ok (snd (Api.delete example_txs 1%nat 2%nat)).
Proof.
  split; [exact example_store_ok|].
  apply (api_keeps_store_ok example_txs 1%nat 2%nat 7 example_body).
  exact example_store_ok.
Defined.

Lemma findById_of_unique db id t :
  NoDup (map _id db) -> In t db -> _id t = id ->
  Store.findById id db = Some t.
Proof.
  unfold Store.findById.
  induction db as [|x db IH]; simpl; [tauto|].
  intros Hnd Hin Hid. inversion Hnd as [|? ? Hnin Hnd']; subst.
  destruct Hin as [->|Hin].
  - now rewrite Nat.eqb_refl.
  - destruct (Nat.eqb_spec (_id x) (_id t)) as [E|_]; [|now apply IH].
    exfalso. apply Hnin. rewrite E. now apply in_map.
Qed.

Lemma others_replace_first a p (t t' : Transaction) db :
  List.find p db = Some t -> userId t = a -> userId t' = a ->
  others a (Store.replace_first p (fun _ => t') db) = others a db.
Proof.
  unfold others. intros Hf Ht Ht'.
  induction db as [|x db IH]; simpl in *; [reflexivity|].
  destruct (p x) eqn:Ep; simpl.
  - injection Hf as ->. now rewrite Ht, Ht', Nat.eqb_refl.
  - destruct (negb (Nat.eqb (userId x) a)); [f_equal|]; auto.
Qed.

Lemma others_remove_first a p (db : Store.Collection) :
  (forall d, p d = true -> userId d = a) ->
  others a (Store.remove_first p db) = others a db.
Proof.
  unfold others. intros H.
  induction db as [|x db IH]; simpl; [reflexivity|].
  destruct (p x) eqn:Ep; simpl.
  - now rewrite (H x Ep), Nat.eqb_refl.
  - destruct (negb (Nat.eqb (userId x) a)); [f_equal|]; auto.
Qed.

(** X10. With distinct identifiers, no write of a user through [Api]
    touches a document of another user: after a create, an update or a
    delete by [a], whatever the answer, the documents of the other
    users are the same, in the same order. *)
Theorem api_writes_only_own (db : Store.Collection) (a id : ObjectId)
    (now : Js.Date) (body : Body) :
  NoDup (map _id db) ->
  others a (snd (Api.post db a now body)) = others a db
  /\ others a (snd (Api.put db a id body)) = others a db
  /\ others a (snd (Api.delete db a id)) = others a db.
Proof.
  intros Hnd. split; [|split].
  - destruct (post_outcomes db a now body)
      as [[_ [_ ->]]|[ty [am [c [-> _]]]]]; [reflexivity|].
    cbn [snd]. unfold others. rewrite filter_app. simpl.
    rewrite Nat.eqb_refl. simpl. apply app_nil_r.
  - destruct (put_outcomes db a id body)
      as [->|[t [t' [Ho [Ef [Ev ->]]]]]]; [reflexivity|].
    pose proof (put_fields_cases body t) as [Hc _]. rewrite Ef in Hc.
    destruct Hc as [[Hid _] [Hu _]].
    unfold Store.findOne in Ho. apply find_some in Ho.
    destruct Ho as [Hin Hp]. apply andb_true_iff in Hp.
    destruct Hp as [_ Hp2]. apply Nat.eqb_eq in Hp2.
    apply (others_replace_first a _ t t'); [|exact Hp2 | congruence].
    apply (findById_of_unique db (_id t') t Hnd Hin). now symmetry.
  - unfold Api.delete.
    destruct (Store.findOne id a db); [|reflexivity].
    cbn [snd]. apply others_remove_first.
    intros d Hd. apply andb_true_iff in Hd. now apply Nat.eqb_eq.
Qed.

Lemma api_writes_only_own_witness :
  NoDup (map _id example_txs)
  /\ others 1%nat (snd (Api.post example_txs 1%nat 7 example_body))
     = others 1%nat example_txs
  /\ others 1%nat (snd (Api.put example_txs 1%nat 2%nat example_body))
     = others 1%nat example_txs
  /\ others 1%nat (snd (Api.delete example_txs 1%nat 2%nat))
     = others 1%nat example_txs.
Proof.
  assert (Hnd : NoDup (map _id example_txs)).
  { simpl. repeat constructor; simpl; intuition discriminate. }
  split; [exact Hnd|].
  apply (api_writes_only_own example_txs 1%nat 2%nat 7 example_body Hnd).
Defined.

(** ** The statistics and the owner *)

Lemma filter_filter_sub {A} (p q : A -> bool) l :
  (forall x, p x = true -> q x = true) ->
  filter p (filter q l) = filter p l.
Proof.
  intros H. induction l as [|x l IH]; simpl; [reflexivity|].
  destruct (q x) eqn:Eq; simpl.
  - destruct (p x); [f_equal|]; auto.
  - destruct (p x) eqn:Ep; [|exact IH].
    rewrite (H x Ep) in Eq. discriminate.
Qed.

Lemma find_owned f db :
  Store.find f (owned (Store.owner f) db) = Store.find f db.
Proof.
  unfold Store.find, owned. apply filter_filter_sub.
  intros t Ht. unfold Store.matches in Ht.
  now apply andb_true_iff in Ht.
Qed.

(** X11. The statistics of a user are computed from the documents of
    that user alone, in both routers: the answer is the same on the
    collection and on the collection without the documents of the
    other users. *)
Theorem stats_only_own (tza : Z -> Z) (db : Store.Collection)
    (a : ObjectId) (q : StatsQuery) :
  Api.get_stats tza (owned a db) a q = Api.get_stats tza db a q
  /\ Server.get_stats (owned a db) a q = Server.get_stats db a q.
Proof.
  unfold Api.get_stats, Server.get_stats. split.
  - pose proof (find_owned (Api.stats_filter a q) db) as H.
    cbn [Api.stats_filter Store.owner] in H. now rewrite H.
  - pose proof (find_owned (Server.stats_filter a q) db) as H.
    cbn [Server.stats_filter Store.owner] in H. now rewrite H.
Qed.

Lemma find_nothing f db :
  (forall t, In t db -> userId t <> Store.owner f) -> Store.find f db = [].
Proof.
  intros H. unfold Store.find.
  induction db as [|x db IH]; simpl; [reflexivity|].
  unfold Store.matches at 1.
  assert (E : Nat.eqb (userId x) (Store.owner f) = false)
    by (apply Nat.eqb_neq, H; now left).
  rewrite E. simpl. apply IH. intros t Ht. apply H. now right.
Qed.

(** X12. For a user who has no transaction the statistics routes
    answer 200 with a summary of zeros and empty arrays, whatever the
    date range and the documents of the other users. *)
Theorem stats_of_no_transaction (tza : Z -> Z) (db : Store.Collection)
    (a : ObjectId) (q : StatsQuery) :
  (forall t, In t db -> userId t <> a) ->
  Api.get_stats tza db a q
  = mkResponse 200
      (Stats (Api.mkStatsJson (mkSummary 0 0 0) [] [] [] []))
  /\ Server.get_stats db a q
     = mkResponse 200 (Stats (Server.mkStatsJson (mkSummary 0 0 0) [] [])).
Proof.
  intros H. unfold Api.get_stats, Server.get_stats.
  rewrite (find_nothing (Api.stats_filter a q) db) by exact H.
  rewrite (find_nothing (Server.stats_filter a q) db) by exact H.
  split; reflexivity.
Qed.

Lemma stats_of_no_transaction_witness :
  (forall t, In t example_txs -> userId t <> 2%nat)
  /\ Api.get_stats (fun _ => 0) example_txs 2%nat (mkStatsQuery None None)
     = mkResponse 200
         (Stats (Api.mkStatsJson (mkSummary 0 0 0) [] [] [] []))
  /\ Server.get_stats example_txs 2%nat (mkStatsQuery None None)
     = mkResponse 200 (Stats (Server.mkStatsJson (mkSummary 0 0 0) [] [])).
Proof.
  assert (H : forall t, In t example_txs -> userId t <> 2%nat).
  { simpl. intros t [<-|[<-|[<-|[]]]]; discriminate. }
  split; [exact H|].
  apply (stats_of_no_transaction (fun _ => 0) example_txs 2%nat
           (mkStatsQuery None None) H).
Defined.

(** ** The derived views of the statistics of [Api] *)

Lemma sorted_app_dominates {A} (R : A -> A -> Prop) l1 l2 :
  StronglySorted R (l1 ++ l2) -> Forall (fun a => Forall (R a) l2) l1.
Proof.
  induction l1 as [|x l1 IH]; simpl; intros H; [constructor|].
  inversion H as [|? ? Hs Hx]; subst. constructor; [|now apply IH].
  apply Forall_app in Hx. tauto.
Qed.

(** X13. [topCategories] holds at most five records: the first five of
    the [categoryData] sent, all of them when there are fewer, and no
    category left out has a greater total than one that is in. *)
Theorem top_categories_dominate (tza : Z -> Z) (txs : list Transaction) :
  let s := Api.stats_of tza txs in
  List.length (Api.r_topCategories s)
  = Nat.min 5 (List.length (Api.r_categoryData s))
  /\ Api.r_categoryData s
     = Api.r_topCategories s ++ skipn 5 (Api.r_categoryData s)
  /\ Forall (fun a =>
               Forall (fun b => Api.total b <= Api.total a)
                      (skipn 5 (Api.r_categoryData s)))
            (Api.r_topCategories s).
Proof.
  rewrite Api_stats_of. cbn [Api.r_topCategories Api.r_categoryData].
  set (cd := Js.Array_sort by_total_desc (Api.categoryData txs)).
  split; [apply length_firstn|].
  split; [symmetry; apply firstn_skipn|].
  apply sorted_app_dominates. rewrite firstn_skipn.
  pose proof (Array_sort_sorted by_total_desc by_total_desc_total
                by_total_desc_trans (Api.categoryData txs)) as H.
  eapply StronglySorted_impl; [|exact H].
  unfold cmp_le, by_total_desc. intros; lia.
Qed.

(** ** Sums by type *)

Lemma sumZ_map_sub {A} (f g : A -> Z) l :
  sumZ (map (fun x => f x - g x) l) = sumZ (map f l) - sumZ (map g l).
Proof. induction l as [|x l IH]; simpl; lia. Qed.

Lemma income_sum_step key acc t :
  Js.inherited (key t) = false ->
  obj_sum Api.income (Api.bucket_step key acc t)
  = obj_sum Api.income acc + (if is_income t then amount t else 0)
  /\ obj_sum Api.expense (Api.bucket_step key acc t)
     = obj_sum Api.expense acc + (if is_income t then 0 else amount t).
Proof.
  intros Hp. rewrite (bucket_step_plain _ _ _ Hp). rewrite !obj_sum_modify.
  unfold Api.add_amount, is_income.
  destruct (Js.lookup (key t) acc) as [b|] eqn:E.
  - rewrite E. destruct (String.eqb (type t) "income"); simpl; lia.
  - rewrite lookup_assign, String.eqb_refl, !obj_sum_assign, E.
    destruct (String.eqb (type t) "income"); simpl; lia.
Qed.

Lemma income_sum_buckets key txs : plain_keys key txs -> forall acc,
  obj_sum Api.income (fold_left (Api.bucket_step key) txs acc)
  = obj_sum Api.income acc + sum_amounts is_income txs
  /\ obj_sum Api.expense (fold_left (Api.bucket_step key) txs acc)
     = obj_sum Api.expense acc
       + sum_amounts (fun t => negb (is_income t)) txs.
Proof.
  induction 1 as [|t txs Ht Hp IH]; intros acc; simpl.
  - unfold sum_amounts; simpl. lia.
  - destruct (IH (Api.bucket_step key acc t)) as [H1 H2].
    destruct (income_sum_step key acc t Ht) as [S1 S2].
    rewrite H1, H2, S1, S2, !sum_amounts_cons.
    destruct (is_income t); simpl; lia.
Qed.

Lemma Server_income_sum_step acc t :
  obj_sum Server.income (Server.month_step acc t)
  = obj_sum Server.income acc + (if is_income t then amount t else 0)
  /\ obj_sum Server.expense (Server.month_step acc t)
     = obj_sum Server.expense acc + (if is_income t then 0 else amount t).
Proof.
  unfold Server.month_step, is_income. rewrite Server_monthKey_plain.
  set (m := Server.monthKey (date t)).
  set (acc1 := match Js.lookup m acc with
               | Some _ => acc
               | None => Js.assign m (Server.mkMonthBucket 0 0 0) acc
               end).
  assert (H1 : obj_sum Server.income acc1 = obj_sum Server.income acc
               /\ obj_sum Server.expense acc1 = obj_sum Server.expense acc
               /\ exists b, Js.lookup m acc1 = Some b).
  { unfold acc1. destruct (Js.lookup m acc) as [b|] eqn:E.
    - split; [reflexivity|]. split; [reflexivity | now exists b].
    - rewrite !obj_sum_assign, E, lookup_assign, String.eqb_refl.
      simpl. split; [lia|]. split; [lia | eauto]. }
  destruct H1 as [Hi [He [b Hb]]].
  rewrite !obj_sum_modify.
  destruct (String.eqb (type t) "income");
    rewrite !lookup_modify, String.eqb_refl, Hb, !obj_sum_modify, Hb, Hi, He;
    simpl; lia.
Qed.

Lemma Server_income_sum_months txs : forall acc,
  obj_sum Server.income (fold_left Server.month_step txs acc)
  = obj_sum Server.income acc + sum_amounts is_income txs
  /\ obj_sum Server.expense (fold_left Server.month_step txs acc)
     = obj_sum Server.expense acc
       + sum_amounts (fun t => negb (is_income t)) txs.
Proof.
  induction txs as [|t txs IH]; intros acc; simpl.
  - unfold sum_amounts; simpl. lia.
  - destruct (IH (Server.month_step acc t)) as [H1 H2].
    destruct (Server_income_sum_step acc t) as [S1 S2].
    rewrite H1, H2, S1, S2, !sum_amounts_cons.
    destruct (is_income t); simpl; lia.
Qed.

Lemma Server_balance_entries txs e :
  In e (Server.monthlyData txs) ->
  Server.b_balance (snd e) = Server.income (snd e) - Server.expense (snd e).
Proof.
  destruct e as [k b]. intros Hin.
  apply (In_lookup _ _ _ (Server_NoDup_monthlyData txs)) in Hin.
  rewrite Server_lookup_monthlyData in Hin.
  apply month_bucket_of_Some in Hin. destruct Hin as [_ ->]. reflexivity.
Qed.

Lemma sumZ_map_ext_in {A} (f g : A -> Z) l :
  (forall x, In x l -> f x = g x) -> sumZ (map f l) = sumZ (map g l).
Proof.
  intros H. f_equal. apply map_ext_in. exact H.
Qed.

Lemma Api_month_sums tza txs :
  sumZ (map m_income (Api.monthlyData tza txs)) = sum_amounts is_income txs
  /\ sumZ (map m_expense (Api.monthlyData tza txs))
     = sum_amounts (fun t => negb (is_income t)) txs
  /\ sumZ (map balance (Api.monthlyData tza txs))
     = sum_amounts is_income txs
       - sum_amounts (fun t => negb (is_income t)) txs.
Proof.
  rewrite Api_monthlyData_eq, !map_map, !sum_sorted, !sum_entries.
  destruct (income_sum_buckets (fun t => Api.monthKey tza (date t)) txs
              (Api_months_plain tza txs) []) as [H1 H2].
  unfold obj_sum in H1, H2. simpl in H1, H2.
  unfold Api.monthlyStats, Js.reduce.
  split; [exact H1|]. split; [exact H2|].
  simpl. rewrite sumZ_map_sub. simpl in *. now rewrite H1, H2.
Qed.

Lemma Server_month_sums txs :
  sumZ (map m_income (Server.formattedMonthlyData txs))
  = sum_amounts is_income txs
  /\ sumZ (map m_expense (Server.formattedMonthlyData txs))
     = sum_amounts (fun t => negb (is_income t)) txs
  /\ sumZ (map balance (Server.formattedMonthlyData txs))
     = sum_amounts is_income txs
       - sum_amounts (fun t => negb (is_income t)) txs.
Proof.
  rewrite Server_formattedMonthlyData_eq, !sum_sorted, !map_map,
    !sum_entries.
  destruct (Server_income_sum_months txs []) as [H1 H2].
  unfold obj_sum in H1, H2. simpl in H1, H2.
  assert (H3 : sumZ (map (fun e => Server.b_balance (snd e))
                         (Server.monthlyData txs))
               = sumZ (map (fun e => Server.income (snd e)) 
                           (Server.monthlyData txs))
                 - sumZ (map (fun e => Server.expense (snd e))
                             (Server.monthlyData txs))).
  { rewrite <- sumZ_map_sub. apply sumZ_map_ext_in.
    intros e He. now apply (Server_balance_entries txs). }
  unfold Server.monthlyData, Js.reduce in *.
  split; [exact H1|]. split; [exact H2|].
  simpl. simpl in H3. now rewrite H3, H1, H2.
Qed.

(** X14. In both routers, over a fetched list of exact amounts, the
    monthly records add up to the summary: their incomes to
    [totalIncome], their expenses to [totalExpense] and their balances
    to [netBalance]; so do the balances of [monthlyTrend]. *)
Theorem monthly_sums_match_summary (tza : Z -> Z) (txs : list Transaction) :
  exact txs ->
  let a := Api.stats_of tza txs in
  let s := Server.stats_of txs in
  sumZ (map m_income (Api.r_monthlyData a)) = totalIncome (Api.r_summary a)
  /\ sumZ (map m_expense (Api.r_monthlyData a))
     = totalExpense (Api.r_summary a)
  /\ sumZ (map balance (Api.r_monthlyData a)) = netBalance (Api.r_summary a)
  /\ sumZ (map Api.t_balance (Api.r_monthlyTrend a))
     = netBalance (Api.r_summary a)
  /\ sumZ (map m_income (Server.r_monthlyData s))
     = totalIncome (Server.r_summary s)
  /\ sumZ (map m_expense (Server.r_monthlyData s))
     = totalExpense (Server.r_summary s)
  /\ sumZ (map balance (Server.r_monthlyData s))
     = netBalance (Server.r_summary s).
Proof.
  intros _. rewrite Api_stats_of.
  cbn [Api.r_monthlyData Api.r_summary Api.r_monthlyTrend
       Server.stats_of Server.r_monthlyData Server.r_summary].
  rewrite Server_summary_eq, Api_summary_eq, map_map.
  cbn [totalIncome totalExpense netBalance Api.t_balance].
  destruct (Api_month_sums tza txs) as [A1 [A2 A3]].
  destruct (Server_month_sums txs) as [S1 [S2 S3]].
  repeat split; assumption.
Qed.

Lemma monthly_sums_match_summary_witness :
  exact example_txs
  /\ let a := Api.stats_of (fun _ => 0) example_txs in
     let s := Server.stats_of example_txs in
     sumZ (map m_income (Api.r_monthlyData a)) = totalIncome (Api.r_summary a)
     /\ sumZ (map m_expense (Api.r_monthlyData a))
        = totalExpense (Api.r_summary a)
     /\ sumZ (map balance (Api.r_monthlyData a))
        = netBalance (Api.r_summary a)
     /\ sumZ (map Api.t_balance (Api.r_monthlyTrend a))
        = netBalance (Api.r_summary a)
     /\ sumZ (map m_income (Server.r_monthlyData s))
        = totalIncome (Server.r_summary s)
     /\ sumZ (map m_expense (Server.r_monthlyData s))
        = totalExpense (Server.r_summary s)
     /\ sumZ (map balance (Server.r_monthlyData s))
        = netBalance (Server.r_summary s).
Proof.
  split; [solve_exact|].
  apply (monthly_sums_match_summary (fun _ => 0) example_txs).
  solve_exact.
Defined.

Lemma Api_category_sums txs :
  plain_categories txs ->
  sumZ (map Api.c_income (Api.categoryData txs)) = sum_amounts is_income txs
  /\ sumZ (map Api.c_expense (Api.categoryData txs))
     = sum_amounts (fun t => negb (is_income t)) txs.
Proof.
  intros Hpl. rewrite Api_categoryData_eq, !map_map, !sum_entries.
  destruct (income_sum_buckets category txs Hpl []) as [H1 H2].
  unfold obj_sum in H1, H2. simpl in H1, H2.
  unfold Api.categoryStats, Js.reduce. split; assumption.
Qed.

(** X15. In [Api], over a fetched list of exact amounts whose
    categories are no names an object inherits, the category records
    add up to the summary by type: their incomes to [totalIncome] and
    their expenses to [totalExpense]. *)
Theorem category_sums_match_summary (tza : Z -> Z) (txs : list Transaction) :
  exact txs -> plain_categories txs ->
  let a := Api.stats_of tza txs in
  sumZ (map Api.c_income (Api.r_categoryData a))
  = totalIncome (Api.r_summary a)
  /\ sumZ (map Api.c_expense (Api.r_categoryData a))
     = totalExpense (Api.r_summary a).
Proof.
  intros _ Hpl. rewrite Api_stats_of. cbn [Api.r_categoryData Api.r_summary].
  rewrite !sum_sorted, Api_summary_eq. cbn [totalIncome totalExpense].
  now apply Api_category_sums.
Qed.

Lemma category_sums_match_summary_witness :
  exact example_txs /\ plain_categories example_txs
  /\ let a := Api.stats_of (fun _ => 0) example_txs in
     sumZ (map Api.c_income (Api.r_categoryData a))
     = totalIncome (Api.r_summary a)
     /\ sumZ (map Api.c_expense (Api.r_categoryData a))
        = totalExpense (Api.r_summary a).
Proof.
  split; [solve_exact|]. split; [solve_plain|].
  apply (category_sums_match_summary (fun _ => 0) example_txs);
    [solve_exact | solve_plain].
Defined.

(** ** The two breakdowns *)

(** X16. Over a fetched list whose types are those of the schema and
    whose categories are no names an object inherits, the two routers
    agree on the expenses by category: each record of the breakdown of
    [Server] has its category and its expense in a record of the
    breakdown of [Api], and a record of [Api] whose category [Server]
    leaves out has an expense of zero. *)
Theorem routers_agree_on_expenses (tza : Z -> Z) (txs : list Transaction) :
  Forall typed txs -> plain_categories txs ->
  expenses_agree (Api.r_categoryData (Api.stats_of tza txs))
                 (Server.r_categoryData (Server.stats_of txs)).
Proof.
  intros Hty Hpl.
  destruct (Api_full_breakdown tza txs Hpl) as [_ [Hk Hv]].
  destruct (Server_expense_breakdown txs Hpl) as [_ [Hk' Hv']].
  split; apply Forall_forall.
  - intros r Hr. apply Exists_exists.
    assert (Hc : In (Server.e_category r) (map category txs)).
    { assert (Hin : In (Server.e_category r)
                       (map Server.e_category
                            (Server.r_categoryData (Server.stats_of txs))))
        by now apply in_map.
      apply Hk' in Hin. destruct Hin as [t [Hin [_ E]]].
      rewrite <- E. now apply in_map. }
    apply Hk in Hc. apply in_map_iff in Hc. destruct Hc as [r' [E Hr']].
    exists r'. split; [exact Hr'|]. split; [exact E|].
    destruct (Hv r' Hr') as [_ [He _]]. rewrite He, (Hv' r Hr), E.
    f_equal. rewrite (sum_amounts_typed txs Hty).
    apply sum_amounts_ext. intros t _. apply andb_comm.
  - intros r' Hr'.
    destruct (in_dec string_dec (Api.c_category r')
                (map Server.e_category
                     (Server.r_categoryData (Server.stats_of txs))))
      as [Hin|Hnin]; [now left|].
    right. destruct (Hv r' Hr') as [_ [He _]].
    rewrite He, (sum_amounts_typed txs Hty).
    apply sum_amounts_none. intros t Ht.
    destruct (in_category (Api.c_category r') t) eqn:E1;
      [|reflexivity].
    destruct (is_expense t) eqn:E2; [|reflexivity].
    exfalso. apply Hnin. apply Hk'. exists t.
    unfold is_expense, in_category in *.
    apply String.eqb_eq in E1, E2. auto.
Qed.

Lemma routers_agree_on_expenses_witness :
  Forall typed example_txs /\ plain_categories example_txs
  /\ expenses_agree
       (Api.r_categoryData (Api.stats_of (fun _ => 0) example_txs))
       (Server.r_categoryData (Server.stats_of example_txs)).
Proof.
  split; [solve_typed|]. split; [solve_plain|].
  apply (routers_agree_on_expenses (fun _ => 0) example_txs);
    [solve_typed | solve_plain].
Defined.

(** ** Positive amounts *)

Lemma sum_amounts_nonneg p txs :
  Forall (fun t => 0 < amount t) txs -> 0 <= sum_amounts p txs.
Proof.
  induction 1 as [|t txs Ht _ IH]; [unfold sum_amounts; simpl; lia|].
  rewrite sum_amounts_cons. destruct (p t); lia.
Qed.

Lemma sum_amounts_pos p txs :
  Forall (fun t => 0 < amount t) txs ->
  (exists t, In t txs /\ p t = true) -> 0 < sum_amounts p txs.
Proof.
  induction 1 as [|t txs Ht Hs IH]; intros [x [Hin Hp]]; [destruct Hin|].
  rewrite sum_amounts_cons.
  pose proof (sum_amounts_nonneg p txs Hs).
  destruct Hin as [->|Hin].
  - rewrite Hp. lia.
  - assert (0 < sum_amounts p txs) by (apply IH; eauto).
    destruct (p t); lia.
Qed.

Lemma group_total_pos key k txs :
  Forall (fun t => 0 < amount t) txs ->
  (exists t, In t txs /\ key t = k) ->
  0 < sum_amounts (fun t => in_group key k t && is_income t) txs
      + sum_amounts (fun t => in_group key k t && negb (is_income t)) txs.
Proof.
  intros Hpos Hex.
  assert (E : sum_amounts (fun t => in_group key k t && is_income t) txs
              + sum_amounts (fun t => in_group key k t && negb (is_income t))
                            txs
              = sum_amounts (in_group key k) txs).
  { clear. induction txs as [|t txs IH]; [reflexivity|].
    rewrite !sum_amounts_cons.
    destruct (in_group key k t), (is_income t); simpl; lia. }
  rewrite E. apply sum_amounts_pos; [exact Hpos|].
  destruct Hex as [t [Hin Ht]]. exists t. split; [exact Hin|].
  now apply String.eqb_eq.
Qed.

(** X17. When the amounts of the fetched transactions are positive
    and their categories are no names an object inherits, no record of
    the statistics is empty: a category record of [Api] has a positive
    total, a category record of [Server] a number that is positive as
    its expense, and a monthly record of either router a positive
    turnover, its income and its expense being zero or more. *)
Theorem positive_amounts_positive_records (tza : Z -> Z)
    (txs : list Transaction) :
  Forall (fun t => 0 < amount t) txs -> plain_categories txs ->
  positive_records (Api.r_categoryData (Api.stats_of tza txs))
                   (Server.r_categoryData (Server.stats_of txs))
                   (Api.r_monthlyData (Api.stats_of tza txs)
                    ++ Server.r_monthlyData (Server.stats_of txs)).
Proof.
  intros Hpos Hpl. rewrite Api_stats_of.
  cbn [Api.r_categoryData Api.r_monthlyData Server.stats_of
       Server.r_categoryData Server.r_monthlyData].
  split; [|split]; apply Forall_forall.
  - intros r Hr. apply Array_sort_In in Hr.
    rewrite Api_categoryData_eq in Hr. apply in_map_iff in Hr.
    destruct Hr as [[k b] [<- Hin]].
    apply (Permutation_in _ (Permutation_sym (Object_entries_perm _))) in Hin.
    apply (In_buckets category txs k b Hpl), bucket_of_Some in Hin.
    destruct Hin as [Hex ->].
    simpl. split; [now apply sum_amounts_nonneg|].
    split; [now apply sum_amounts_nonneg|]. now apply group_total_pos.
  - intros r Hr. unfold Server.formattedCategoryData in Hr.
    apply in_map_iff in Hr. destruct Hr as [[k v] [<- Hin]].
    destruct (Server_entries_numbers txs Hpl k v Hin) as [n [-> Hn]].
    exists n. split; [reflexivity|].
    unfold expense_of in Hn.
    destruct (existsb _ txs) eqn:E; [|discriminate].
    injection Hn as <-.
    apply sum_amounts_pos; [exact Hpos|].
    apply existsb_exists in E. exact E.
  - intros r Hr. apply in_app_or in Hr. destruct Hr as [Hr|Hr].
    + rewrite Api_monthlyData_eq in Hr. apply in_map_iff in Hr.
      destruct Hr as [[k b] [<- Hin]]. apply Array_sort_In in Hin.
      apply (Permutation_in _ (Permutation_sym (Object_entries_perm _)))
        in Hin.
      apply (In_buckets _ txs k b (Api_months_plain tza txs)),
        bucket_of_Some in Hin.
      destruct Hin as [Hex ->].
      simpl. split; [now apply sum_amounts_nonneg|].
      split; [now apply sum_amounts_nonneg|]. now apply group_total_pos.
    + rewrite Server_formattedMonthlyData_eq in Hr.
      apply Array_sort_In in Hr. apply in_map_iff in Hr.
      destruct Hr as [[k b] [<- Hin]].
      apply (Permutation_in _ (Permutation_sym (Object_entries_perm _)))
        in Hin.
      apply (In_lookup _ _ _ (Server_NoDup_monthlyData txs)) in Hin.
      rewrite Server_lookup_monthlyData in Hin.
      apply month_bucket_of_Some in Hin. destruct Hin as [Hex ->].
      simpl. split; [now apply sum_amounts_nonneg|].
      split; [now apply sum_amounts_nonneg|].
      now apply (group_total_pos (fun t => Server.monthKey (date t))).
Qed.

Lemma positive_amounts_positive_records_witness :
  Forall (fun t => 0 < amount t) example_txs
  /\ plain_categories example_txs
  /\ positive_records
       (Api.r_categoryData (Api.stats_of (fun _ => 0) example_txs))
       (Server.r_categoryData (Server.stats_of example_txs))
       (Api.r_monthlyData (Api.stats_of (fun _ => 0) example_txs)
        ++ Server.r_monthlyData (Server.stats_of example_txs)).
Proof.
  assert (H : Forall (fun t => 0 < amount t) example_txs)
    by (repeat constructor; simpl; lia).
  split; [exact H|]. split; [solve_plain|].
  apply (positive_amounts_positive_records (fun _ => 0) example_txs H).
  solve_plain.
Defined.

(** ** The authentication middleware *)

Lemma prefix_append p s : String.prefix p (String.append p s) = true.
Proof.
  induction p as [|a p IH]; simpl; [now destruct s|].
  destruct (ascii_dec a a) as [_|H]; [exact IH | congruence].
Qed.

Lemma drop_append p s : Gate.drop (String.length p) (String.append p s) = s.
Proof. induction p as [|a p IH]; simpl; [now destruct s | exact IH]. Qed.

Lemma replace_prefix p r s :
  Gate.replace p r (String.append p s) = String.append r s.
Proof.
  assert (U : forall x,
             Gate.replace p r x
             = if String.prefix p x
               then String.append r (Gate.drop (String.length p) x)
               else match x with
                    | EmptyString => EmptyString
                    | String c x' => String c (Gate.replace p r x')
                    end) by (intros [|c x']; reflexivity).
  now rewrite U, prefix_append, drop_append.
Qed.

Lemma replace_no_occurrence p r s :
  occurs p s = false -> Gate.replace p r s = s.
Proof.
  induction s as [|c s IH]; simpl; intros H;
    apply orb_false_iff in H; destruct H as [H1 H2]; rewrite H1.
  - reflexivity.
  - f_equal. now apply IH.
Qed.

(** X18. [auth] answers 401 or hands the request on, and it hands on
    only a request whose header, with its first [Bearer ] removed, is a
    token that verifies and names a stored user: that user is attached
    without the password. *)
Theorem auth_outcomes (S : Type)
    (jwt_verify : string -> option (option ObjectId))
    (users : list Gate.User) (req : Gate.Request) :
  match @Gate.auth jwt_verify S users req with
  | inl r => status r = 401%nat /\ exists m, payload r = Message m
  | inr req' =>
      exists h u,
        Gate.authorization req = Some h
        /\ Gate.replace "Bearer " EmptyString h <> EmptyString
        /\ jwt_verify (Gate.replace "Bearer " EmptyString h)
           = Some (Some (Gate.u_id u))
        /\ In u users
        /\ req' = Gate.mkRequest (Some h)
                    (Some (Gate.mkUser (Gate.u_id u) (Gate.name u)
                                       (Gate.email u) None))
  end.
Proof.
  unfold Gate.auth. destruct req as [[h|] u0]; simpl; [|eauto].
  destruct (String.eqb_spec (Gate.replace "Bearer " EmptyString h)
                            EmptyString) as [E|E]; simpl; [eauto|].
  destruct (jwt_verify _) as [[uid|]|] eqn:Ev; simpl; eauto.
  destruct (List.find _ users) as [u|] eqn:Ef; simpl; eauto.
  apply find_some in Ef. destruct Ef as [Hin Hid]. apply Nat.eqb_eq in Hid.
  exists h, u. rewrite Hid. repeat split; auto.
  unfold Gate.select_minus_password. now rewrite Hid.
Qed.

(** X19. A header [Bearer ] followed by a token is authenticated as
    that token, whatever the token holds; without a header, or with
    nothing after [Bearer ], the answer is 401 and no token is
    verified. *)
Theorem bearer_prefix_stripped (S : Type)
    (jwt_verify : string -> option (option ObjectId))
    (users : list Gate.User) (u0 : option Gate.User) (c : ascii)
    (t : string) :
  @Gate.auth jwt_verify S users
     (Gate.mkRequest (Some (String.append "Bearer " (String c t))) u0)
  = authenticate jwt_verify users
      (Some (String.append "Bearer " (String c t))) (String c t)
  /\ @Gate.auth jwt_verify S users (Gate.mkRequest (Some "Bearer ") u0)
     = inl (mkResponse 401 (Message "No token, authorization denied"))
  /\ @Gate.auth jwt_verify S users (Gate.mkRequest None u0)
     = inl (mkResponse 401 (Message "No token, authorization denied")).
Proof.
  split; [|split; reflexivity].
  unfold Gate.auth, authenticate.
  cbn [Gate.authorization option_map].
  rewrite (replace_prefix "Bearer " EmptyString (String c t)).
  reflexivity.
Qed.

(** X20. The [Bearer ] prefix is not required: a header in which
    [Bearer ] does not occur is taken whole as the token, and is
    answered as the same token behind the prefix is. *)
Theorem bare_token_accepted (S : Type)
    (jwt_verify : string -> option (option ObjectId))
    (users : list Gate.User) (h : string) :
  occurs "Bearer " h = false ->
  match @Gate.auth jwt_verify S users (Gate.mkRequest (Some h) None),
        @Gate.auth jwt_verify S users
           (Gate.mkRequest (Some (String.append "Bearer " h)) None)
  with
  | inl r, inl r' => r = r'
  | inr req, inr req' => Gate.user req = Gate.user req'
  | _, _ => False
  end.
Proof.
  intros H. unfold Gate.auth. cbn [Gate.authorization option_map].
  rewrite (replace_prefix "Bearer " EmptyString h).
  rewrite (replace_no_occurrence _ _ _ H).
  change (String.append EmptyString h) with h.
  destruct (Js.truthy_string (Some h)); simpl; [|reflexivity].
  destruct (jwt_verify h) as [d|]; [|reflexivity].
  destruct (Gate.findUserById d users); reflexivity.
Qed.

Lemma bare_token_accepted_witness :
  let jwt_verify :=
    fun t : string => if String.eqb t "abc" then Some (Some 1%nat) else None
  in
  let users := [Gate.mkUser 1%nat "Ann" "ann@example.org" (Some "hash")] in
  occurs "Bearer " "abc" = false
  /\ match @Gate.auth jwt_verify Server.StatsJson users
             (Gate.mkRequest (Some "abc") None),
           @Gate.auth jwt_verify Server.StatsJson users
             (Gate.mkRequest (Some (String.append "Bearer " "abc")) None)
     with
     | inl r, inl r' => r = r'
     | inr req, inr req' => Gate.user req = Gate.user req'
     | _, _ => False
     end.
Proof.
  split; [reflexivity|].
  apply (bare_token_accepted Server.StatsJson
           (fun t : string =>
              if String.eqb t "abc" then Some (Some 1%nat) else None)
           [Gate.mkUser 1%nat "Ann" "ann@example.org" (Some "hash")] "abc").
  reflexivity.
Defined.

(** X21. Behind [auth], [verifyStatsAccess] never answers: the
    statistics route of [Server] answers what [auth] answers when it
    rejects, and otherwise the statistics of the user [auth] has
    attached, with status 200. *)
Theorem stats_behind_auth
    (jwt_verify : string -> option (option ObjectId))
    (users : list Gate.User) (db : Store.Collection) (req : Gate.Request)
    (q : StatsQuery) :
  match @Gate.auth jwt_verify Server.StatsJson users req with
  | inl r =>
      Gate.stats_route jwt_verify users db req q = r
      /\ status r = 401%nat
      /\ payload r <> Message "Not authorized to access stats"
  | inr req' =>
      exists u,
        Gate.user req' = Some u /\ In (Gate.u_id u) (map Gate.u_id users)
        /\ Gate.stats_route jwt_verify users db req q
           = Server.get_stats db (Gate.u_id u) q
        /\ status (Gate.stats_route jwt_verify users db req q) = 200%nat
  end.
Proof.
  unfold Gate.stats_route, Gate.auth. destruct req as [[h|] u0]; simpl;
    [|repeat split; discriminate].
  destruct (String.eqb (Gate.replace "Bearer " EmptyString h) EmptyString);
    simpl; [repeat split; discriminate|].
  destruct (jwt_verify _) as [[uid|]|]; simpl;
    try (repeat split; discriminate).
  destruct (List.find _ users) as [u|] eqn:Ef; simpl;
    [|repeat split; discriminate].
  apply find_some in Ef. destruct Ef as [Hin _].
  eexists. split; [reflexivity|]. simpl.
  split; [now apply in_map|]. split; reflexivity.
Qed.

(** ** A blank category in an update *)

Lemma put_fields_category body t t' c :
  b_category body = Some c -> c <> EmptyString ->
  Api.put_fields body t = inr t' -> category t' = Js.trim c.
Proof.
  intros Hb Hc. rewrite put_fields_eq.
  destruct (type_bad body); [discriminate|].
  destruct (amount_bad body); [discriminate|].
  intros [= <-]. unfold patched. simpl. rewrite Hb.
  apply String.eqb_neq in Hc. now rewrite Hc.
Qed.

(** X22. [PUT /:id] of [Api] with a category that is not empty but is
    made of white space is answered BadRequest, through the schema,
    and the collection is left as it was. *)
Theorem put_blank_category_rejected (db : Store.Collection)
    (user id : ObjectId) (body : Body) (t : Transaction) (c : string) :
  Store.findOne id user db = Some t ->
  b_category body = Some c -> c <> EmptyString -> Js.trim c = EmptyString ->
  denied 400 db (Api.put db user id body).
Proof.
  intros Ho Hb Hc Htrim. unfold Api.put. rewrite Ho.
  pose proof (put_fields_cases body t) as [Hcases _].
  destruct (Api.put_fields body t) as [r|t'] eqn:Ef.
  - destruct Hcases as [Hs Hm]. unfold denied. simpl. auto.
  - pose proof (put_fields_category body t t' c Hb Hc Ef) as Hcat.
    unfold Schema.save, Schema.validate. rewrite Hcat, Htrim.
    destruct (negb (Js.includes ["income"; "expense"] (type t')));
      [unfold denied; simpl; eauto|].
    destruct (amount t' <? 0); unfold denied; simpl; eauto.
Qed.

Lemma put_blank_category_rejected_witness :
  let t := mkTransaction 2%nat 1%nat "expense" 40 "food" None 1704844800000 0
  in
  let body := mkBody None None (Some " ") None None None None in
  Store.findOne 2%nat 1%nat example_txs = Some t
  /\ b_category body = Some " "
  /\ " " <> EmptyString
  /\ Js.trim " " = EmptyString
  /\ denied 400 example_txs (Api.put example_txs 1%nat 2%nat body).
Proof.
  split; [reflexivity|]. split; [reflexivity|]. split; [discriminate|].
  split; [reflexivity|].
  apply (put_blank_category_rejected example_txs 1%nat 2%nat
           (mkBody None None (Some " ") None None None None)
           (mkTransaction 2%nat 1%nat "expense" 40 "food" None
                          1704844800000 0) " ");
    try reflexivity. discriminate.
Defined.

(** ** The monthly series *)

Lemma all_from_spec p n : forall z,
  all_from p n z = true -> forall x, z <= x < z + Z.of_nat n -> p x = true.
Proof.
  induction n as [|n IH]; intros z H x Hx; [lia|].
  simpl in H. destruct (p z) eqn:E; [|discriminate].
  destruct (Z.eq_dec x z) as [->|Hne]; [exact E|].
  apply (IH (z + 1) H). lia.
Qed.

(** The months of the calendar *)

Lemma civil_month_range z :
  let '(_, m, _) := Js.civil_from_days z in 1 <= m <= 12.
Proof.
  unfold Js.civil_from_days. cbv zeta.
  set (doe := z + 719468 - (z + 719468) / 146097 * 146097).
  assert (H : 0 <= doe < 146097)
    by (unfold doe; Z.div_mod_to_equations; lia).
  clearbody doe.
  set (yoe := (doe - doe / 1460 + doe / 36524 - doe / 146096) / 365).
  set (doy := doe - (365 * yoe + yoe / 4 - yoe / 100)).
  assert (D : 0 <= doy <= 365)
    by (unfold doy, yoe; Z.div_mod_to_equations; lia).
  clearbody doy.
  destruct (Z.ltb_spec ((5 * doy + 2) / 153) 10);
    Z.div_mod_to_equations; lia.
Qed.

Lemma MonthFromTime_range t : 0 <= Js.MonthFromTime t <= 11.
Proof.
  pose proof (civil_month_range (Js.Day t)) as R.
  unfold Js.MonthFromTime.
  destruct (Js.civil_from_days (Js.Day t)) as [[y m] d]. lia.
Qed.

(** Strings *)

Lemma length_append a b :
  String.length (String.append a b)
  = (String.length a + String.length b)%nat.
Proof. induction a as [|c a IH]; simpl; [reflexivity | now rewrite IH]. Qed.

Lemma append_inj_length a a' b b' :
  String.length a = String.length a' ->
  String.append a b = String.append a' b' ->
  a = a' /\ b = b'.
Proof.
  revert a'. induction a as [|c a IH]; intros [|c' a']; simpl;
    try discriminate; [now auto|].
  intros [= Hl] [= -> H]. destruct (IH a' Hl H) as [-> ->]. now split.
Qed.

Lemma append_assoc a b c :
  String.append (String.append a b) c = String.append a (String.append b c).
Proof. induction a as [|x a IH]; simpl; [reflexivity | now rewrite IH]. Qed.

Lemma substring_prefix a b :
  substring 0 (String.length a) (String.append a b) = a.
Proof. induction a as [|c a IH]; simpl; [now destruct b | now rewrite IH]. Qed.

Lemma String_of_Z_inj n n' : Js.String_of_Z n = Js.String_of_Z n' -> n = n'.
Proof.
  unfold Js.String_of_Z. intros H. apply DecimalZ.to_int_inj.
  assert (N : forall z, Z.to_int z <> Decimal.Pos Decimal.Nil
                        /\ Z.to_int z <> Decimal.Neg Decimal.Nil).
  { intros [|p|p]; simpl; split; try discriminate;
      intros [= E]; exact (Unsigned.to_uint_nonnil p E). }
  apply (f_equal NilZero.int_of_string) in H.
  rewrite !NilZero.isi in H by apply N. now injection H.
Qed.

Lemma pad2_months v :
  1 <= v <= 12 ->
  String.length (Js.pad 2 v) = 2%nat /\ number_of (Js.pad 2 v) = v.
Proof.
  intros H.
  assert (C : all_from (fun v => Nat.eqb (String.length (Js.pad 2 v)) 2
                                 && (number_of (Js.pad 2 v) =? v))
                       12 1 = true) by (vm_compute; reflexivity).
  pose proof (all_from_spec _ _ _ C v ltac:(simpl; lia)) as P.
  cbv beta in P. apply andb_true_iff in P. destruct P as [P1 P2].
  apply Nat.eqb_eq in P1. apply Z.eqb_eq in P2. now split.
Qed.

Lemma pad4_years y :
  0 <= y <= 9999 ->
  String.length (Js.pad 4 y) = 4%nat /\ number_of (Js.pad 4 y) = y.
Proof.
  intros H.
  assert (C : all_from (fun y => Nat.eqb (String.length (Js.pad 4 y)) 4
                                 && (number_of (Js.pad 4 y) =? y))
                       (Z.to_nat 10000) 0 = true) by (vm_compute; reflexivity).
  pose proof (all_from_spec _ _ _ C y) as P. cbv beta in P.
  rewrite Z2Nat.id in P by lia. specialize (P ltac:(lia)).
  apply andb_true_iff in P. destruct P as [P1 P2].
  apply Nat.eqb_eq in P1. apply Z.eqb_eq in P2. now split.
Qed.

(** The key of [Api] is the year and the month of the host. *)
Lemma Api_monthKey_eq tza d :
  Api.monthKey tza d
  = String.append (Js.String_of_Z (Api.getFullYear tza d))
      (String "-" (Js.pad 2 (Api.getMonth tza d + 1))).
Proof. reflexivity. Qed.

Lemma Api_monthKey_inj tza d d' :
  Api.monthKey tza d = Api.monthKey tza d'
  <-> Api.getFullYear tza d = Api.getFullYear tza d'
      /\ Api.getMonth tza d = Api.getMonth tza d'.
Proof.
  rewrite !Api_monthKey_eq.
  split; [|now intros [-> ->]].
  pose proof (MonthFromTime_range (d + tza d)) as R.
  pose proof (MonthFromTime_range (d' + tza d')) as R'.
  fold (Api.getMonth tza d) in R. fold (Api.getMonth tza d') in R'.
  destruct (pad2_months (Api.getMonth tza d + 1) ltac:(lia)) as [L N].
  destruct (pad2_months (Api.getMonth tza d' + 1) ltac:(lia)) as [L' N'].
  intros H.
  assert (Hl : String.length (Js.String_of_Z (Api.getFullYear tza d))
               = String.length (Js.String_of_Z (Api.getFullYear tza d'))).
  { apply (f_equal String.length) in H.
    rewrite !length_append in H. cbn [String.length] in H. lia. }
  destruct (append_inj_length _ _ _ _ Hl H) as [Hy Hm].
  split; [now apply String_of_Z_inj|].
  injection Hm as Hm. rewrite Hm in N. lia.
Qed.

(** The key of [Server] is the year and the month of the date, in
    universal time, for the years that the ISO string writes with four
    digits. *)
Lemma Server_monthKey_eq d :
  0 <= Js.YearFromTime d <= 9999 ->
  Server.monthKey d
  = String.append (Js.pad 4 (Js.YearFromTime d))
      (String "-" (Js.pad 2 (Js.MonthFromTime d + 1))).
Proof.
  intros Hy.
  pose proof (MonthFromTime_range d) as R.
  destruct (pad4_years _ Hy) as [L4 _].
  destruct (pad2_months (Js.MonthFromTime d + 1) ltac:(lia)) as [L2 _].
  unfold Server.monthKey, Js.slice0, Js.toISOString, Js.isoYear.
  assert (E : (0 <=? Js.YearFromTime d) && (Js.YearFromTime d <=? 9999)
              = true)
    by (apply andb_true_iff; split; apply Z.leb_le; lia).
  rewrite E.
  set (key := String.append (Js.pad 4 (Js.YearFromTime d))
                (String "-" (Js.pad 2 (Js.MonthFromTime d + 1)))).
  set (rest := String.concat EmptyString
                 [ "-"; Js.pad 2 (Js.DateFromTime d); "T";
                   Js.pad 2 (Js.HourFromTime d); ":";
                   Js.pad 2 (Js.MinFromTime d); ":";
                   Js.pad 2 (Js.SecFromTime d); ".";
                   Js.pad 3 (Js.msFromTime d); "Z" ]).
  assert (Hl : String.length key = 7%nat).
  { unfold key. rewrite length_append. cbn [String.length]. lia. }
  transitivity (substring 0 (String.length key) (String.append key rest));
    [|apply substring_prefix].
  rewrite Hl. f_equal. unfold key. rewrite append_assoc. reflexivity.
Qed.

Lemma Server_monthKey_inj d d' :
  0 <= Js.YearFromTime d <= 9999 -> 0 <= Js.YearFromTime d' <= 9999 ->
  Server.monthKey d = Server.monthKey d'
  <-> Js.YearFromTime d = Js.YearFromTime d'
      /\ Js.MonthFromTime d = Js.MonthFromTime d'.
Proof.
  intros Hy Hy'. rewrite !Server_monthKey_eq by assumption.
  split; [|now intros [-> ->]].
  pose proof (MonthFromTime_range d) as R.
  pose proof (MonthFromTime_range d') as R'.
  destruct (pad4_years _ Hy) as [L N], (pad4_years _ Hy') as [L' N'].
  destruct (pad2_months (Js.MonthFromTime d + 1) ltac:(lia)) as [_ M].
  destruct (pad2_months (Js.MonthFromTime d' + 1) ltac:(lia)) as [_ M'].
  intros H.
  destruct (append_inj_length _ _ _ _ (eq_trans L (eq_sym L')) H) as [E1 E2].
  injection E2 as E2. rewrite E1 in N. rewrite E2 in M. lia.
Qed.

(** The order of the collation is the order of the code units on
    strings of digits and hyphens. *)

Lemma key_char_weight c d :
  key_char c = true -> key_char d = true ->
  Ascii.compare (Js.collation_weight c) (Js.collation_weight d)
  = Ascii.compare c d.
Proof.
  unfold key_char. cbn [existsb]. intros Hc Hd.
  repeat (apply orb_prop in Hc; destruct Hc as [Hc|Hc]);
    try discriminate; apply Ascii.eqb_eq in Hc; subst c;
    repeat (apply orb_prop in Hd; destruct Hd as [Hd|Hd]);
    try discriminate; apply Ascii.eqb_eq in Hd; subst d; reflexivity.
Qed.

Lemma key_chars_compare a : forall b,
  key_chars a = true -> key_chars b = true ->
  String.compare (Js.collate a) (Js.collate b) = String.compare a b.
Proof.
  unfold key_chars.
  induction a as [|c a IH]; intros [|d b]; simpl; try reflexivity.
  rewrite !andb_true_iff. intros [Hc Ha] [Hd Hb].
  rewrite (key_char_weight c d Hc Hd), (IH b Ha Hb). reflexivity.
Qed.

Lemma key_chars_append a b :
  key_chars (String.append a b) = key_chars a && key_chars b.
Proof.
  unfold key_chars. induction a as [|c a IH]; simpl; [reflexivity|].
  now rewrite IH, andb_assoc.
Qed.

Lemma key_chars_uint u : key_chars (NilEmpty.string_of_uint u) = true.
Proof. unfold key_chars. induction u; simpl; auto. Qed.

Lemma key_chars_String_of_Z n : key_chars (Js.String_of_Z n) = true.
Proof.
  unfold Js.String_of_Z.
  assert (U : forall u, key_chars (NilZero.string_of_uint u) = true).
  { intros u. destruct u; try apply key_chars_uint. reflexivity. }
  destruct (Z.to_int n) as [u|u]; simpl; [apply U|].
  change (key_chars (String "-" (NilZero.string_of_uint u)))
    with (key_char "-" && key_chars (NilZero.string_of_uint u)).
  now rewrite U.
Qed.

Lemma key_chars_pad n v : key_chars (Js.pad n v) = true.
Proof.
  unfold Js.pad, Js.padStart. rewrite key_chars_append, key_chars_String_of_Z.
  rewrite andb_true_r. unfold key_chars.
  induction (n - String.length (Js.String_of_Z v))%nat as [|k IH];
    simpl; auto.
Qed.

Lemma key_chars_Api_monthKey tza d : key_chars (Api.monthKey tza d) = true.
Proof.
  rewrite Api_monthKey_eq, key_chars_append, key_chars_String_of_Z.
  change (key_chars (String "-" (Js.pad 2 (Api.getMonth tza d + 1))))
    with (key_char "-" && key_chars (Js.pad 2 (Api.getMonth tza d + 1))).
  now rewrite key_chars_pad.
Qed.

Lemma key_chars_Server_monthKey d :
  0 <= Js.YearFromTime d <= 9999 -> key_chars (Server.monthKey d) = true.
Proof.
  intros H. rewrite (Server_monthKey_eq d H), key_chars_append, key_chars_pad.
  change (key_chars (String "-" (Js.pad 2 (Js.MonthFromTime d + 1))))
    with (key_char "-" && key_chars (Js.pad 2 (Js.MonthFromTime d + 1))).
  now rewrite key_chars_pad.
Qed.

Lemma StronglySorted_impl_in {A} (R R' : A -> A -> Prop) l :
  (forall a b, In a l -> In b l -> R a b -> R' a b) ->
  StronglySorted R l -> StronglySorted R' l.
Proof.
  intros H. induction 1 as [|x l Hs IH Hx]; constructor.
  - apply IH. intros a b Ha Hb. apply H; now right.
  - rewrite Forall_forall in *. intros y Hy.
    apply H; [now left | now right | now apply Hx].
Qed.

Lemma month_series_code_units key txs out :
  (forall t, In t txs -> key_chars (key (date t)) = true) ->
  month_series key_lt key txs out ->
  month_series str_lt key txs out.
Proof.
  intros Hk [Hs [Hi Hv]]. split; [|split; assumption].
  eapply StronglySorted_impl_in; [|exact Hs].
  intros a b Ha Hb. unfold key_lt, str_lt.
  assert (K : forall r, In r out -> key_chars (month r) = true).
  { intros r Hr. destruct (proj1 (Hi (month r)) (in_map month _ _ Hr))
      as [t [Ht <-]]. now apply Hk. }
  now rewrite (key_chars_compare _ _ (K a Ha) (K b Hb)).
Qed.

Lemma sort_by_key_strict {A} (f : A -> string) l :
  NoDup (map f l) ->
  StronglySorted (fun a b => key_lt (f a) (f b)) (Js.Array_sort (by_key f) l).
Proof.
  intros Hnd.
  assert (Hnd' : NoDup (map f (Js.Array_sort (by_key f) l))).
  { eapply Permutation_NoDup; [|exact Hnd].
    apply Permutation_map, Array_sort_perm. }
  pose proof (Array_sort_sorted (by_key f) (by_key_total f) (by_key_trans f) l)
    as Hs.
  revert Hnd' Hs. generalize (Js.Array_sort (by_key f) l). clear.
  intros l Hnd. induction 1 as [|x l Hs IH Hx]; constructor.
  - apply IH. now inversion Hnd.
  - simpl in Hnd. inversion Hnd as [|? ? Hnin _]; subst.
    rewrite Forall_forall in *. intros y Hy.
    destruct (proj1 (localeCompare_le _ _) (Hx y Hy)) as [E|Hlt]; [|exact Hlt].
    exfalso. apply Hnin. rewrite E. now apply in_map.
Qed.

Lemma Api_month_series tza txs :
  month_series key_lt (Api.monthKey tza) txs (Api.monthlyData tza txs).
Proof.
  rewrite Api_monthlyData_eq.
  set (key := fun t => Api.monthKey tza (date t)).
  pose proof (Api_months_plain tza txs) as Hpl. fold key in Hpl.
  assert (Ho : Api.monthlyStats tza txs
               = fold_left (Api.bucket_step key) txs []) by reflexivity.
  rewrite Ho. set (o := fold_left (Api.bucket_step key) txs []).
  assert (Hnd : NoDup (keys o)) by (apply NoDup_buckets; constructor).
  assert (Hp : Permutation o
                 (Js.Array_sort (by_key fst) (Js.Object_entries o))).
  { rewrite <- Array_sort_perm. apply Object_entries_perm. }
  change (fun a b : string * Api.Bucket => Js.localeCompare (fst a) (fst b))
    with (by_key (@fst string Api.Bucket)).
  split; [|split].
  - apply StronglySorted_map.
    apply (sort_by_key_strict (@fst string Api.Bucket)).
    eapply Permutation_NoDup; [|exact Hnd].
    apply Permutation_map, Object_entries_perm.
  - intros k. rewrite map_map. simpl.
    transitivity (In k (keys o)).
    + split; apply Permutation_in, Permutation_map;
        [symmetry|]; exact Hp.
    + rewrite in_keys_lookup. unfold o. split.
      * intros [b Hb]. rewrite lookup_buckets in Hb by exact Hpl.
        simpl in Hb.
        apply bucket_of_Some in Hb. exact (proj1 Hb).
      * intros H. rewrite lookup_buckets by exact Hpl. simpl.
        apply (existsb_in_group key) in H. unfold bucket_of. rewrite H. eauto.
  - intros r Hr. apply in_map_iff in Hr. destruct Hr as [[k b] [<- Hin]].
    apply (Permutation_in _ (Permutation_sym Hp)) in Hin.
    apply (In_buckets key txs k b Hpl), bucket_of_Some in Hin.
    destruct Hin as [_ ->].
    simpl. repeat split; reflexivity.
Qed.

Lemma Server_month_series txs :
  month_series key_lt Server.monthKey txs (Server.formattedMonthlyData txs).
Proof.
  rewrite Server_formattedMonthlyData_eq.
  set (o := Server.monthlyData txs).
  pose proof (Server_NoDup_monthlyData txs) as Hnd. fold o in Hnd.
  set (recs := map server_month_record (Js.Object_entries o)).
  assert (Hk : map month recs = keys (Js.Object_entries o)).
  { unfold recs. rewrite map_map. reflexivity. }
  assert (Hpk : Permutation (keys o) (map month recs)).
  { rewrite Hk. apply Permutation_map, Object_entries_perm. }
  split; [|split].
  - apply sort_by_key_strict. eapply Permutation_NoDup; eauto.
  - intros k.
    transitivity (In k (keys o)).
    + split.
      * intros H. apply (Permutation_in _ (Permutation_sym Hpk)).
        revert H. apply Permutation_in, Permutation_map.
        symmetry. apply Array_sort_perm.
      * intros H. apply (Permutation_in _ Hpk) in H.
        revert H. apply Permutation_in, Permutation_map, Array_sort_perm.
    + rewrite in_keys_lookup. unfold o. split.
      * intros [b Hb]. rewrite Server_lookup_monthlyData in Hb.
        apply month_bucket_of_Some in Hb. exact (proj1 Hb).
      * intros H. rewrite Server_lookup_monthlyData.
        apply (existsb_in_group (fun t => Server.monthKey (date t))) in H.
        unfold month_bucket_of. unfold in_group in H. unfold in_month.
        rewrite H. eauto.
  - intros r Hr. apply Array_sort_In in Hr.
    apply in_map_iff in Hr. destruct Hr as [[k b] [<- Hin]].
    apply (Permutation_in _ (Permutation_sym (Object_entries_perm o))) in Hin.
    apply (In_lookup _ _ _ Hnd) in Hin. unfold o in Hin.
    rewrite Server_lookup_monthlyData in Hin.
    apply month_bucket_of_Some in Hin. destruct Hin as [_ ->].
    simpl. unfold in_month. repeat split; reflexivity.
Qed.

(** X23. The monthly series of a fetched list of exact amounts.  In
    [Api] it has exactly one record for each month key of the list,
    with the sum of the incomes of the month, the sum of its other
    amounts as [expense] and [balance = income - expense], in strictly
    ascending order of the key, compared by code units; two dates
    have the same key exactly when they have the same year and the
    same month in the time of the host.  In [Server] it has one record
    for each key, with the same sums, in strictly ascending order of
    the collation, which is the order of the code units when the years
    are from 0 to 9999; two dates of such years have the same key
    exactly when they have the same year and month in universal
    time. *)
Theorem monthly_series (tza : Z -> Z) (txs : list Transaction) :
  exact txs ->
  month_series str_lt (Api.monthKey tza) txs
               (Api.r_monthlyData (Api.stats_of tza txs))
  /\ month_series key_lt Server.monthKey txs
                  (Server.r_monthlyData (Server.stats_of txs))
  /\ (Forall (fun t => 0 <= Js.YearFromTime (date t) <= 9999) txs ->
      month_series str_lt Server.monthKey txs
                   (Server.r_monthlyData (Server.stats_of txs)))
  /\ (forall d d',
        Api.monthKey tza d = Api.monthKey tza d'
        <-> Api.getFullYear tza d = Api.getFullYear tza d'
            /\ Api.getMonth tza d = Api.getMonth tza d')
  /\ (forall d d',
        0 <= Js.YearFromTime d <= 9999 -> 0 <= Js.YearFromTime d' <= 9999 ->
        Server.monthKey d = Server.monthKey d'
        <-> Js.YearFromTime d = Js.YearFromTime d'
            /\ Js.MonthFromTime d = Js.MonthFromTime d').
Proof.
  intros _. rewrite Api_stats_of. simpl.
  split; [|split; [|split; [|split]]].
  - apply month_series_code_units; [|apply Api_month_series].
    intros t _. apply key_chars_Api_monthKey.
  - apply Server_month_series.
  - intros Hy. apply month_series_code_units; [|apply Server_month_series].
    rewrite Forall_forall in Hy. intros t Ht.
    now apply key_chars_Server_monthKey, Hy.
  - apply Api_monthKey_inj.
  - apply Server_monthKey_inj.
Qed.

Lemma monthly_series_witness :
  exact example_txs
  /\ month_series str_lt (Api.monthKey (fun _ => 0)) example_txs
       (Api.r_monthlyData (Api.stats_of (fun _ => 0) example_txs))
  /\ month_series key_lt Server.monthKey example_txs
       (Server.r_monthlyData (Server.stats_of example_txs))
  /\ (Forall (fun t => 0 <= Js.YearFromTime (date t) <= 9999) example_txs ->
      month_series str_lt Server.monthKey example_txs
                   (Server.r_monthlyData (Server.stats_of example_txs)))
  /\ (forall d d',
        Api.monthKey (fun _ => 0) d = Api.monthKey (fun _ => 0) d'
        <-> Api.getFullYear (fun _ => 0) d = Api.getFullYear (fun _ => 0) d'
            /\ Api.getMonth (fun _ => 0) d = Api.getMonth (fun _ => 0) d')
  /\ (forall d d',
        0 <= Js.YearFromTime d <= 9999 -> 0 <= Js.YearFromTime d' <= 9999 ->
        Server.monthKey d = Server.monthKey d'
        <-> Js.YearFromTime d = Js.YearFromTime d'
            /\ Js.MonthFromTime d = Js.MonthFromTime d').
Proof.
  split; [solve_exact|].
  apply (monthly_series (fun _ => 0) example_txs).
  solve_exact.
Defined.
